(** * MPM3D (taichi, src/simulation3d/mpm/mpm3.cpp): a shallow embedding

    The C++ scalar type [real] (single precision [float]) is read in exact
    arithmetic: every value of type [real] is a real number of [R], and
    [+ - * /], comparisons, [sqrt], [log], [exp] are the exact operations.
    Rounding, overflow, NaN and infinities are outside this reading.
    Identities between sums and products are stated in it; where the code
    tests a sign, names an exact value or keeps a strict bound, rounding
    decides, and module [F32] below evaluates the expression in IEEE
    binary32 (the kernel, the cell masses of [rasterize], the clamp bound
    of [substep], the seeded coordinates): the theorems named [F32_...]
    are about these evaluations.

    Vectors and matrices follow glm: a [Matrix3] is column-major and
    [mIJ m] is the C++ expression [m[I][J]] (column [I], row [J]). *)

From Stdlib Require Import Reals Lra Lia Psatz ZArith List String Bool.
From Stdlib Require Import Floats.SpecFloat.
Import ListNotations.

Local Open Scope R_scope.

(* ------------------------------------------------------------------ *)
(** * Kernel functions *)

(** The range both kernel functions assume ("assuming abs(x) <= 2") and
    check with [assert(x <= 2)] once the sign is removed. *)
Definition kernel_assert (x : R) : bool :=
  if Rle_dec (Rabs x) 2 then true else false.

(** [inline float w(float x)]: the value returned when the assertion
    holds; [w_checked] below is the function with its assertion.  The
    arithmetic is exact here; [F32.w] is the same expression with every
    operation rounded to binary32. *)
Definition w (x : R) : R :=
  let x := Rabs x in
  if Rlt_dec x 1
  then 0.5 * x * x * x - x * x + 2 / 3
  else -1 / 6 * x * x * x + x * x - 2 * x + 4 / 3.

(** [inline float dw(float x)]: the value returned when the assertion
    holds ([x * s] is [|x|]); [dw_checked] below is the function with its
    assertion. *)
Definition dw (x : R) : R :=
  let s := if Rlt_dec x 0 then -1 else 1 in
  let x := x * s in
  let xx := x * x in
  let val :=
    if Rlt_dec x 1
    then 1.5 * xx - 2 * x
    else -0.5 * xx + 2 * x - 2 in
  s * val.

(* ------------------------------------------------------------------ *)
(** * Vectors and matrices (glm) *)

Record Vector3 : Type := vec3 { vx : R; vy : R; vz : R }.

(** Field [mIJ] is [m[I][J]]; the constructor takes its nine arguments in
    the order of glm's [mat3(a, b, c, d, e, f, g, h, i)]. *)
Record Matrix3 : Type := mat3 {
  m00 : R; m01 : R; m02 : R;
  m10 : R; m11 : R; m12 : R;
  m20 : R; m21 : R; m22 : R }.

Definition vsplat (s : R) : Vector3 := vec3 s s s.
Definition vadd (a b : Vector3) : Vector3 :=
  vec3 (vx a + vx b) (vy a + vy b) (vz a + vz b).
Definition vsub (a b : Vector3) : Vector3 :=
  vec3 (vx a - vx b) (vy a - vy b) (vz a - vz b).
Definition vneg (a : Vector3) : Vector3 := vec3 (- vx a) (- vy a) (- vz a).
Definition vscale (s : R) (a : Vector3) : Vector3 :=
  vec3 (s * vx a) (s * vy a) (s * vz a).
(** [a * s], a vector times a scalar. *)
Definition vmuls (a : Vector3) (s : R) : Vector3 :=
  vec3 (vx a * s) (vy a * s) (vz a * s).
Definition vdot (a b : Vector3) : R := vx a * vx b + vy a * vy b + vz a * vz b.
Definition vlength (a : Vector3) : R := sqrt (vdot a a).
Definition vnormalize (a : Vector3) : Vector3 := vscale (/ vlength a) a.

(** [Matrix3(s)]: [s] on the diagonal. *)
Definition mdiag (s : R) : Matrix3 := mat3 s 0 0 0 s 0 0 0 s.
Definition madd (a b : Matrix3) : Matrix3 :=
  mat3 (m00 a + m00 b) (m01 a + m01 b) (m02 a + m02 b)
       (m10 a + m10 b) (m11 a + m11 b) (m12 a + m12 b)
       (m20 a + m20 b) (m21 a + m21 b) (m22 a + m22 b).
Definition msub (a b : Matrix3) : Matrix3 :=
  mat3 (m00 a - m00 b) (m01 a - m01 b) (m02 a - m02 b)
       (m10 a - m10 b) (m11 a - m11 b) (m12 a - m12 b)
       (m20 a - m20 b) (m21 a - m21 b) (m22 a - m22 b).
Definition mscale (s : R) (a : Matrix3) : Matrix3 :=
  mat3 (s * m00 a) (s * m01 a) (s * m02 a)
       (s * m10 a) (s * m11 a) (s * m12 a)
       (s * m20 a) (s * m21 a) (s * m22 a).
(** [a * b] on matrices: column [j] of the product is [a] times column [j]
    of [b]. *)
Definition mmul (a b : Matrix3) : Matrix3 :=
  mat3 (m00 a * m00 b + m10 a * m01 b + m20 a * m02 b)
       (m01 a * m00 b + m11 a * m01 b + m21 a * m02 b)
       (m02 a * m00 b + m12 a * m01 b + m22 a * m02 b)
       (m00 a * m10 b + m10 a * m11 b + m20 a * m12 b)
       (m01 a * m10 b + m11 a * m11 b + m21 a * m12 b)
       (m02 a * m10 b + m12 a * m11 b + m22 a * m12 b)
       (m00 a * m20 b + m10 a * m21 b + m20 a * m22 b)
       (m01 a * m20 b + m11 a * m21 b + m21 a * m22 b)
       (m02 a * m20 b + m12 a * m21 b + m22 a * m22 b).
(** [a * x], matrix times column vector. *)
Definition mvmul (a : Matrix3) (x : Vector3) : Vector3 :=
  vec3 (m00 a * vx x + m10 a * vy x + m20 a * vz x)
       (m01 a * vx x + m11 a * vy x + m21 a * vz x)
       (m02 a * vx x + m12 a * vy x + m22 a * vz x).
(** [glm::transpose]. *)
Definition transpose (a : Matrix3) : Matrix3 :=
  mat3 (m00 a) (m10 a) (m20 a)
       (m01 a) (m11 a) (m21 a)
       (m02 a) (m12 a) (m22 a).
(** [det] / [glm::determinant]. *)
Definition det (m : Matrix3) : R :=
    m00 m * (m11 m * m22 m - m21 m * m12 m)
  - m10 m * (m01 m * m22 m - m21 m * m02 m)
  + m20 m * (m01 m * m12 m - m11 m * m02 m).
(** [glm::inverse]: the cofactors times one over the determinant. *)
Definition inverse (m : Matrix3) : Matrix3 :=
  let k := 1 / det m in
  mat3 (  (m11 m * m22 m - m21 m * m12 m) * k)
       (- (m01 m * m22 m - m21 m * m02 m) * k)
       (  (m01 m * m12 m - m11 m * m02 m) * k)
       (- (m10 m * m22 m - m20 m * m12 m) * k)
       (  (m00 m * m22 m - m20 m * m02 m) * k)
       (- (m00 m * m12 m - m10 m * m02 m) * k)
       (  (m10 m * m21 m - m20 m * m11 m) * k)
       (- (m00 m * m21 m - m20 m * m01 m) * k)
       (  (m00 m * m11 m - m10 m * m01 m) * k).
(** [glm::outerProduct(c, r)]: column [i] is [c * r[i]]. *)
Definition outerProduct (c r : Vector3) : Matrix3 :=
  mat3 (vx c * vx r) (vy c * vx r) (vz c * vx r)
       (vx c * vy r) (vy c * vy r) (vz c * vy r)
       (vx c * vz r) (vy c * vz r) (vz c * vz r).

(** [inline float w(const Vector3 &a)]. *)
Definition w3 (a : Vector3) : R := w (vx a) * w (vy a) * w (vz a).

(** [inline Vector3 dw(const Vector3 &a)]. *)
Definition dw3 (a : Vector3) : Vector3 :=
  vec3 (dw (vx a) * w (vy a) * w (vz a))
       (w (vx a) * dw (vy a) * w (vz a))
       (w (vx a) * w (vy a) * dw (vz a)).

(* ------------------------------------------------------------------ *)
(** * Fatal failures

    [assert_info(cond, msg)] and [error(msg)] end the run; a computation
    that can reach one returns a [Result]. *)

Inductive Result (A : Type) : Type :=
| Ok (a : A)
| Fatal (msg : string).
Arguments Ok {A} a.
Arguments Fatal {A} msg.

Definition bind {A B : Type} (r : Result A) (k : A -> Result B) : Result B :=
  match r with
  | Ok a => k a
  | Fatal msg => Fatal msg
  end.

Notation "x <- c1 ;; c2" := (bind c1 (fun x => c2))
  (at level 61, c1 at next level, right associativity).

Definition assert_info (cond : bool) (info : string) : Result unit :=
  if cond then Ok tt else Fatal info.

(** [w] and [dw] with their [assert(x <= 2)]. *)
Definition w_checked (x : R) : Result R :=
  _ <- assert_info (kernel_assert x) "x <= 2" ;; Ok (w x).

Definition dw_checked (x : R) : Result R :=
  _ <- assert_info (kernel_assert x) "x <= 2" ;; Ok (dw x).

(** Sequential reading of a loop whose body can fail. *)
Fixpoint mapM {A B : Type} (f : A -> Result B) (l : list A) : Result (list B) :=
  match l with
  | [] => Ok []
  | a :: l' => b <- f a ;; bs <- mapM f l' ;; Ok (b :: bs)
  end.

(** The same for a loop that updates a value. *)
Fixpoint foldM {A B : Type} (f : A -> B -> Result A) (l : list B) (a : A)
  : Result A :=
  match l with
  | [] => Ok a
  | b :: l' => a' <- f a b ;; foldM f l' a'
  end.

Definition is_fatal {A : Type} (r : Result A) : Prop :=
  match r with Ok _ => False | Fatal _ => True end.

(* ------------------------------------------------------------------ *)
(** * Helpers of the math utilities *)

(** Modelled from the spec: [clamp] (taichi/math/math_util.h is not part of
    the sources at hand) clamps a value into [[lo, hi]]. *)
Definition clamp (a lo hi : R) : R :=
  if Rlt_dec a lo then lo else if Rlt_dec hi a then hi else a.

(** Modelled from the spec: [frobenius_norm] (same header), the square root
    of the sum of the squared entries. *)
Definition frobenius_norm (m : Matrix3) : R :=
  sqrt (m00 m * m00 m + m01 m * m01 m + m02 m * m02 m
      + m10 m * m10 m + m11 m * m11 m + m12 m * m12 m
      + m20 m * m20 m + m21 m * m21 m + m22 m * m22 m).

(** Comparisons as the branch conditions of the source use them. *)
Definition Rltb (a b : R) : bool := if Rlt_dec a b then true else false.
Definition Rleb (a b : R) : bool := if Rle_dec a b then true else false.
Definition Reqb (a b : R) : bool := if Req_dec_T a b then true else false.

(* ------------------------------------------------------------------ *)
(** * Configuration

    Modelled from the spec: [Config] (not part of the sources at hand) is a
    keyed store; [config.get(key, default)] gives the stored value, or the
    default when the key is absent. *)

Record Config : Type := {
  cfg_real : string -> option R;
  cfg_vec3 : string -> option Vector3;
  cfg_string : string -> option string;
  cfg_int : string -> option Z }.

Definition get {T : Type} (entry : option T) (default : T) : T :=
  match entry with Some x => x | None => default end.

(* ------------------------------------------------------------------ *)
(** * Particles *)

Module EPFields.
  (** Members of [struct EPParticle3]. *)
Record t : Type := make {
    hardening : R; mu_0 : R; lambda_0 : R; theta_c : R; theta_s : R }.
  (** The member initialisers: 10, 1e5, 1e5, 2.5e-2, 7.5e-3. *)
Definition init : t := make 10 100000 100000 0.025 0.0075.
End EPFields.

Module DPFields.
  (** Members of [struct DPParticle3]. *)
Record t : Type := make {
    h_0 : R; h_1 : R; h_2 : R; h_3 : R;
    lambda_0 : R; mu_0 : R; alpha : R; q : R }.
  (** The member initialisers. *)
Definition init : t := make 35 9 0.2 10 204057 136038 1 0.
End DPFields.

Inductive Material : Type :=
| EP (e : EPFields.t)
| DP (d : DPFields.t).

(** [MPM3D::Particle] with the members this file's code reads and writes;
    [material] is the dynamic type of the object. *)
Record Particle : Type := mkParticle {
  pos : Vector3;
  v : Vector3;
  mass : R;
  vol : R;
  dg_e : Matrix3;
  dg_p : Matrix3;
  dg_cache : Matrix3;
  apic_b : Matrix3;
  tmp_force : Matrix3;
  material : Material }.

Definition set_pos (p : Particle) (x : Vector3) : Particle :=
  mkParticle x (v p) (mass p) (vol p) (dg_e p) (dg_p p) (dg_cache p)
             (apic_b p) (tmp_force p) (material p).
Definition set_v (p : Particle) (x : Vector3) : Particle :=
  mkParticle (pos p) x (mass p) (vol p) (dg_e p) (dg_p p) (dg_cache p)
             (apic_b p) (tmp_force p) (material p).
Definition set_mass (p : Particle) (x : R) : Particle :=
  mkParticle (pos p) (v p) x (vol p) (dg_e p) (dg_p p) (dg_cache p)
             (apic_b p) (tmp_force p) (material p).
Definition set_dg_e (p : Particle) (x : Matrix3) : Particle :=
  mkParticle (pos p) (v p) (mass p) (vol p) x (dg_p p) (dg_cache p)
             (apic_b p) (tmp_force p) (material p).
Definition set_dg_p (p : Particle) (x : Matrix3) : Particle :=
  mkParticle (pos p) (v p) (mass p) (vol p) (dg_e p) x (dg_cache p)
             (apic_b p) (tmp_force p) (material p).
Definition set_dg_cache (p : Particle) (x : Matrix3) : Particle :=
  mkParticle (pos p) (v p) (mass p) (vol p) (dg_e p) (dg_p p) x
             (apic_b p) (tmp_force p) (material p).
Definition set_apic_b (p : Particle) (x : Matrix3) : Particle :=
  mkParticle (pos p) (v p) (mass p) (vol p) (dg_e p) (dg_p p) (dg_cache p)
             x (tmp_force p) (material p).
Definition set_tmp_force (p : Particle) (x : Matrix3) : Particle :=
  mkParticle (pos p) (v p) (mass p) (vol p) (dg_e p) (dg_p p) (dg_cache p)
             (apic_b p) x (material p).
Definition set_material (p : Particle) (x : Material) : Particle :=
  mkParticle (pos p) (v p) (mass p) (vol p) (dg_e p) (dg_p p) (dg_cache p)
             (apic_b p) (tmp_force p) x.

(** Modelled from the spec: the constructor [MPM3D::Particle()] is in
    mpm3.h, not part of the sources at hand.  The spec gives [dg_elastic]
    as the identity and [apic_affine] as zero before the first substep; the
    other members start at zero, [dg_plastic] at the identity and the volume
    at one. *)
Definition new_Particle (m : Material) : Particle :=
  mkParticle (vsplat 0) (vsplat 0) 0 1 (mdiag 1) (mdiag 1) (mdiag 0)
             (mdiag 0) (mdiag 0) m.

(* ------------------------------------------------------------------ *)
(** * External collaborators

    Functions of the repository that this file calls and that are not part
    of the sources at hand: the decompositions of taichi/math/qr_svd.h, the
    level set, [Particle::resolve_collision], the density texture, and the
    constant [eps]. *)

Record Externals : Type := {
  (** [svd(m, u, sig, v)]: the triple [(u, sig, v)]. *)
  svd : Matrix3 -> Matrix3 * Matrix3 * Matrix3;
  (** [polar_decomp(m, r, s)]: the pair [(r, s)]. *)
  polar_decomp : Matrix3 -> Matrix3 * Matrix3;
  eps : R;
  levelset_sample : Vector3 -> R -> R;
  levelset_get_spatial_gradient : Vector3 -> R -> Vector3;
  levelset_get_temporal_derivative : Vector3 -> R -> R;
  levelset_friction : R;
  resolve_collision : Particle -> R -> Particle;
  (** [AssetManager::get_asset<Texture>(id)->sample(coord).x]. *)
  texture_sample_x : Z -> Vector3 -> R }.

(* ------------------------------------------------------------------ *)
(** * The elastoplastic material, [struct EPParticle3] *)

(** The loop [for (i < D) sig[i][i] = clamp(sig[i][i], lo, hi)], [D = 3]. *)
Definition clamp_diagonal (sig : Matrix3) (lo hi : R) : Matrix3 :=
  mat3 (clamp (m00 sig) lo hi) (m01 sig) (m02 sig)
       (m10 sig) (clamp (m11 sig) lo hi) (m12 sig)
       (m20 sig) (m21 sig) (clamp (m22 sig) lo hi).

Module EPParticle3.
Import EPFields.

Definition initialize (config : Config) (e : EPFields.t) (p : Particle)
  : Particle :=
  let hardening := get (cfg_real config "hardening") (hardening e) in
  let lambda_0 := get (cfg_real config "lambda_0") (lambda_0 e) in
  let mu_0 := get (cfg_real config "mu_0") (mu_0 e) in
  let theta_c := get (cfg_real config "theta_c") (theta_c e) in
  let theta_s := get (cfg_real config "theta_s") (theta_s e) in
  let compression := get (cfg_real config "compression") 1 in
  set_dg_p
    (set_material p (EP (make hardening mu_0 lambda_0 theta_c theta_s)))
    (mdiag compression).

(** The diagnostics [P(..)] and [CV(..)] print or check for abnormal
    (non-finite) values; no real number is abnormal. *)
Definition get_energy_gradient (X : Externals) (e : EPFields.t)
  (p : Particle) : Matrix3 :=
  let j_e := det (dg_e p) in
  let j_p := det (dg_p p) in
  let ex := exp (Rmin (hardening e * (1 - j_p)) 10) in
  let mu := mu_0 e * ex in
  let lambda := lambda_0 e * ex in
  let '(r, s) := polar_decomp X (dg_e p) in
  madd (mscale (2 * mu) (msub (dg_e p) r))
       (mscale (lambda * (j_e - 1) * j_e) (inverse (transpose (dg_e p)))).

Definition calculate_force (X : Externals) (e : EPFields.t) (p : Particle)
  : Particle :=
  set_tmp_force p
    (mmul (mscale (- vol p) (get_energy_gradient X e p))
          (transpose (dg_e p))).

Definition plasticity (X : Externals) (e : EPFields.t) (p : Particle)
  : Particle :=
  let '(svd_u, sig, svd_v) := svd X (dg_e p) in
  let sig := clamp_diagonal sig (1 - theta_c e) (1 + theta_s e) in
  let dg_e' := mmul (mmul svd_u sig) (transpose svd_v) in
  let dg_p' := mmul (inverse dg_e') (dg_cache p) in
  let '(svd_u, sig, svd_v) := svd X dg_p' in
  let sig := clamp_diagonal sig 0.1 10 in
  let dg_p' := mmul (mmul svd_u sig) (transpose svd_v) in
  set_dg_p (set_dg_e p dg_e') dg_p'.
End EPParticle3.

(* ------------------------------------------------------------------ *)
(** * The Drucker-Prager material, [struct DPParticle3] *)

Module DPParticle3.
Import DPFields.

Definition initialize (config : Config) (d : DPFields.t) (p : Particle)
  : Particle :=
  let h_0 := get (cfg_real config "h_0") (h_0 d) in
  let h_1 := get (cfg_real config "h_1") (h_1 d) in
  let h_2 := get (cfg_real config "h_2") (h_2 d) in
  let h_3 := get (cfg_real config "h_3") (h_3 d) in
  let lambda_0 := get (cfg_real config "lambda_0") (lambda_0 d) in
  let mu_0 := get (cfg_real config "mu_0") (mu_0 d) in
  let alpha := get (cfg_real config "alpha") (alpha d) in
  let compression := get (cfg_real config "compression") 1 in
  set_dg_p
    (set_material p
       (DP (make h_0 h_1 h_2 h_3 lambda_0 mu_0 alpha (q d))))
    (mdiag compression).

Definition get_energy_gradient : Matrix3 := mdiag 1.

(** [void project(Matrix3 sigma, real alpha, Matrix3 &sigma_out,
    real &out)]: the pair [(sigma_out, out)]. [log] is the natural
    logarithm, read as [ln]: the two agree on positive arguments only (the
    C++ [log] of a value that is not positive is not a number), so the
    statements about [project] and about the Drucker-Prager [plasticity]
    are made for positive singular values. *)
Definition project (d : DPFields.t) (sigma : Matrix3) (alpha : R)
  : Matrix3 * R :=
  let dim := 3 in
  let epsilon :=
    mat3 (ln (m00 sigma)) 0 0 0 (ln (m11 sigma)) 0 0 0 (ln (m22 sigma)) in
  let tr := m00 epsilon + m11 epsilon + m22 epsilon in
  let epsilon_hat := msub epsilon (mscale (tr / dim) (mdiag 1)) in
  let epsilon_for :=
    sqrt (m00 epsilon * m00 epsilon + m11 epsilon * m11 epsilon
          + m22 epsilon * m22 epsilon) in
  let epsilon_hat_for :=
    sqrt (m00 epsilon_hat * m00 epsilon_hat
          + m11 epsilon_hat * m11 epsilon_hat
          + m22 epsilon_hat * m22 epsilon_hat) in
  if Rleb epsilon_hat_for 0 || Rltb 0 tr then
    (mdiag 1, epsilon_for)
  else
    let delta_gamma :=
      epsilon_hat_for
      + (dim * lambda_0 d + 2 * mu_0 d) / (2 * mu_0 d) * tr * alpha in
    if Rleb delta_gamma 0 then
      (sigma, 0)
    else
      let h :=
        msub epsilon (mscale (delta_gamma / epsilon_hat_for) epsilon_hat) in
      (mat3 (exp (m00 h)) 0 0 0 (exp (m11 h)) 0 0 0 (exp (m22 h)),
       delta_gamma).

Definition calculate_force (X : Externals) (d : DPFields.t) (p : Particle)
  : Result Particle :=
  let dg := dg_e p in
  let '(u, sig, sv) := svd X (dg_e p) in
  _ <- assert_info (Rltb 0 (m00 sig)) "negative singular value" ;;
  _ <- assert_info (Rltb 0 (m11 sig)) "negative singular value" ;;
  _ <- assert_info (Rltb 0 (m22 sig)) "negative singular value" ;;
  let log_sig :=
    mat3 (ln (m00 sig)) 0 0 0 (ln (m11 sig)) 0 0 0 (ln (m22 sig)) in
  let inv_sig :=
    mat3 (1 / m00 sig) 0 0 0 (1 / m11 sig) 0 0 0 (1 / m22 sig) in
  let center :=
    madd (mmul (mscale (2 * mu_0 d) inv_sig) log_sig)
         (mscale (lambda_0 d * (m00 log_sig + m11 log_sig + m22 log_sig))
                 inv_sig) in
  Ok (set_tmp_force p
        (mmul (mscale (- vol p) (mmul (mmul u center) (transpose sv)))
              (transpose dg))).

(** [void plasticity()].  The singular values go through [project], and so
    through [log]: what is stated about the result is stated for positive
    singular values. *)
Definition plasticity (X : Externals) (d : DPFields.t) (p : Particle)
  : Result Particle :=
  let '(u, sig, sv) := svd X (dg_e p) in
  let '(t, delta_q) := project d sig (alpha d) in
  let rec := mmul (mmul u sig) (transpose sv) in
  let diff := msub rec (dg_e p) in
  _ <- (if negb (Rltb (frobenius_norm diff) 0.0001)
        then Fatal "SVD error" else Ok tt) ;;
  let dg_e' := mmul (mmul u t) (transpose sv) in
  let dg_p' :=
    mmul (mmul (mmul (mmul sv (inverse t)) sig) (transpose sv)) (dg_p p) in
  let q' := q d + delta_q in
  let phi := h_0 d + (h_1 d * q' - h_3 d) * exp (- h_2 d * q') in
  let alpha' :=
    sqrt (2 / 3) * (2 * sin (phi * PI / 180))
    / (3 - sin (phi * PI / 180)) in
  Ok (set_material (set_dg_p (set_dg_e p dg_e') dg_p')
        (DP (make (h_0 d) (h_1 d) (h_2 d) (h_3 d) (lambda_0 d) (mu_0 d)
                  alpha' q'))).
End DPParticle3.

(** Virtual dispatch on the dynamic type of the particle. *)
Definition calculate_force (X : Externals) (p : Particle) : Result Particle :=
  match material p with
  | EP e => Ok (EPParticle3.calculate_force X e p)
  | DP d => DPParticle3.calculate_force X d p
  end.

Definition plasticity (X : Externals) (p : Particle) : Result Particle :=
  match material p with
  | EP e => Ok (EPParticle3.plasticity X e p)
  | DP d => DPParticle3.plasticity X d p
  end.

(* ------------------------------------------------------------------ *)
(** * The grid *)

(** A cell index [(i, j, k)]. *)
Definition Index : Type := (Z * Z * Z)%type.

Definition Index_eqb (a b : Index) : bool :=
  let '(i, j, k) := a in
  let '(i', j', k') := b in
  ((i =? i') && (j =? j') && (k =? k'))%Z.

(** [Vector3(ind.i, ind.j, ind.k)]; also [ind.get_pos()], the grids being
    created with a zero storage offset. *)
Definition index_pos (ind : Index) : Vector3 :=
  let '(i, j, k) := ind in vec3 (IZR i) (IZR j) (IZR k).

(** [Array3D<T>]: a dense array, read at an index; every index this file
    reads or writes comes from a region inside the array. *)
Definition Array3D (T : Type) : Type := Index -> T.

(** The assignment [a[ind] = x]. *)
Definition store {T : Type} (a : Array3D T) (ind : Index) (x : T)
  : Array3D T :=
  fun j => if Index_eqb j ind then x else a j.

(** The integers [lo, lo + 1, ..., hi - 1]. *)
Definition interval (lo hi : Z) : list Z :=
  map (fun n => (lo + Z.of_nat n)%Z) (seq 0 (Z.to_nat (hi - lo))).

(** The cells of a box, [i] outermost and [k] innermost. *)
Definition cells (I J K : list Z) : list Index :=
  flat_map (fun i => flat_map (fun j => map (fun k => (i, j, k)) K) J) I.

(** [grid.get_region()]: every cell of a grid of resolution [res]. *)
Definition get_region (res : Index) : list Index :=
  let '(r0, r1, r2) := res in
  cells (interval 0 r0) (interval 0 r1) (interval 0 r2).

(** The four cells next to coordinate [x] along one axis, bounded to
    [[0, n)]. *)
Definition bounded_axis (n : Z) (x : R) : list Z :=
  let b := Zfloor x in
  filter (fun i => (0 <=? i) && (i <? n))%Z
         [b - 1; b; b + 1; b + 2]%Z.

(** Modelled from the spec: [get_bounded_rasterization_region] is in
    mpm3.h, not part of the sources at hand.  The spec gives the region as
    the 4 x 4 x 4 cells whose centers lie within distance 2 of the particle
    along each axis, clipped at the domain boundary. *)
Definition get_bounded_rasterization_region (res : Index) (p : Vector3)
  : list Index :=
  let '(r0, r1, r2) := res in
  cells (bounded_axis r0 (vx p)) (bounded_axis r1 (vy p))
        (bounded_axis r2 (vz p)).

(* ------------------------------------------------------------------ *)
(** * The simulation, [class MPM3D] *)

Record MPM3D : Type := mkMPM3D {
  res : Index;
  gravity : Vector3;
  apic : bool;
  particles : list Particle;
  grid_velocity : Array3D Vector3;
  grid_mass : Array3D R;
  grid_velocity_backup : Array3D Vector3;
  current_t : R }.

Definition set_particles (s : MPM3D) (x : list Particle) : MPM3D :=
  mkMPM3D (res s) (gravity s) (apic s) x (grid_velocity s) (grid_mass s)
          (grid_velocity_backup s) (current_t s).
Definition set_grid_velocity (s : MPM3D) (x : Array3D Vector3) : MPM3D :=
  mkMPM3D (res s) (gravity s) (apic s) (particles s) x (grid_mass s)
          (grid_velocity_backup s) (current_t s).
Definition set_grid_mass (s : MPM3D) (x : Array3D R) : MPM3D :=
  mkMPM3D (res s) (gravity s) (apic s) (particles s) (grid_velocity s) x
          (grid_velocity_backup s) (current_t s).
Definition set_grid_velocity_backup (s : MPM3D) (x : Array3D Vector3)
  : MPM3D :=
  mkMPM3D (res s) (gravity s) (apic s) (particles s) (grid_velocity s)
          (grid_mass s) x (current_t s).
Definition set_current_t (s : MPM3D) (x : R) : MPM3D :=
  mkMPM3D (res s) (gravity s) (apic s) (particles s) (grid_velocity s)
          (grid_mass s) (grid_velocity_backup s) x.

(** The region of a particle in the grid of the simulation. *)
Definition region_of (s : MPM3D) (p : Particle) : list Index :=
  get_bounded_rasterization_region (res s) (pos p).

(** ** Particle to grid *)

(** The two grids [rasterize] writes: mass and velocity. *)
Definition Grids : Type := (Array3D R * Array3D Vector3)%type.

(** Body of the inner loop of [rasterize], one cell of one particle. *)
Definition rasterize_cell (p : Particle) (g : Grids) (ind : Index) : Grids :=
  let d_pos := vsub (index_pos ind) (pos p) in
  let weight := w3 d_pos in
  (store (fst g) ind (fst g ind + weight * mass p),
   store (snd g) ind
     (vadd (snd g ind)
           (vscale (weight * mass p)
                   (vadd (v p) (mvmul (mscale 3 (apic_b p)) d_pos))))).

(** Body of the particle loop of [rasterize].  The source runs the
    particles in parallel, each cell update under the lock of the cell;
    here the particles are taken one after the other, in the order of the
    list. *)
Definition rasterize_particle (rs : Index) (g : Grids) (p : Particle)
  : Grids :=
  fold_left (rasterize_cell p)
            (get_bounded_rasterization_region rs (pos p)) g.

Section Quotient.
(** The quotient [a / b] of the two passes that divide by a cell mass.
    The passes are written over [quot] so that it can be stated that their
    result does not depend on what a division by zero gives; the code is
    the instance [quot := Rdiv]. *)
Variable quot : R -> R -> R.

(** Body of the second loop of [rasterize]. *)
Definition normalize_cell (gm : Array3D R) (gv : Array3D Vector3)
  (ind : Index) : Array3D Vector3 :=
  if Rltb 0 (gm ind)
  then store gv ind (vmuls (gv ind) (quot 1 (gm ind)))
  else gv.

Definition rasterize_with (s : MPM3D) : MPM3D :=
  let g0 : Grids := (fun _ => 0, fun _ => vsplat 0) in
  let g := fold_left (rasterize_particle (res s)) (particles s) g0 in
  let gv := fold_left (normalize_cell (fst g)) (get_region (res s)) (snd g) in
  set_grid_velocity (set_grid_mass s (fst g)) gv.

(** Body of the inner loop of the second pass of
    [apply_deformation_force]. *)
Definition force_cell (delta_t : R) (gm : Array3D R) (p : Particle)
  (gv : Array3D Vector3) (ind : Index) : Array3D Vector3 :=
  let mass := gm ind in
  if Reqb mass 0 then gv
  else
    let d_pos := vsub (pos p) (index_pos ind) in
    let gw := dw3 d_pos in
    let force := mvmul (tmp_force p) gw in
    store gv ind (vadd (gv ind) (vscale (quot delta_t mass) force)).

Definition accumulate_force_with (delta_t : R) (s : MPM3D) : MPM3D :=
  set_grid_velocity s
    (fold_left
       (fun gv p => fold_left (force_cell delta_t (grid_mass s) p)
                              (region_of s p) gv)
       (particles s) (grid_velocity s)).

Definition apply_deformation_force_with (X : Externals) (delta_t : R)
  (s : MPM3D) : Result MPM3D :=
  ps <- mapM (calculate_force X) (particles s) ;;
  Ok (accumulate_force_with delta_t (set_particles s ps)).
End Quotient.

(** [void MPM3D::rasterize()]. *)
Definition rasterize (s : MPM3D) : MPM3D := rasterize_with Rdiv s.

(** [void MPM3D::apply_deformation_force(float delta_t)]. *)
Definition apply_deformation_force (X : Externals) (delta_t : R) (s : MPM3D)
  : Result MPM3D :=
  apply_deformation_force_with Rdiv X delta_t s.

(** ** The divisions of the two passes

    The second loop of [rasterize] and the second pass of
    [apply_deformation_force] once more, with the division made partial:
    [checked_div] fails on a divisor that is zero.  Apart from that they
    are the loops above, statement by statement. *)
Definition checked_div (a b : R) : Result R :=
  if Reqb b 0 then Fatal "division by zero" else Ok (a / b).

Definition normalize_cell_checked (gm : Array3D R) (gv : Array3D Vector3)
  (ind : Index) : Result (Array3D Vector3) :=
  if Rltb 0 (gm ind)
  then q <- checked_div 1 (gm ind) ;; Ok (store gv ind (vmuls (gv ind) q))
  else Ok gv.

Definition rasterize_checked (s : MPM3D) : Result MPM3D :=
  let g0 : Grids := (fun _ => 0, fun _ => vsplat 0) in
  let g := fold_left (rasterize_particle (res s)) (particles s) g0 in
  gv <- foldM (normalize_cell_checked (fst g)) (get_region (res s)) (snd g) ;;
  Ok (set_grid_velocity (set_grid_mass s (fst g)) gv).

Definition force_cell_checked (delta_t : R) (gm : Array3D R) (p : Particle)
  (gv : Array3D Vector3) (ind : Index) : Result (Array3D Vector3) :=
  let mass := gm ind in
  if Reqb mass 0 then Ok gv
  else
    let d_pos := vsub (pos p) (index_pos ind) in
    let gw := dw3 d_pos in
    let force := mvmul (tmp_force p) gw in
    q <- checked_div delta_t mass ;;
    Ok (store gv ind (vadd (gv ind) (vscale q force))).

Definition accumulate_force_checked (delta_t : R) (s : MPM3D)
  : Result MPM3D :=
  gv <- foldM
          (fun gv p => foldM (force_cell_checked delta_t (grid_mass s) p)
                             (region_of s p) gv)
          (particles s) (grid_velocity s) ;;
  Ok (set_grid_velocity s gv).

(** ** Grid to particle *)

(** The locals [v], [bv], [cdg], [b] and [count] of the loop of
    [resample]. *)
Record ResampleAcc : Type := mkAcc {
  acc_v : Vector3;
  acc_bv : Vector3;
  acc_cdg : Matrix3;
  acc_b : Matrix3;
  acc_count : Z }.

(** Body of the loop of [resample], one cell. *)
Definition resample_cell (s : MPM3D) (p : Particle) (a : ResampleAcc)
  (ind : Index) : ResampleAcc :=
  let count := (acc_count a + 1)%Z in
  let d_pos := vsub (pos p) (index_pos ind) in
  let weight := w3 d_pos in
  let gw := dw3 d_pos in
  let grid_vel := grid_velocity s ind in
  let v' := vadd (acc_v a) (vscale weight grid_vel) in
  let aa := grid_vel in
  let bb := vneg d_pos in
  let out :=
    mat3 (vx aa * vx bb) (vy aa * vx bb) (vz aa * vx bb)
         (vx aa * vy bb) (vy aa * vy bb) (vz aa * vy bb)
         (vx aa * vz bb) (vy aa * vz bb) (vz aa * vz bb) in
  let b := madd (acc_b a) (mscale weight out) in
  let bv := vadd (acc_bv a) (vscale weight (grid_velocity_backup s ind)) in
  let cdg := madd (acc_cdg a) (outerProduct (grid_velocity s ind) gw) in
  mkAcc v' bv cdg b count.

Definition resample_loop (s : MPM3D) (p : Particle) : ResampleAcc :=
  fold_left (resample_cell s p) (region_of s p)
            (mkAcc (vsplat 0) (vsplat 0) (mdiag 0) (mdiag 0) 0).

(** Body of the particle loop of [resample]. *)
Definition resample_particle (delta_t : R) (s : MPM3D) (p : Particle)
  : Particle :=
  let alpha_delta_t := if apic s then 0 else 1 in
  let a := resample_loop s p in
  let b :=
    if negb (acc_count a =? 64)%Z || negb (apic s)
    then mdiag 0 else acc_b a in
  let cdg := madd (mdiag 1) (mscale delta_t (acc_cdg a)) in
  let v' :=
    vadd (vscale (1 - alpha_delta_t) (acc_v a))
         (vscale alpha_delta_t (vadd (vsub (acc_v a) (acc_bv a)) (v p))) in
  let dg := mmul (mmul cdg (dg_e p)) (dg_p p) in
  set_dg_cache (set_dg_e (set_v (set_apic_b p b) v') (mmul cdg (dg_e p))) dg.

(** [void MPM3D::resample(float delta_t)]. *)
Definition resample (delta_t : R) (s : MPM3D) : MPM3D :=
  set_particles s (map (resample_particle delta_t s) (particles s)).

(** ** Grid passes of the base class *)

(** Modelled from the spec: [grid_backup_velocity] is in mpm3.h, not part
    of the sources at hand; the spec has it snapshot the grid velocity. *)
Definition grid_backup_velocity (s : MPM3D) : MPM3D :=
  set_grid_velocity_backup s (grid_velocity s).

(** Modelled from the spec: [grid_apply_external_force] is in mpm3.h, not
    part of the sources at hand; the spec has it apply gravity times the
    time step to the grid velocity. *)
Definition grid_apply_external_force (acc : Vector3) (delta_t : R)
  (s : MPM3D) : MPM3D :=
  set_grid_velocity s
    (fold_left
       (fun gv ind => store gv ind (vadd (gv ind) (vscale delta_t acc)))
       (get_region (res s)) (grid_velocity s)).

(** Body of the loop of [grid_apply_boundary_conditions]. *)
Definition boundary_cell (X : Externals) (t : R) (gv : Array3D Vector3)
  (ind : Index) : Array3D Vector3 :=
  let pos := index_pos ind in
  let phi := levelset_sample X pos t in
  if Rltb 1 phi then gv
  else
    let n := levelset_get_spatial_gradient X pos t in
    let boundary_velocity :=
      vscale (levelset_get_temporal_derivative X pos t) n in
    let v0 := vsub (gv ind) boundary_velocity in
    let v1 :=
      if Rltb 0 phi then
        let pressure := Rmax (- vdot v0 n) 0 in
        let mu := levelset_friction X in
        if Rltb mu 0 then vsplat 0
        else
          let t0 := vsub v0 (vmuls n (vdot v0 n)) in
          let t1 := if Rltb 0.000001 (vlength t0) then vnormalize t0 else t0 in
          let friction :=
            - clamp (vdot t1 v0) (- mu * pressure) (mu * pressure) in
          vadd (vadd v0 (vmuls n pressure)) (vmuls t1 friction)
      else if Rleb phi 0 then vsplat 0
      else v0 in
    store gv ind (vadd v1 boundary_velocity).

(** [void MPM3D::grid_apply_boundary_conditions(levelset, t)]. *)
Definition grid_apply_boundary_conditions (X : Externals) (t : R)
  (s : MPM3D) : MPM3D :=
  set_grid_velocity s
    (fold_left (boundary_cell X t) (get_region (res s)) (grid_velocity s)).

(** [void MPM3D::particle_collision_resolution(real t)]. *)
Definition particle_collision_resolution (X : Externals) (t : R)
  (s : MPM3D) : MPM3D :=
  set_particles s (map (fun p => resolve_collision X p t) (particles s)).

(** ** One step *)

(** The first four statements of the particle loop of [substep].  The
    bound [res - eps] is exact here; in binary32 it can round to [res]
    itself, so the statements about [advect] give the closed range
    [[0, res - eps]] and no strict bound. *)
Definition advect (X : Externals) (delta_t : R) (rs : Index) (p : Particle)
  : Particle :=
  let '(r0, r1, r2) := rs in
  let x := vadd (pos p) (vscale delta_t (v p)) in
  set_pos p (vec3 (clamp (vx x) 0 (IZR r0 - eps X))
                  (clamp (vy x) 0 (IZR r1 - eps X))
                  (clamp (vz x) 0 (IZR r2 - eps X))).

(** [void MPM3D::substep(float delta_t)]. *)
Definition substep (X : Externals) (delta_t : R) (s : MPM3D)
  : Result MPM3D :=
  s' <- (if negb (match particles s with [] => true | _ => false end)
         then
           let s1 := rasterize s in
           let s2 := grid_backup_velocity s1 in
           let s3 := grid_apply_external_force (gravity s2) delta_t s2 in
           s4 <- apply_deformation_force X delta_t s3 ;;
           let s5 := grid_apply_boundary_conditions X (current_t s4) s4 in
           let s6 := resample delta_t s5 in
           ps <- mapM (fun p => plasticity X (advect X delta_t (res s6) p))
                      (particles s6) ;;
           let s7 := set_particles s6 ps in
           Ok (particle_collision_resolution X (current_t s7) s7)
         else Ok s) ;;
  Ok (set_current_t s' (current_t s' + delta_t)).

(** ** Seeding *)

(** [(int)x]: the integer part, rounding towards zero. *)
Definition truncate (x : R) : Z :=
  if Rle_dec 0 x then Zfloor x else (- Zfloor (- x))%Z.

(** The random source: [rnd n] is what the [n]-th call of [rand()]
    returns.  The seeding loops thread the number of calls made so far. *)
Definition RandomSource : Type := nat -> R.

(** Body of the innermost loop of [add_particles]: one particle of cell
    [(i, j, k)].  The three calls of [rand()] for the position are taken
    from left to right.  The sums [i + rand()] are exact here; in binary32
    they can round up to [i + 1], so the statements about the position
    give closed bounds. *)
Definition seed_particle (rnd : RandomSource) (config : Config)
  (ind : Index) (n : nat) : Particle * nat :=
  let '(i, j, k) := ind in
  let p :=
    if String.eqb (get (cfg_string config "type") "ep"%string) "ep"
    then EPParticle3.initialize config EPFields.init
           (new_Particle (EP EPFields.init))
    else DPParticle3.initialize config DPFields.init
           (new_Particle (DP DPFields.init)) in
  let p := set_pos p (vec3 (IZR i + rnd n) (IZR j + rnd (S n))
                           (IZR k + rnd (S (S n)))) in
  let p := set_mass p 1 in
  let p := set_v p (get (cfg_vec3 config "initial_velocity") (v p)) in
  (p, S (S (S n))).

(** The loop [for (l = 0; l < t; l++)], with [t] iterations left. *)
Fixpoint seed_cell_loop (rnd : RandomSource) (config : Config) (ind : Index)
  (t : nat) (acc : list Particle * nat) : list Particle * nat :=
  match t with
  | O => acc
  | S t' =>
      let '(p, n) := seed_particle rnd config ind (snd acc) in
      seed_cell_loop rnd config ind t' (fst acc ++ [p], n)
  end.

(** Body of the three cell loops of [add_particles]. *)
Definition seed_cell (X : Externals) (rnd : RandomSource) (config : Config)
  (rs : Index) (density_tex : Z) (acc : list Particle * nat) (ind : Index)
  : list Particle * nat :=
  let '(i, j, k) := ind in
  let '(r0, r1, r2) := rs in
  let coord :=
    vec3 ((IZR i + 0.5) / IZR r0) ((IZR j + 0.5) / IZR r1)
         ((IZR k + 0.5) / IZR r2) in
  let num := texture_sample_x X density_tex coord in
  let draw := rnd (snd acc) in
  let t :=
    (truncate num
     + (if Rltb draw (num - IZR (truncate num)) then 1 else 0))%Z in
  seed_cell_loop rnd config ind (Z.to_nat t) (fst acc, S (snd acc)).

(** [void MPM3D::add_particles(const Config &config)]; [config.get_int]
    of a key that is absent is fatal. *)
Definition add_particles (X : Externals) (rnd : RandomSource)
  (config : Config) (s : MPM3D) : Result MPM3D :=
  match cfg_int config "density_tex" with
  | None => Fatal "density_tex"
  | Some density_tex =>
      let r :=
        fold_left (seed_cell X rnd config (res s) density_tex)
                  (get_region (res s)) (particles s, O) in
      Ok (set_particles s (fst r))
  end.

(** Sum of a list of reals, and of a list of vectors. *)
Definition Rsum (l : list R) : R := fold_right Rplus 0 l.
Definition vsum (l : list Vector3) : Vector3 := fold_right vadd (vsplat 0) l.

(** Total particle mass and total grid mass. *)
Definition total_particle_mass (s : MPM3D) : R :=
  Rsum (map mass (particles s)).
Definition total_grid_mass (s : MPM3D) : R :=
  Rsum (map (grid_mass s) (get_region (res s))).

(* ------------------------------------------------------------------ *)
(** * The statements' vocabulary

    Definitions that follow the words of the specification; the properties
    below compare them with the code. *)

(** ** The yield projection of the Drucker-Prager material *)






(** ** Interpolation from the grid *)

(** The grid velocity interpolated at a particle, over its region. *)
Definition interpolate (s : MPM3D) (field : Array3D Vector3) (p : Particle)
  : Vector3 :=
  vsum (map (fun ind => vscale (w3 (vsub (pos p) (index_pos ind))) (field ind))
            (region_of s p)).

(** What [resample] does to one particle, as the claim words it. *)
Definition resampled (s : MPM3D) (p p' : Particle) : Prop :=
  ((List.length (region_of s p) < 64)%nat \/ apic s = false ->
   apic_b p' = mdiag 0) /\
  (apic s = true -> v p' = interpolate s (grid_velocity s) p) /\
  (apic s = false ->
   v p' = vadd (v p) (vsub (interpolate s (grid_velocity s) p)
                           (interpolate s (grid_velocity_backup s) p))).

(** ** The phases of a step *)

Definition advect_all (X : Externals) (delta_t : R) (s : MPM3D) : MPM3D :=
  set_particles s (map (advect X delta_t (res s)) (particles s)).

Definition plasticity_all (X : Externals) (s : MPM3D) : Result MPM3D :=
  ps <- mapM (plasticity X) (particles s) ;; Ok (set_particles s ps).

Definition advance_clock (delta_t : R) (s : MPM3D) : MPM3D :=
  set_current_t s (current_t s + delta_t).

(** The particle is of the elastoplastic material. *)
Definition is_ep (p : Particle) : Prop :=
  match material p with EP _ => True | DP _ => False end.

(** The nine operations of a step, in the order of the spec. *)
Definition substep_phases (X : Externals) (delta_t : R)
  : list (MPM3D -> Result MPM3D) :=
  [ fun s => Ok (rasterize s);
    fun s => Ok (grid_backup_velocity s);
    fun s => Ok (grid_apply_external_force (gravity s) delta_t s);
    fun s => apply_deformation_force X delta_t s;
    fun s => Ok (grid_apply_boundary_conditions X (current_t s) s);
    fun s => Ok (resample delta_t s);
    fun s => Ok (advect_all X delta_t s);
    fun s => plasticity_all X s;
    fun s => Ok (particle_collision_resolution X (current_t s) s) ].

(** Running a list of phases from left to right, stopping at a failure. *)
Definition run_phases (phases : list (MPM3D -> Result MPM3D)) (s : MPM3D)
  : Result MPM3D :=
  fold_left (fun r phase => bind r phase) phases (Ok s).

(** ** Rasterization regions and kernel sums *)

(** The region of a particle is not clipped: all 4 x 4 x 4 cells are in the
    grid. *)
Definition fully_inside (s : MPM3D) (p : Particle) : bool :=
  (List.length (region_of s p) =? 64)%nat.

(** The sum of the kernel weights of a particle over its (clipped)
    region. *)
Definition kernel_sum (s : MPM3D) (p : Particle) : R :=
  Rsum (map (fun ind => w3 (vsub (index_pos ind) (pos p))) (region_of s p)).

(** The sum of the kernel weights along one axis, over the cells of the
    bounded region. *)
Definition axis_sum (n : Z) (x : R) : R :=
  Rsum (map (fun i => w (IZR i - x)) (bounded_axis n x)).

(** ** What a particle adds to a cell *)

(** The mass that cell [c] of the region of [p] adds to cell [ind]. *)
Definition mass_share (p : Particle) (ind c : Index) : R :=
  if Index_eqb ind c
  then w3 (vsub (index_pos c) (pos p)) * mass p
  else 0.

(** The momentum that cell [c] of the region of [p] adds to cell [ind]. *)
Definition momentum_share (p : Particle) (ind c : Index) : Vector3 :=
  if Index_eqb ind c
  then
    let d_pos := vsub (index_pos c) (pos p) in
    vscale (w3 d_pos * mass p)
           (vadd (v p) (mvmul (mscale 3 (apic_b p)) d_pos))
  else vsplat 0.

(** The mass and the momentum gathered at a cell from all particles. *)
Definition gathered_mass (rs : Index) (ps : list Particle) (ind : Index) : R :=
  Rsum (map (fun p =>
               Rsum (map (mass_share p ind)
                         (get_bounded_rasterization_region rs (pos p)))) ps).

Definition gathered_momentum (rs : Index) (ps : list Particle) (ind : Index)
  : Vector3 :=
  vsum (map (fun p =>
               vsum (map (momentum_share p ind)
                         (get_bounded_rasterization_region rs (pos p)))) ps).

(** The velocity change that cell [c] of the region of [p] adds to cell
    [ind] in the second pass of [apply_deformation_force], for cells of
    positive mass. *)
Definition force_share (delta_t : R) (gm : Array3D R) (p : Particle)
  (ind c : Index) : Vector3 :=
  if Index_eqb ind c && Rltb 0 (gm c)
  then vscale (delta_t / gm c)
              (mvmul (tmp_force p) (dw3 (vsub (pos p) (index_pos c))))
  else vsplat 0.

Definition gathered_force (delta_t : R) (s : MPM3D) (ind : Index) : Vector3 :=
  vsum (map (fun p =>
               vsum (map (force_share delta_t (grid_mass s) p ind)
                         (region_of s p))) (particles s)).

Definition unit_mass (p : Particle) : Prop := mass p = 1.

(** ** Singular value decompositions *)


(** [(u, sig, v)] reconstructs [m]. *)
Definition reconstructs (m : Matrix3) (usv : Matrix3 * Matrix3 * Matrix3)
  : Prop :=
  let '(u, sig, sv) := usv in mmul (mmul u sig) (transpose sv) = m.


(** The singular values of a decomposition lie in [[lo, hi]]. *)
Definition singular_values_within (lo hi : R)
  (usv : Matrix3 * Matrix3 * Matrix3) : Prop :=
  let '(u, sig, sv) := usv in
  lo <= m00 sig <= hi /\ lo <= m11 sig <= hi /\ lo <= m22 sig <= hi.



(* ------------------------------------------------------------------ *)
(** * The kernel in IEEE binary32

    [F32.w] is [w] with every operation rounded to binary32 (precision 24,
    round to nearest even), in the order the C++ expression evaluates. *)

Module F32.
Definition prec : Z := 24.
Definition emax : Z := 128.
Definition of_Z (z : Z) : spec_float := binary_normalize prec emax z 0 false.
Definition add : spec_float -> spec_float -> spec_float := SFadd prec emax.
Definition sub : spec_float -> spec_float -> spec_float := SFsub prec emax.
Definition mul : spec_float -> spec_float -> spec_float := SFmul prec emax.
Definition div : spec_float -> spec_float -> spec_float := SFdiv prec emax.

(** [0.5f], exact in binary32. *)
Definition half : spec_float := div (of_Z 1) (of_Z 2).

Definition w (x : spec_float) : spec_float :=
  let x := SFabs x in
  if SFltb x (of_Z 1)
  then add (sub (mul (mul (mul half x) x) x) (mul x x))
           (div (of_Z 2) (of_Z 3))
  else add (sub (add (mul (mul (mul (div (SFopp (of_Z 1)) (of_Z 6)) x) x) x)
                     (mul x x))
                (mul (of_Z 2) x))
           (div (of_Z 4) (of_Z 3)).

(** A decimal literal [a / b] of the source, correctly rounded. *)
Definition frac (a b : Z) : spec_float := div (of_Z a) (of_Z b).

(** [inline float w(const Vector3 &a)]. *)
Definition w3 (x y z : spec_float) : spec_float := mul (mul (w x) (w y)) (w z).

(** What the first loop of [rasterize] leaves in [grid_mass] at cell
    [(i, j, k)] for a single particle at [(px, py, pz)] of mass [m]:
    [0.0f + w(Vector(i, j, k) - pos) * mass]. *)
Definition cell_mass (px py pz m : spec_float) (c : Z * Z * Z)
  : spec_float :=
  let '(i, j, k) := c in
  add (of_Z 0)
      (mul (w3 (sub (of_Z i) px) (sub (of_Z j) py) (sub (of_Z k) pz)) m).

(** The exact value of a finite float, times [2^200]. *)
Definition scaled (x : spec_float) : Z :=
  match x with
  | S754_finite s m e => ((if s then -1 else 1) * Z.pos m * 2 ^ (e + 200))%Z
  | _ => 0%Z
  end.

(** The exact sum of the masses of a list of cells, times [2^200]. *)
Definition deposit (px py pz m : spec_float) (l : list (Z * Z * Z)) : Z :=
  fold_right Z.add 0%Z (map (fun c => scaled (cell_mass px py pz m c)) l).

(** The value [1e-6f] for [eps], the float nearest to [1 / 1000000] (the
    definition of [eps] is in the math utilities, not part of the sources
    at hand). *)
Definition eps : spec_float := S754_finite false 8796093 (-43).

(** The largest float below 1, [0.99999994f]. *)
Definition below_one : spec_float := S754_finite false 16777215 (-24).
End F32.

(* ------------------------------------------------------------------ *)
(** * Example inputs *)

(** Collaborators for the examples: the decomposition of a diagonal matrix
    (identity rotations and the diagonal as singular values), a boundary
    that is out of reach, a density of one particle per cell. *)
Definition example_externals : Externals :=
  {| svd := fun m =>
       (mdiag 1, mat3 (m00 m) 0 0 0 (m11 m) 0 0 0 (m22 m), mdiag 1);
     polar_decomp := fun m => (mdiag 1, m);
     eps := 0.000001;
     levelset_sample := fun _ _ => 2;
     levelset_get_spatial_gradient := fun _ _ => vec3 0 1 0;
     levelset_get_temporal_derivative := fun _ _ => 0;
     levelset_friction := -1;
     resolve_collision := fun p _ => p;
     texture_sample_x := fun _ _ => 1 |}.

(** A configuration with a density texture and nothing else. *)
Definition example_config : Config :=
  {| cfg_real := fun _ => None;
     cfg_vec3 := fun _ => None;
     cfg_string := fun _ => None;
     cfg_int := fun key => if String.eqb key "density_tex" then Some 0%Z else None |}.

(** The same with [type = "dp"] and [compression = -1]. *)
Definition negative_compression_config : Config :=
  {| cfg_real := fun key =>
       if String.eqb key "compression" then Some (-1) else None;
     cfg_vec3 := fun _ => None;
     cfg_string := fun key =>
       if String.eqb key "type" then Some "dp"%string else None;
     cfg_int := fun key => if String.eqb key "density_tex" then Some 0%Z else None |}.

(** A fresh elastoplastic particle and a fresh Drucker-Prager particle. *)
Definition example_ep_particle : Particle :=
  EPParticle3.initialize example_config EPFields.init
    (new_Particle (EP EPFields.init)).

Definition example_dp_particle : Particle :=
  DPParticle3.initialize example_config DPFields.init
    (new_Particle (DP DPFields.init)).


(** A seeded particle in the middle of a 4 x 4 x 4 grid, and one whose
    region is clipped at the upper [x] boundary: its [x] coordinate is
    exactly [res - 2], so the cell it loses is at distance 2. *)
Definition centered_particle : Particle :=
  set_mass (set_pos example_ep_particle (vec3 1.5 1.5 1.5)) 1.

Definition clipped_particle : Particle :=
  set_mass (set_pos example_ep_particle (vec3 2 1.5 1.5)) 1.

Definition empty_grid_simulation (ps : list Particle) : MPM3D :=
  mkMPM3D (4, 4, 4)%Z (vec3 0 (-9.8) 0) true ps
          (fun _ => vsplat 0) (fun _ => 0) (fun _ => vsplat 0) 0.

Definition example_simulation : MPM3D :=
  empty_grid_simulation [centered_particle].

Definition clipped_simulation : MPM3D :=
  empty_grid_simulation [clipped_particle].

(** A grid of one cell with no particles yet, and a random source that
    always draws one half. *)
Definition unit_grid_simulation : MPM3D :=
  mkMPM3D (1, 1, 1)%Z (vec3 0 (-9.8) 0) true []
          (fun _ => vsplat 0) (fun _ => 0) (fun _ => vsplat 0) 0.

Definition constant_draws : RandomSource := fun _ => 0.5.

(* ------------------------------------------------------------------ *)
(** * Further vocabulary: momentum, moments, uniform fields *)

(** What cell [c] of the region of [p] receives from [p] in [rasterize]:
    the summand of [grid_velocity[ind] += ...]. *)
Definition momentum_value (p : Particle) (c : Index) : Vector3 :=
  let d_pos := vsub (index_pos c) (pos p) in
  vscale (w3 d_pos * mass p)
         (vadd (v p) (mvmul (mscale 3 (apic_b p)) d_pos)).

(** Linear momentum held by the grid (cell mass times cell velocity, over
    all cells) and by the particles. *)
Definition total_grid_momentum (s : MPM3D) : Vector3 :=
  vsum (map (fun ind => vscale (grid_mass s ind) (grid_velocity s ind))
            (get_region (res s))).

Definition total_particle_momentum (s : MPM3D) : Vector3 :=
  vsum (map (fun p => vscale (mass p) (v p)) (particles s)).

(** Every particle has its whole 4 x 4 x 4 region inside the grid. *)
Definition all_fully_inside (s : MPM3D) : Prop :=
  Forall (fun p => fully_inside s p = true) (particles s).

(** The grid velocity is the same vector [u] on every cell of the region of
    [p]. *)
Definition uniform_on_region (s : MPM3D) (field : Array3D Vector3)
  (p : Particle) (u : Vector3) : Prop :=
  forall c, In c (region_of s p) -> field c = u.


(** A moving particle with an affine velocity term in the middle of a
    4 x 4 x 4 grid. *)
Definition moving_particle : Particle :=
  set_apic_b (set_v centered_particle (vec3 1 2 3))
             (mat3 1 0 0 0 2 0 0 1 0).

Definition moving_simulation : MPM3D :=
  empty_grid_simulation [moving_particle].


(** The moving particle under a grid that moves as a whole with velocity
    [(1, 2, 3)]. *)
Definition drifting_simulation : MPM3D :=
  mkMPM3D (4, 4, 4)%Z (vec3 0 (-9.8) 0) true [moving_particle]
          (fun _ => vec3 1 2 3) (fun _ => 1) (fun _ => vec3 1 2 3) 0.


(** ** The boundary seen from a cell *)

(** The velocity of the boundary at a cell: temporal derivative times
    normal. *)
Definition boundary_velocity_at (X : Externals) (t : R) (ind : Index)
  : Vector3 :=
  vscale (levelset_get_temporal_derivative X (index_pos ind) t)
         (levelset_get_spatial_gradient X (index_pos ind) t).

(** The grid velocity of a cell relative to the boundary. *)
Definition relative_velocity (X : Externals) (t : R) (s : MPM3D)
  (ind : Index) : Vector3 :=
  vsub (grid_velocity s ind) (boundary_velocity_at X t ind).

(** The tangential direction the friction acts along: the tangential part
    of the relative velocity, normalised when longer than 1e-6. *)
Definition tangent_direction (X : Externals) (t : R) (s : MPM3D)
  (ind : Index) : Vector3 :=
  let n := levelset_get_spatial_gradient X (index_pos ind) t in
  let v0 := relative_velocity X t s ind in
  let t0 := vsub v0 (vmuls n (vdot v0 n)) in
  if Rltb 0.000001 (vlength t0) then vnormalize t0 else t0.


(** The part of the relative velocity that is tangential to the boundary. *)
Definition tangential_part (X : Externals) (t : R) (s : MPM3D)
  (ind : Index) : Vector3 :=
  let n := levelset_get_spatial_gradient X (index_pos ind) t in
  let v0 := relative_velocity X t s ind in
  vsub v0 (vmuls n (vdot v0 n)).

(** Collaborators with a boundary that has every cell in its band: a
    floor with normal [(0, 1, 0)] at rest, friction one half. *)
Definition floor_externals : Externals :=
  {| svd := svd example_externals;
     polar_decomp := polar_decomp example_externals;
     eps := 0.000001;
     levelset_sample := fun _ _ => 0.5;
     levelset_get_spatial_gradient := fun _ _ => vec3 0 1 0;
     levelset_get_temporal_derivative := fun _ _ => 0;
     levelset_friction := 0.5;
     resolve_collision := fun p _ => p;
     texture_sample_x := fun _ _ => 1 |}.

(** A grid whose cells all move with [(3, -4, 0)], towards the floor. *)
Definition sliding_simulation : MPM3D :=
  mkMPM3D (4, 4, 4)%Z (vec3 0 (-9.8) 0) true []
          (fun _ => vec3 3 (-4) 0) (fun _ => 1) (fun _ => vsplat 0) 0.


(** ** Positions and the grid *)

(** The position lies in the cell [(i, j, k)], and in the grid. *)
Definition in_cell (ind : Index) (x : Vector3) : Prop :=
  let '(i, j, k) := ind in
  IZR i <= vx x < IZR i + 1 /\ IZR j <= vy x < IZR j + 1
  /\ IZR k <= vz x < IZR k + 1.

Definition in_domain (rs : Index) (x : Vector3) : Prop :=
  let '(r0, r1, r2) := rs in
  0 <= vx x < IZR r0 /\ 0 <= vy x < IZR r1 /\ 0 <= vz x < IZR r2.

(** The cell a position falls into. *)
Definition cell_of (x : Vector3) : Index :=
  (Zfloor (vx x), Zfloor (vy x), Zfloor (vz x)).



(** ** Rotations *)


(** A fresh elastoplastic particle whose cached total deformation is the
    identity. *)
Definition cached_ep_particle : Particle :=
  set_dg_cache example_ep_particle (mdiag 1).




(** The grid masses are the masses gathered from the particles, as
    [rasterize] leaves them. *)
Definition mass_rasterized (s : MPM3D) : Prop :=
  forall c, grid_mass s c = gathered_mass (res s) (particles s) c.


(** ** Moving as a whole *)

(** Every particle has the velocity [u] and no affine term. *)
Definition common_velocity (s : MPM3D) (u : Vector3) : Prop :=
  Forall (fun p => v p = u /\ apic_b p = mdiag 0) (particles s).

(** The state with the grid velocity and its backup replaced by the
    constant [u]. *)
Definition moving_as_a_whole (s : MPM3D) (u : Vector3) : MPM3D :=
  set_grid_velocity_backup (set_grid_velocity s (fun _ => u)) (fun _ => u).

(** Two particles flying side by side. *)
Definition flying_pair : MPM3D :=
  empty_grid_simulation
    [set_v centered_particle (vec3 1 2 3);
     set_v clipped_particle (vec3 1 2 3)].




(** ** Binary32 examples *)

(** The cells of a 4 x 4 x 4 grid in the region of a particle at
    [(2.01, 1.5, 1.5)]: the cells of the plane [i = 4] are clipped. *)
Definition clipped_cells : list Index :=
  cells [1; 2; 3]%Z [0; 1; 2; 3]%Z [0; 1; 2; 3]%Z.

(** In binary32, the mass that the first loop of [rasterize] leaves in cell
    [(5, 3, 3)] for a single particle of mass 1 at [(3.01, 3.5, 3.5)]. *)
Definition far_cell_mass : spec_float :=
  F32.cell_mass (F32.frac 301 100) (F32.frac 7 2) (F32.frac 7 2)
                (F32.of_Z 1) (5, 3, 3)%Z.


(** ** The force a cell receives, by the test of the code *)

(** The term that cell [c] of the region of [p] adds to the velocity of
    cell [ind] in the second pass of [apply_deformation_force]: the test of
    the code is [mass == 0], so every cell whose mass is not zero takes
    part, whatever the sign of its mass. *)
Definition force_share_nonzero (delta_t : R) (gm : Array3D R) (p : Particle)
  (ind c : Index) : Vector3 :=
  if Index_eqb ind c && negb (Reqb (gm c) 0)
  then vscale (delta_t / gm c)
              (mvmul (tmp_force p) (dw3 (vsub (pos p) (index_pos c))))
  else vsplat 0.

Definition gathered_force_nonzero (delta_t : R) (s : MPM3D) (ind : Index)
  : Vector3 :=
  vsum (map (fun p =>
               vsum (map (force_share_nonzero delta_t (grid_mass s) p ind)
                         (region_of s p))) (particles s)).


(** The closed box of the grid, [[0, res]] along each axis. *)
Definition in_closed_domain (rs : Index) (x : Vector3) : Prop :=
  let '(r0, r1, r2) := rs in
  0 <= vx x <= IZR r0 /\ 0 <= vy x <= IZR r1 /\ 0 <= vz x <= IZR r2.


(** ** The kernel of a vector, with its assertions *)

(** [w(const Vector3 &)] and [dw(const Vector3 &)] with the assertions of
    the calls of [w] and [dw] they make. *)
Definition w3_checked (a : Vector3) : Result R :=
  x <- w_checked (vx a) ;; y <- w_checked (vy a) ;; z <- w_checked (vz a) ;;
  Ok (x * y * z).

Definition dw3_checked (a : Vector3) : Result Vector3 :=
  dx <- dw_checked (vx a) ;; y <- w_checked (vy a) ;; z <- w_checked (vz a) ;;
  x <- w_checked (vx a) ;; dy <- dw_checked (vy a) ;;
  dz <- dw_checked (vz a) ;;
  Ok (vec3 (dx * y * z) (x * dy * z) (x * y * dz)).

(* ================================================================== *)
(** * Properties *)

(** ** Kernel *)

Lemma Rabs_le_bounds (a b : R) : Rabs a <= b -> - b <= a <= b.
Proof. unfold Rabs. destruct (Rcase_abs a); lra. Qed.

Lemma Rabs_lt_bounds (a b : R) : Rabs a < b -> - b < a < b.
Proof. unfold Rabs. destruct (Rcase_abs a); lra. Qed.

Lemma w_nonneg_arg (x : R) :
  0 <= x ->
  w x = if Rlt_dec x 1 then 0.5 * x * x * x - x * x + 2 / 3
        else -1 / 6 * x * x * x + x * x - 2 * x + 4 / 3.
Proof. intros H. unfold w. rewrite Rabs_pos_eq by exact H. reflexivity. Qed.

Lemma w_even (x : R) : w (- x) = w x.
Proof. unfold w. rewrite Rabs_Ropp. reflexivity. Qed.

Lemma dw_nonneg_arg (x : R) :
  0 <= x ->
  dw x = if Rlt_dec x 1 then 1.5 * (x * x) - 2 * x
         else -0.5 * (x * x) + 2 * x - 2.
Proof.
  intros H. unfold dw.
  destruct (Rlt_dec x 0) as [Hn | _]; [lra |].
  replace (x * 1) with x by ring.
  destruct (Rlt_dec x 1); lra.
Qed.

Lemma dw_odd (x : R) : dw (- x) = - dw x.
Proof.
  destruct (Rle_dec 0 x) as [Hx | Hx].
  - destruct (Req_dec x 0) as [-> | Hne].
    + rewrite Ropp_0, dw_nonneg_arg by lra.
      destruct (Rlt_dec 0 1); lra.
    + rewrite (dw_nonneg_arg x Hx). unfold dw.
      destruct (Rlt_dec (- x) 0) as [_ | Hc]; [| lra].
      replace (- x * -1) with x by ring.
      destruct (Rlt_dec x 1); lra.
  - rewrite (dw_nonneg_arg (- x)) by lra. unfold dw.
    destruct (Rlt_dec x 0) as [_ | Hc]; [| lra].
    replace (x * -1) with (- x) by ring.
    destruct (Rlt_dec (- x) 1); lra.
Qed.

(** The kernel is non-negative on its support. *)
Lemma w_nonneg (x : R) : Rabs x <= 2 -> 0 <= w x.
Proof.
  intros H. unfold w.
  assert (H0 := Rabs_pos x).
  set (y := Rabs x) in *.
  destruct (Rlt_dec y 1).
  - assert (y * y <= y) by nra.
    assert (0 <= (1 - y) * (1 + y - y * y)) by (apply Rmult_le_pos; lra).
    lra.
  - assert (0 <= (2 - y) * (2 - y)) by nra.
    assert (0 <= (2 - y) * ((2 - y) * (2 - y))) by (apply Rmult_le_pos; lra).
    lra.
Qed.

(** Second-order bound of the kernel around [x >= 0], piece by piece. *)
Lemma w_taylor_nonneg (x h : R) :
  0 <= x < 2 -> Rabs (x + h) <= 2 -> Rabs h < 1 ->
  Rabs (w (x + h) - w x - dw x * h) <= 6 * (h * h).
Proof.
  intros [Hx0 Hx2] Hxh Hh.
  apply Rabs_lt_bounds in Hh. apply Rabs_le_bounds in Hxh.
  assert (Hhh : 0 <= h * h) by nra.
  rewrite (w_nonneg_arg x Hx0), (dw_nonneg_arg x Hx0).
  apply Rabs_le.
  destruct (Rle_dec 0 (x + h)) as [Hp | Hn].
  - rewrite (w_nonneg_arg (x + h) Hp).
    destruct (Rlt_dec x 1) as [Hx1 | Hx1];
      destruct (Rlt_dec (x + h) 1) as [Hy1 | Hy1].
    + replace (0.5 * (x + h) * (x + h) * (x + h) - (x + h) * (x + h) + 2 / 3
               - (0.5 * x * x * x - x * x + 2 / 3)
               - (1.5 * (x * x) - 2 * x) * h)
        with (h * h * (1.5 * x + 0.5 * h - 1)) by lra.
      split; nra.
    + set (u := x + h - 1).
      replace (-1 / 6 * (x + h) * (x + h) * (x + h) + (x + h) * (x + h)
               - 2 * (x + h) + 4 / 3
               - (0.5 * x * x * x - x * x + 2 / 3)
               - (1.5 * (x * x) - 2 * x) * h)
        with (h * h * (1.5 * x + 0.5 * h - 1) - 2 / 3 * (u * u * u))
        by (unfold u; lra).
      assert (0 <= u <= h) by (unfold u; lra).
      assert (0 <= u * u <= h * h) by nra.
      assert (0 <= u * u * u <= h * h) by nra.
      split; nra.
    + set (u := 1 - (x + h)).
      replace (0.5 * (x + h) * (x + h) * (x + h) - (x + h) * (x + h) + 2 / 3
               - (-1 / 6 * x * x * x + x * x - 2 * x + 4 / 3)
               - (-0.5 * (x * x) + 2 * x - 2) * h)
        with (h * h * (1 - 0.5 * x - h / 6) - 2 / 3 * (u * u * u))
        by (unfold u; lra).
      assert (0 <= u <= - h) by (unfold u; lra).
      assert (0 <= u * u <= h * h) by nra.
      assert (0 <= u * u * u <= h * h) by nra.
      split; nra.
    + replace (-1 / 6 * (x + h) * (x + h) * (x + h) + (x + h) * (x + h)
               - 2 * (x + h) + 4 / 3
               - (-1 / 6 * x * x * x + x * x - 2 * x + 4 / 3)
               - (-0.5 * (x * x) + 2 * x - 2) * h)
        with (h * h * (1 - 0.5 * x - h / 6)) by lra.
      split; nra.
  - rewrite <- (w_even (x + h)), (w_nonneg_arg (- (x + h))) by lra.
    destruct (Rlt_dec x 1) as [Hx1 | Hx1]; [| lra].
    destruct (Rlt_dec (- (x + h)) 1) as [Hy1 | Hy1]; [| lra].
    set (g := - h).
    replace (0.5 * - (x + h) * - (x + h) * - (x + h)
             - - (x + h) * - (x + h) + 2 / 3
             - (0.5 * x * x * x - x * x + 2 / 3)
             - (1.5 * (x * x) - 2 * x) * h)
      with (- (x * x * x) + 3 * (x * x) * g - 1.5 * x * (g * g)
            + 0.5 * (g * g * g) - g * g) by (unfold g; lra).
    replace (h * h) with (g * g) by (unfold g; ring).
    assert (0 <= x <= g) by (unfold g; lra).
    assert (0 < g < 1) by (unfold g; lra).
    assert (0 <= g * g) by nra.
    assert (0 <= x * x <= g * g) by nra.
    assert (0 <= x * x * x <= g * g) by nra.
    assert (0 <= x * x * g <= g * g) by nra.
    assert (0 <= x * (g * g) <= g * g) by nra.
    assert (0 <= g * g * g <= g * g) by nra.
    split; nra.
Qed.

Lemma w_taylor (x h : R) :
  Rabs x < 2 -> Rabs (x + h) <= 2 -> Rabs h < 1 ->
  Rabs (w (x + h) - w x - dw x * h) <= 6 * (h * h).
Proof.
  intros Hx Hxh Hh.
  destruct (Rle_dec 0 x) as [Hp | Hn].
  - apply w_taylor_nonneg; auto. apply Rabs_lt_bounds in Hx. lra.
  - replace (w (x + h) - w x - dw x * h)
      with (w (- x + - h) - w (- x) - dw (- x) * - h).
    + replace (h * h) with (- h * - h) by ring.
      apply w_taylor_nonneg.
      * apply Rabs_lt_bounds in Hx. lra.
      * replace (- x + - h) with (- (x + h)) by ring.
        now rewrite Rabs_Ropp.
      * now rewrite Rabs_Ropp.
    + replace (- x + - h) with (- (x + h)) by ring.
      rewrite !w_even, dw_odd. ring.
Qed.

(** [dw] is the derivative of [w] everywhere inside the support. *)
Lemma dw_is_derivative (x : R) :
  Rabs x < 2 -> derivable_pt_lim w x (dw x).
Proof.
  intros Hx eps Heps.
  assert (Hd : 0 < Rmin (Rmin 1 (2 - Rabs x)) (eps / 7)).
  { repeat apply Rmin_glb_lt; lra. }
  exists (mkposreal _ Hd). simpl. intros h Hh0 Hh.
  assert (H1 : Rabs h < 1).
  { eapply Rlt_le_trans; [exact Hh |].
    eapply Rle_trans; [apply Rmin_l | apply Rmin_l]. }
  assert (H2 : Rabs h < 2 - Rabs x).
  { eapply Rlt_le_trans; [exact Hh |].
    eapply Rle_trans; [apply Rmin_l | apply Rmin_r]. }
  assert (H3 : Rabs h < eps / 7).
  { eapply Rlt_le_trans; [exact Hh | apply Rmin_r]. }
  assert (Hxh : Rabs (x + h) <= 2).
  { eapply Rle_trans; [apply Rabs_triang | lra]. }
  assert (Ht := w_taylor x h Hx Hxh H1).
  assert (Hhp : 0 < Rabs h) by (apply Rabs_pos_lt; exact Hh0).
  replace ((w (x + h) - w x) / h - dw x)
    with ((w (x + h) - w x - dw x * h) / h) by (field; exact Hh0).
  unfold Rdiv. rewrite Rabs_mult, Rabs_inv.
  apply Rmult_lt_reg_r with (Rabs h); [exact Hhp |].
  rewrite Rmult_assoc, Rinv_l, Rmult_1_r by lra.
  assert (Hsq : h * h = Rabs h * Rabs h).
  { unfold Rabs. destruct (Rcase_abs h); ring. }
  rewrite Hsq in Ht. nra.
Qed.

(** C9, as stated, fails at the edge of the support: in binary32, in the
    order of the source expression, [w(2.0f)] and [w(-2.0f)] are negative,
    not zero. *)
Lemma F32_w_not_zero_at_two :
  SFeqb (F32.w (F32.of_Z 2)) (F32.of_Z 0) = false
  /\ SFeqb (F32.w (SFopp (F32.of_Z 2))) (F32.of_Z 0) = false
  /\ SFltb (F32.w (F32.of_Z 2)) (F32.of_Z 0) = true
  /\ SFltb (F32.w (SFopp (F32.of_Z 2))) (F32.of_Z 0) = true.
Proof. repeat split; vm_compute; reflexivity. Qed.

(** C9, amended. For every [x] with [|x| <= 2] the assertion of [w] and
    [dw] holds, [w x = w (-x)], [w 0 = 2/3],
    [dw x = 1.5 x^2 - 2 x] for [0 <= x < 1] and
    [dw x = -0.5 x^2 + 2 x - 2] for [1 <= x <= 2], [dw] is odd, and [dw] is
    the derivative of [w] at every point inside the support, so on each
    polynomial piece.  As the code computes it, in binary32: [w] is even on
    every float, [w(0.0f)] is the rounded [2.0f / 3.0f], and [w(2.0f)] and
    [w(-2.0f)] are [-2^-23]. *)
Theorem kernel_values_and_derivative :
  (forall x, Rabs x <= 2 ->
             w_checked x = Ok (w x) /\ dw_checked x = Ok (dw x)) /\
  (forall x, Rabs x <= 2 -> w x = w (- x)) /\
  w 0 = 2 / 3 /\
  (forall x, 0 <= x < 1 -> dw x = 1.5 * (x * x) - 2 * x) /\
  (forall x, 1 <= x <= 2 -> dw x = -0.5 * (x * x) + 2 * x - 2) /\
  (forall x, Rabs x <= 2 -> dw (- x) = - dw x) /\
  (forall x, Rabs x < 2 -> derivable_pt_lim w x (dw x)) /\
  (forall x : spec_float, F32.w (SFopp x) = F32.w x) /\
  F32.w (F32.of_Z 0) = F32.div (F32.of_Z 2) (F32.of_Z 3) /\
  F32.w (F32.of_Z 2) = S754_finite true 8388608 (-46) /\
  F32.w (SFopp (F32.of_Z 2)) = S754_finite true 8388608 (-46).
Proof.
  split; [| split; [| split; [| split; [| split; [| split; [| split]]]]]].
  - intros x Hx. unfold w_checked, dw_checked, kernel_assert.
    destruct (Rle_dec (Rabs x) 2); [split; reflexivity | contradiction].
  - intros x _. symmetry. apply w_even.
  - rewrite w_nonneg_arg by lra. destruct (Rlt_dec 0 1); lra.
  - intros x [H0 H1]. rewrite dw_nonneg_arg by exact H0.
    destruct (Rlt_dec x 1); lra.
  - intros x [H1 H2]. rewrite dw_nonneg_arg by lra.
    destruct (Rlt_dec x 1); lra.
  - intros x _. apply dw_odd.
  - intros x Hx. apply dw_is_derivative. exact Hx.
  - split; [intros x; destruct x; reflexivity |].
    repeat split; vm_compute; reflexivity.
Qed.

(** ** Branch conditions *)

Lemma Rltb_true (a b : R) : Rltb a b = true <-> a < b.
Proof. unfold Rltb. destruct (Rlt_dec a b); split; intros; auto; discriminate. Qed.

Lemma Rltb_false (a b : R) : Rltb a b = false <-> b <= a.
Proof.
  unfold Rltb. destruct (Rlt_dec a b); split; intros; auto; try discriminate; lra.
Qed.

Lemma Rleb_true (a b : R) : Rleb a b = true <-> a <= b.
Proof. unfold Rleb. destruct (Rle_dec a b); split; intros; auto; discriminate. Qed.


Lemma Reqb_true (a b : R) : Reqb a b = true <-> a = b.
Proof. unfold Reqb. destruct (Req_dec_T a b); split; intros; auto; discriminate. Qed.

Lemma Reqb_false (a b : R) : Reqb a b = false <-> a <> b.
Proof.
  unfold Reqb. destruct (Req_dec_T a b); split; intros; auto; try discriminate.
  contradiction.
Qed.

Lemma clamp_inside (a lo hi : R) : lo <= a <= hi -> clamp a lo hi = a.
Proof.
  intros [H1 H2]. unfold clamp.
  destruct (Rlt_dec a lo); [lra |]. destruct (Rlt_dec hi a); [lra |]. reflexivity.
Qed.


(** ** The yield projection *)





(** ** Vector and matrix algebra *)

Ltac vec_eq :=
  repeat match goal with v : Vector3 |- _ => destruct v end;
  unfold vadd, vsub, vscale, vmuls, vneg, vsplat; simpl; f_equal; lra.

Ltac mat_eq :=
  repeat match goal with m : Matrix3 |- _ => destruct m end;
  unfold mmul, madd, msub, mscale, transpose, mdiag; simpl; f_equal; ring.

Lemma vadd_comm (a b : Vector3) : vadd a b = vadd b a.
Proof. vec_eq. Qed.

Lemma vadd_assoc (a b c : Vector3) : vadd a (vadd b c) = vadd (vadd a b) c.
Proof. vec_eq. Qed.

Lemma vadd_0_l (a : Vector3) : vadd (vsplat 0) a = a.
Proof. vec_eq. Qed.

Lemma vadd_0_r (a : Vector3) : vadd a (vsplat 0) = a.
Proof. vec_eq. Qed.

Lemma vscale_0 (a : Vector3) : vscale 0 a = vsplat 0.
Proof. vec_eq. Qed.

Lemma vscale_0_r (s : R) : vscale s (vsplat 0) = vsplat 0.
Proof. unfold vscale, vsplat. simpl. f_equal; ring. Qed.

Lemma vmuls_0_l (s : R) : vmuls (vsplat 0) s = vsplat 0.
Proof. unfold vmuls, vsplat. simpl. f_equal; ring. Qed.

Lemma mmul_1_l (a : Matrix3) : mmul (mdiag 1) a = a.
Proof. mat_eq. Qed.


Lemma transpose_1 : transpose (mdiag 1) = mdiag 1.
Proof. reflexivity. Qed.



Lemma det_mdiag (s : R) : det (mdiag s) = s * s * s.
Proof. unfold det, mdiag. simpl. ring. Qed.


(** ** Sums *)

Lemma Rsum_app (l1 l2 : list R) : Rsum (l1 ++ l2) = Rsum l1 + Rsum l2.
Proof. induction l1; simpl; [ring | rewrite IHl1; ring]. Qed.

Lemma vsum_app (l1 l2 : list Vector3) :
  vsum (l1 ++ l2) = vadd (vsum l1) (vsum l2).
Proof.
  induction l1; simpl.
  - now rewrite vadd_0_l.
  - rewrite IHl1. apply vadd_assoc.
Qed.

(** ** Grid to particle *)

Section ResampleLoop.
Variables (s : MPM3D) (p : Particle).

Lemma resample_fold_v (l : list Index) (a : ResampleAcc) :
  acc_v (fold_left (resample_cell s p) l a)
  = vadd (acc_v a)
      (vsum (map (fun ind => vscale (w3 (vsub (pos p) (index_pos ind)))
                                    (grid_velocity s ind)) l)).
Proof.
  revert a. induction l as [| c l IH]; intros a; simpl.
  - now rewrite vadd_0_r.
  - rewrite IH. simpl. now rewrite vadd_assoc.
Qed.

Lemma resample_fold_bv (l : list Index) (a : ResampleAcc) :
  acc_bv (fold_left (resample_cell s p) l a)
  = vadd (acc_bv a)
      (vsum (map (fun ind => vscale (w3 (vsub (pos p) (index_pos ind)))
                                    (grid_velocity_backup s ind)) l)).
Proof.
  revert a. induction l as [| c l IH]; intros a; simpl.
  - now rewrite vadd_0_r.
  - rewrite IH. simpl. now rewrite vadd_assoc.
Qed.

Lemma resample_fold_count (l : list Index) (a : ResampleAcc) :
  acc_count (fold_left (resample_cell s p) l a)
  = (acc_count a + Z.of_nat (List.length l))%Z.
Proof.
  revert a. induction l as [| c l IH]; intros a.
  - simpl. lia.
  - cbn [fold_left]. rewrite IH. cbn [resample_cell acc_count List.length]. lia.
Qed.

Lemma resample_loop_v :
  acc_v (resample_loop s p) = interpolate s (grid_velocity s) p.
Proof.
  unfold resample_loop, interpolate. rewrite resample_fold_v. simpl.
  now rewrite vadd_0_l.
Qed.

Lemma resample_loop_bv :
  acc_bv (resample_loop s p) = interpolate s (grid_velocity_backup s) p.
Proof.
  unfold resample_loop, interpolate. rewrite resample_fold_bv. simpl.
  now rewrite vadd_0_l.
Qed.

Lemma resample_loop_count :
  acc_count (resample_loop s p) = Z.of_nat (List.length (region_of s p)).
Proof. unfold resample_loop. rewrite resample_fold_count. simpl. lia. Qed.

End ResampleLoop.

Lemma resample_particle_resampled (delta_t : R) (s : MPM3D) (p : Particle) :
  resampled s p (resample_particle delta_t s p).
Proof.
  unfold resampled, resample_particle. simpl.
  rewrite resample_loop_v, resample_loop_bv, resample_loop_count.
  repeat split.
  - intros [Hlt | Hoff].
    + assert (E : (Z.of_nat (List.length (region_of s p)) =? 64)%Z = false)
        by (apply Z.eqb_neq; lia).
      rewrite E. reflexivity.
    + rewrite Hoff, orb_true_r. reflexivity.
  - intros Hon. rewrite Hon.
    generalize (interpolate s (grid_velocity s) p)
               (interpolate s (grid_velocity_backup s) p) (v p).
    intros a b c. vec_eq.
  - intros Hoff. rewrite Hoff.
    generalize (interpolate s (grid_velocity s) p)
               (interpolate s (grid_velocity_backup s) p) (v p).
    intros a b c. vec_eq.
Qed.

(** C3. In [resample], every particle gets [apic_b] zero when its region
    has fewer than 64 cells or APIC is off; its new velocity is the
    grid-interpolated velocity when APIC is on, and its old velocity plus
    the interpolated velocity minus the interpolated backed-up velocity when
    APIC is off. *)
Theorem resample_apic_and_velocity (delta_t : R) (s : MPM3D) :
  Forall2 (resampled s) (particles s) (particles (resample delta_t s)).
Proof.
  unfold resample. simpl.
  induction (particles s) as [| p ps IH]; simpl; constructor.
  - apply resample_particle_resampled.
  - exact IH.
Qed.

(** ** One step *)

Lemma mapM_map {A B C : Type} (f : B -> Result C) (g : A -> B) (l : list A) :
  mapM f (map g l) = mapM (fun a => f (g a)) l.
Proof.
  induction l as [| a l IH]; simpl; [reflexivity |].
  destruct (f (g a)); simpl; [| reflexivity].
  rewrite IH. reflexivity.
Qed.

Lemma apply_deformation_force_clock (X : Externals) (delta_t : R)
  (s s' : MPM3D) :
  apply_deformation_force X delta_t s = Ok s' -> current_t s' = current_t s.
Proof.
  unfold apply_deformation_force, apply_deformation_force_with.
  destruct (mapM (calculate_force X) (particles s)); simpl; [| discriminate].
  intros H. injection H as <-. reflexivity.
Qed.

(** The step on a simulation with particles is the nine phases in order,
    then the clock. *)
Lemma substep_nonempty (X : Externals) (delta_t : R) (s : MPM3D) :
  particles s <> [] ->
  substep X delta_t s
  = (s' <- run_phases (substep_phases X delta_t) s ;;
     Ok (advance_clock delta_t s')).
Proof.
  intros Hne. unfold substep.
  destruct (particles s) as [| p0 ps] eqn:Eps; [contradiction |].
  cbn [negb]. unfold run_phases, substep_phases. cbn [fold_left bind].
  destruct (apply_deformation_force X delta_t _) as [s4 | msg];
    cbn [bind]; [| reflexivity].
  unfold plasticity_all, advect_all.
  cbn [particles set_particles res].
  rewrite mapM_map.
  destruct (mapM _ _) as [ps' | msg]; cbn [bind]; reflexivity.
Qed.

Lemma substep_empty (X : Externals) (delta_t : R) (s : MPM3D) :
  particles s = [] -> substep X delta_t s = Ok (advance_clock delta_t s).
Proof. intros He. unfold substep. rewrite He. reflexivity. Qed.

Lemma substep_clock (X : Externals) (delta_t : R) (s s' : MPM3D) :
  substep X delta_t s = Ok s' -> current_t s' = current_t s + delta_t.
Proof.
  unfold substep.
  destruct (particles s) as [| p0 ps] eqn:Eps; cbn [negb bind].
  - intros H. injection H as <-. reflexivity.
  - destruct (apply_deformation_force X delta_t _) as [s4 | msg] eqn:E4;
      cbn [bind]; [| discriminate].
    apply apply_deformation_force_clock in E4. simpl in E4.
    destruct (mapM _ _) as [ps' | msg]; cbn [bind]; [| discriminate].
    intros H. injection H as <-. simpl. rewrite E4. reflexivity.
Qed.

Lemma mapM_total {A B : Type} (f : A -> Result B) (P : A -> Prop)
  (Q : B -> Prop) (l : list A) :
  (forall a, P a -> exists b, f a = Ok b /\ Q b) ->
  Forall P l ->
  exists l', mapM f l = Ok l' /\ Forall Q l'.
Proof.
  intros Hf. induction 1 as [| a l Ha _ IH]; simpl.
  - exists []. split; [reflexivity | constructor].
  - destruct (Hf a Ha) as [b [Eb Qb]]. destruct IH as [l' [El Ql]].
    rewrite Eb, El. simpl. exists (b :: l'). split; [reflexivity |].
    constructor; assumption.
Qed.

Lemma calculate_force_ep (X : Externals) (p : Particle) :
  is_ep p -> exists p', calculate_force X p = Ok p' /\ is_ep p'.
Proof.
  unfold is_ep, calculate_force. destruct (material p) as [e | d] eqn:E;
    [| contradiction].
  intros _. eexists. split; [reflexivity |].
  unfold EPParticle3.calculate_force. cbn [material set_tmp_force].
  now rewrite E.
Qed.

Lemma plasticity_ep (X : Externals) (p : Particle) :
  is_ep p -> exists p', plasticity X p = Ok p' /\ True.
Proof.
  unfold is_ep, plasticity. destruct (material p) as [e | d];
    [| contradiction].
  intros _. eexists. split; [reflexivity | exact I].
Qed.

Lemma advect_material (X : Externals) (delta_t : R) (rs : Index)
  (p : Particle) : material (advect X delta_t rs p) = material p.
Proof. destruct rs as [[r0 r1] r2]. reflexivity. Qed.

(** A step over elastoplastic particles only always completes. *)
Lemma substep_ep_total (X : Externals) (delta_t : R) (s : MPM3D) :
  Forall is_ep (particles s) -> exists s', substep X delta_t s = Ok s'.
Proof.
  intros Hep. unfold substep.
  destruct (particles s) as [| p0 ps] eqn:Eps; cbn [negb bind].
  - eexists. reflexivity.
  - unfold apply_deformation_force, apply_deformation_force_with.
    cbn [particles grid_apply_external_force grid_backup_velocity
         set_grid_velocity set_grid_velocity_backup].
    assert (Hps : particles (rasterize s) = p0 :: ps) by exact Eps.
    rewrite Hps.
    destruct (mapM_total (calculate_force X) is_ep is_ep (p0 :: ps)
                (calculate_force_ep X) Hep) as [ps4 [E4 H4]].
    rewrite E4. cbn [bind].
    match goal with
    | |- context [mapM ?f ?l] =>
        destruct (mapM_total f is_ep (fun _ => True) l) as [ps7 [E7 _]]
    end.
    + intros p Hp. apply plasticity_ep. unfold is_ep.
      rewrite advect_material. exact Hp.
    + cbn [particles resample set_particles grid_apply_boundary_conditions
           accumulate_force_with set_grid_velocity].
      apply Forall_forall. intros p Hp. apply in_map_iff in Hp.
      destruct Hp as [p1 [<- Hp1]].
      rewrite Forall_forall in H4. exact (H4 p1 Hp1).
    + rewrite E7. cbn [bind]. eexists. reflexivity.
Qed.

(** One step of the example: it completes and the clock reads [delta_t]. *)
Lemma substep_example :
  exists s',
    substep example_externals 0.001 example_simulation = Ok s'
    /\ current_t s' = 0.001.
Proof.
  destruct (substep_ep_total example_externals 0.001 example_simulation)
    as [s' Hs'].
  - repeat constructor.
  - exists s'. split; [exact Hs' |].
    rewrite (substep_clock _ _ _ _ Hs'). simpl. lra.
Qed.

(** C1. A step runs rasterize, backup of the grid velocity, gravity,
    [apply_deformation_force], grid boundary conditions, resample, position
    advection with clamping, plasticity and particle collision resolution
    in this order, and then advances the clock by [delta_t]; without
    particles nothing but the clock changes; in both cases a step that
    completes leaves the clock at [current_t + delta_t], and a step over
    elastoplastic particles only always completes (the two fatal conditions
    belong to the Drucker-Prager material). *)
Theorem substep_order_and_clock (X : Externals) (delta_t : R) (s : MPM3D) :
  (particles s <> [] ->
   substep X delta_t s
   = (s' <- run_phases (substep_phases X delta_t) s ;;
      Ok (advance_clock delta_t s'))) /\
  (particles s = [] ->
   substep X delta_t s
   = Ok (mkMPM3D (res s) (gravity s) (apic s) (particles s) (grid_velocity s)
                 (grid_mass s) (grid_velocity_backup s)
                 (current_t s + delta_t))) /\
  (forall s', substep X delta_t s = Ok s' ->
              current_t s' = current_t s + delta_t) /\
  (Forall is_ep (particles s) -> exists s', substep X delta_t s = Ok s').
Proof.
  split; [| split; [| split]].
  - apply substep_nonempty.
  - intros He. rewrite (substep_empty X delta_t s He). reflexivity.
  - intros s'. apply substep_clock.
  - apply substep_ep_total.
Qed.

(** ** Seeding *)

Lemma seed_particle_mass (rnd : RandomSource) (config : Config) (ind : Index)
  (n : nat) : unit_mass (fst (seed_particle rnd config ind n)).
Proof. unfold seed_particle. destruct ind as [[i j] k]. reflexivity. Qed.

Lemma seed_cell_loop_appends (rnd : RandomSource) (config : Config)
  (ind : Index) (t : nat) (acc : list Particle * nat) :
  exists created,
    fst (seed_cell_loop rnd config ind t acc) = fst acc ++ created
    /\ Forall unit_mass created.
Proof.
  revert acc. induction t as [| t IH]; intros acc; simpl.
  - exists []. split; [now rewrite app_nil_r | constructor].
  - pose proof (seed_particle_mass rnd config ind (snd acc)) as Hm.
    destruct (seed_particle rnd config ind (snd acc)) as [p n].
    destruct (IH (fst acc ++ [p], n)) as [created [E F]].
    exists (p :: created). split.
    + rewrite E. simpl. now rewrite <- app_assoc.
    + constructor; assumption.
Qed.

Lemma seed_cell_appends (X : Externals) (rnd : RandomSource) (config : Config)
  (rs : Index) (tex : Z) (acc : list Particle * nat) (ind : Index) :
  exists created,
    fst (seed_cell X rnd config rs tex acc ind) = fst acc ++ created
    /\ Forall unit_mass created.
Proof.
  unfold seed_cell. destruct ind as [[i j] k]. destruct rs as [[r0 r1] r2].
  apply (seed_cell_loop_appends rnd config (i, j, k) _ (fst acc, S (snd acc))).
Qed.

Lemma seed_cells_append (X : Externals) (rnd : RandomSource) (config : Config)
  (rs : Index) (tex : Z) (l : list Index) (acc : list Particle * nat) :
  exists created,
    fst (fold_left (seed_cell X rnd config rs tex) l acc) = fst acc ++ created
    /\ Forall unit_mass created.
Proof.
  revert acc. induction l as [| c l IH]; intros acc; simpl.
  - exists []. split; [now rewrite app_nil_r | constructor].
  - destruct (seed_cell_appends X rnd config rs tex acc c) as [c1 [E1 F1]].
    destruct (IH (seed_cell X rnd config rs tex acc c)) as [c2 [E2 F2]].
    exists (c1 ++ c2). split.
    + rewrite E2, E1. now rewrite <- app_assoc.
    + apply Forall_app. split; assumption.
Qed.

Lemma unit_mass_total (ps : list Particle) :
  Forall unit_mass ps -> Rsum (map mass ps) = INR (List.length ps).
Proof.
  induction 1 as [| p ps Hp _ IH].
  - reflexivity.
  - cbn [map Rsum fold_right List.length]. fold (Rsum (map mass ps)).
    rewrite IH, S_INR, Hp. ring.
Qed.

(** C10. Every particle [add_particles] creates has mass 1, whatever the
    configuration and the material it selects; so when the particles present
    before have mass 1 (none, in particular), the total particle mass is the
    number of particles.  [add_particles] fails only when the configuration
    has no density texture. *)
Theorem add_particles_unit_mass (X : Externals) (rnd : RandomSource)
  (config : Config) (s : MPM3D) :
  match add_particles X rnd config s with
  | Ok s' =>
      exists created,
        particles s' = particles s ++ created
        /\ Forall (fun p => mass p = 1) created
        /\ (Forall (fun p => mass p = 1) (particles s) ->
            total_particle_mass s' = INR (List.length (particles s')))
  | Fatal _ => cfg_int config "density_tex" = None
  end.
Proof.
  unfold add_particles.
  destruct (cfg_int config "density_tex") as [tex |]; [| reflexivity].
  destruct (seed_cells_append X rnd config (res s) tex (get_region (res s))
              (particles s, O)) as [created [E F]].
  exists created. cbn [particles set_particles]. simpl in E.
  split; [exact E |]. split; [exact F |].
  intros Hs. unfold total_particle_mass. cbn [particles set_particles].
  rewrite E. apply unit_mass_total. apply Forall_app. split; assumption.
Qed.

(** ** Fatal failures of the Drucker-Prager material *)

Lemma mapM_fatal {A B : Type} (f : A -> Result B) (l : list A) (a : A) :
  In a l -> is_fatal (f a) -> is_fatal (mapM f l).
Proof.
  induction l as [| x l IH]; intros Hin Hf; [contradiction |].
  simpl. destruct Hin as [-> | Hin].
  - destruct (f a); [contradiction | exact I].
  - destruct (f x); simpl; [| exact I].
    specialize (IH Hin Hf). destruct (mapM f l); [contradiction | exact I].
Qed.

Lemma bind_fatal {A B : Type} (r : Result A) (k : A -> Result B) :
  is_fatal r -> is_fatal (bind r k).
Proof. destruct r; [contradiction | intros _; exact I]. Qed.

Lemma dp_calculate_force_traps (X : Externals) (d : DPFields.t) (p : Particle) :
  let sig := snd (fst (svd X (dg_e p))) in
  m00 sig <= 0 \/ m11 sig <= 0 \/ m22 sig <= 0 ->
  DPParticle3.calculate_force X d p = Fatal "negative singular value".
Proof.
  unfold DPParticle3.calculate_force.
  destruct (svd X (dg_e p)) as [[u sig] sv]. simpl.
  intros H. unfold assert_info.
  destruct (Rltb 0 (m00 sig)) eqn:E0; [| reflexivity].
  destruct (Rltb 0 (m11 sig)) eqn:E1; [| reflexivity].
  destruct (Rltb 0 (m22 sig)) eqn:E2; [| reflexivity].
  apply Rltb_true in E0, E1, E2. lra.
Qed.

Lemma dp_plasticity_traps (X : Externals) (d : DPFields.t) (p : Particle) :
  let u := fst (fst (svd X (dg_e p))) in
  let sig := snd (fst (svd X (dg_e p))) in
  let sv := snd (svd X (dg_e p)) in
  0.0001 <= frobenius_norm (msub (mmul (mmul u sig) (transpose sv)) (dg_e p)) ->
  DPParticle3.plasticity X d p = Fatal "SVD error".
Proof.
  unfold DPParticle3.plasticity.
  destruct (svd X (dg_e p)) as [[u sig] sv]. simpl.
  destruct (DPParticle3.project d sig (DPFields.alpha d)) as [t delta_q].
  intros H. apply Rltb_false in H. rewrite H. reflexivity.
Qed.

(** C8. For the Drucker-Prager material, [calculate_force] is fatal whenever
    the decomposition of [dg_e] has a singular value that is not positive,
    and [plasticity] is fatal whenever the reconstruction [u * sig * v^T]
    differs from [dg_e] by a Frobenius norm of at least 1e-4.  Neither is
    recovered from: the pass over the particles and the step that contain
    such a particle are fatal too. *)
Theorem dp_fatal_conditions (X : Externals) (d : DPFields.t) (p : Particle) :
  let u := fst (fst (svd X (dg_e p))) in
  let sig := snd (fst (svd X (dg_e p))) in
  let sv := snd (svd X (dg_e p)) in
  let nonpositive := m00 sig <= 0 \/ m11 sig <= 0 \/ m22 sig <= 0 in
  let mismatch :=
    0.0001 <= frobenius_norm (msub (mmul (mmul u sig) (transpose sv)) (dg_e p)) in
  (nonpositive ->
   DPParticle3.calculate_force X d p = Fatal "negative singular value") /\
  (mismatch -> DPParticle3.plasticity X d p = Fatal "SVD error") /\
  (forall delta_t s,
      material p = DP d -> In p (particles s) -> nonpositive ->
      is_fatal (apply_deformation_force X delta_t s)
      /\ is_fatal (substep X delta_t s)) /\
  (forall s,
      material p = DP d -> In p (particles s) -> mismatch ->
      is_fatal (plasticity_all X s)).
Proof.
  intros u sig sv nonpositive mismatch.
  split; [apply dp_calculate_force_traps |].
  split; [apply dp_plasticity_traps |].
  split.
  - intros delta_t s Hm Hin Hnp.
    assert (Hp : is_fatal (calculate_force X p)).
    { unfold calculate_force. rewrite Hm.
      rewrite (dp_calculate_force_traps X d p Hnp). exact I. }
    assert (Hall : forall s0, particles s0 = particles s ->
                     is_fatal (apply_deformation_force X delta_t s0)).
    { intros s0 E. unfold apply_deformation_force, apply_deformation_force_with.
      apply bind_fatal. rewrite E. apply (mapM_fatal _ _ p Hin Hp). }
    split; [apply Hall; reflexivity |].
    unfold substep. destruct (particles s) as [| p0 ps] eqn:Eps; [contradiction |].
    cbn [negb]. apply bind_fatal. apply bind_fatal. apply Hall.
    simpl. exact Eps.
  - intros s Hm Hin Hmm. unfold plasticity_all. apply bind_fatal.
    apply (mapM_fatal _ _ p Hin). unfold plasticity. rewrite Hm.
    rewrite (dp_plasticity_traps X d p Hmm). exact I.
Qed.

(** Both outcomes occur: with [dg_e] zero the force computation is fatal,
    with [dg_e] the identity it returns. *)
Lemma dp_calculate_force_examples :
  DPParticle3.calculate_force example_externals DPFields.init
    (set_dg_e example_dp_particle (mdiag 0))
  = Fatal "negative singular value"
  /\ exists p',
       DPParticle3.calculate_force example_externals DPFields.init
         example_dp_particle = Ok p'.
Proof.
  split.
  - apply dp_calculate_force_traps. simpl. lra.
  - unfold DPParticle3.calculate_force.
    cbn [svd example_externals dg_e example_dp_particle
         DPParticle3.initialize new_Particle set_dg_p set_material
         m00 m11 m22 mdiag].
    assert (H : Rltb 0 1 = true) by (apply Rltb_true; lra).
    unfold assert_info. rewrite H. cbn [bind]. eexists. reflexivity.
Qed.

(** ** Plasticity of the elastoplastic material *)

Lemma clamp_diagonal_inside (sig : Matrix3) (lo hi : R) :
  lo <= m00 sig <= hi -> lo <= m11 sig <= hi -> lo <= m22 sig <= hi ->
  clamp_diagonal sig lo hi = sig.
Proof.
  intros H0 H1 H2. unfold clamp_diagonal.
  rewrite !clamp_inside by assumption. destruct sig; reflexivity.
Qed.

Lemma ep_plasticity_dg_e (X : Externals) (e : EPFields.t) (p : Particle) :
  dg_e (EPParticle3.plasticity X e p)
  = let '(u, sig, sv) := svd X (dg_e p) in
    mmul (mmul u (clamp_diagonal sig (1 - EPFields.theta_c e)
                                     (1 + EPFields.theta_s e)))
         (transpose sv).
Proof.
  unfold EPParticle3.plasticity.
  destruct (svd X (dg_e p)) as [[u sig] sv].
  destruct (svd X _) as [[u' sig'] sv']. reflexivity.
Qed.

(** C4. For the elastoplastic material: when the decomposition of [dg_e]
    reconstructs [dg_e] and its singular values lie in
    [[1 - theta_c, 1 + theta_s]], [plasticity] leaves [dg_e] unchanged. *)
Theorem ep_plasticity_idempotent (X : Externals) (e : EPFields.t)
  (p : Particle) :
  reconstructs (dg_e p) (svd X (dg_e p)) ->
  singular_values_within (1 - EPFields.theta_c e) (1 + EPFields.theta_s e)
                         (svd X (dg_e p)) ->
  dg_e (EPParticle3.plasticity X e p) = dg_e p
  /\ (material p = EP e ->
      exists p', plasticity X p = Ok p' /\ dg_e p' = dg_e p).
Proof.
  intros Hrec Hin.
  assert (E : dg_e (EPParticle3.plasticity X e p) = dg_e p).
  { rewrite ep_plasticity_dg_e. unfold reconstructs, singular_values_within in *.
    destruct (svd X (dg_e p)) as [[u sig] sv].
    destruct Hin as [H0 [H1 H2]].
    rewrite clamp_diagonal_inside by assumption. exact Hrec. }
  split; [exact E |].
  intros Hm. exists (EPParticle3.plasticity X e p).
  unfold plasticity. rewrite Hm. split; [reflexivity | exact E].
Qed.

(** The theorem at a fresh elastoplastic particle, [dg_e] the identity. *)
Lemma ep_plasticity_idempotent_example :
  dg_e (EPParticle3.plasticity example_externals EPFields.init
          example_ep_particle)
  = dg_e example_ep_particle
  /\ (material example_ep_particle = EP EPFields.init ->
      exists p', plasticity example_externals example_ep_particle = Ok p'
                 /\ dg_e p' = dg_e example_ep_particle).
Proof.
  apply (ep_plasticity_idempotent example_externals EPFields.init
           example_ep_particle).
  - unfold reconstructs. simpl. unfold mmul, transpose, mdiag. simpl.
    f_equal; ring.
  - unfold singular_values_within. simpl. lra.
Defined.

(** ** Determinants after plasticity *)









Lemma inverse_identity : inverse (mdiag 1) = mdiag 1.
Proof. unfold inverse, det, mdiag. simpl. f_equal; lra. Qed.






(** ** Cells and regions *)

Lemma Index_eqb_eq (a b : Index) : Index_eqb a b = true <-> a = b.
Proof.
  destruct a as [[i j] k], b as [[i' j'] k']. unfold Index_eqb.
  rewrite !andb_true_iff, !Z.eqb_eq. split.
  - intros [[-> ->] ->]. reflexivity.
  - intros H. injection H as -> -> ->. auto.
Qed.

Lemma Index_eqb_refl (a : Index) : Index_eqb a a = true.
Proof. apply Index_eqb_eq. reflexivity. Qed.

Lemma Index_eqb_neq (a b : Index) : Index_eqb a b = false <-> a <> b.
Proof.
  split.
  - intros H E. apply Index_eqb_eq in E. congruence.
  - intros H. destruct (Index_eqb a b) eqn:E; [| reflexivity].
    apply Index_eqb_eq in E. contradiction.
Qed.

Lemma store_same {T : Type} (a : Array3D T) (ind : Index) (x : T) :
  store a ind x ind = x.
Proof. unfold store. now rewrite Index_eqb_refl. Qed.

Lemma store_other {T : Type} (a : Array3D T) (ind j : Index) (x : T) :
  j <> ind -> store a ind x j = a j.
Proof. intros H. unfold store. apply Index_eqb_neq in H. now rewrite H. Qed.

Lemma NoDup_map_injective {A B : Type} (f : A -> B) (l : list A) :
  (forall a b, f a = f b -> a = b) -> NoDup l -> NoDup (map f l).
Proof.
  intros Hf. induction 1 as [| x l Hx _ IH]; simpl; constructor; [| exact IH].
  rewrite in_map_iff. intros [y [E Hy]]. apply Hf in E. now subst.
Qed.

Lemma in_interval (lo hi i : Z) : In i (interval lo hi) <-> (lo <= i < hi)%Z.
Proof.
  unfold interval. rewrite in_map_iff. split.
  - intros [n [<- Hn]]. apply in_seq in Hn. lia.
  - intros H. exists (Z.to_nat (i - lo)). split; [lia |].
    apply in_seq. lia.
Qed.

Lemma NoDup_interval (lo hi : Z) : NoDup (interval lo hi).
Proof.
  unfold interval. apply NoDup_map_injective.
  - intros a b H. lia.
  - apply seq_NoDup.
Qed.

Lemma in_cells (I J K : list Z) (i j k : Z) :
  In (i, j, k) (cells I J K) <-> In i I /\ In j J /\ In k K.
Proof.
  unfold cells. rewrite in_flat_map. split.
  - intros [i' [Hi H]]. apply in_flat_map in H. destruct H as [j' [Hj H]].
    apply in_map_iff in H. destruct H as [k' [E Hk]].
    injection E as -> -> ->. auto.
  - intros (Hi & Hj & Hk). exists i. split; [exact Hi |].
    apply in_flat_map. exists j. split; [exact Hj |].
    apply in_map_iff. exists k. auto.
Qed.

Lemma NoDup_cells (I J K : list Z) :
  NoDup I -> NoDup J -> NoDup K -> NoDup (cells I J K).
Proof.
  intros HI HJ HK. unfold cells.
  induction HI as [| i I Hi _ IH]; simpl; [constructor |].
  apply NoDup_app.
  - clear IH Hi. induction HJ as [| j J Hj _ IHJ]; simpl; [constructor |].
    apply NoDup_app.
    + apply NoDup_map_injective; [| exact HK].
      intros a b E. now injection E.
    + exact IHJ.
    + intros c H1 H2. apply in_map_iff in H1. destruct H1 as [k [<- _]].
      apply in_flat_map in H2. destruct H2 as [j' [Hj' H2]].
      apply in_map_iff in H2. destruct H2 as [k' [E _]].
      injection E as -> _. contradiction.
  - exact IH.
  - intros c H1 H2.
    apply in_flat_map in H1. destruct H1 as [j [_ H1]].
    apply in_map_iff in H1. destruct H1 as [k [<- _]].
    change (In (i, j, k) (cells I J K)) in H2.
    apply in_cells in H2. destruct H2 as [H2 _]. contradiction.
Qed.

Lemma length_cells (I J K : list Z) :
  List.length (cells I J K)
  = (List.length I * (List.length J * List.length K))%nat.
Proof.
  unfold cells.
  apply flat_map_constant_length. intros i _.
  apply flat_map_constant_length. intros j _.
  apply length_map.
Qed.

Lemma NoDup_get_region (rs : Index) : NoDup (get_region rs).
Proof.
  destruct rs as [[r0 r1] r2]. unfold get_region.
  apply NoDup_cells; apply NoDup_interval.
Qed.

Lemma in_bounded_axis (n : Z) (x : R) (i : Z) :
  In i (bounded_axis n x)
  <-> (Zfloor x - 1 <= i <= Zfloor x + 2 /\ 0 <= i < n)%Z.
Proof.
  unfold bounded_axis. rewrite filter_In. simpl.
  rewrite andb_true_iff, Z.leb_le, Z.ltb_lt. lia.
Qed.

Lemma region_in_grid (rs : Index) (x : Vector3) (c : Index) :
  In c (get_bounded_rasterization_region rs x) -> In c (get_region rs).
Proof.
  destruct rs as [[r0 r1] r2], c as [[i j] k].
  unfold get_bounded_rasterization_region, get_region.
  rewrite !in_cells, !in_bounded_axis, !in_interval. lia.
Qed.

Lemma bounded_axis_length (n : Z) (x : R) :
  (List.length (bounded_axis n x) <= 4)%nat.
Proof. unfold bounded_axis. apply (filter_length_le _ [_; _; _; _]). Qed.

Lemma region_length (rs : Index) (x : Vector3) :
  (List.length (get_bounded_rasterization_region rs x) <= 64)%nat.
Proof.
  destruct rs as [[r0 r1] r2]. unfold get_bounded_rasterization_region.
  rewrite length_cells.
  pose proof (bounded_axis_length r0 (vx x)).
  pose proof (bounded_axis_length r1 (vy x)).
  pose proof (bounded_axis_length r2 (vz x)).
  change 64%nat with (4 * (4 * 4))%nat.
  repeat apply Nat.mul_le_mono; assumption.
Qed.

(** ** Particle to grid: what each cell receives *)

Lemma rasterize_cells_mass (p : Particle) (l : list Index) (g : Grids)
  (ind : Index) :
  fst (fold_left (rasterize_cell p) l g) ind
  = fst g ind + Rsum (map (mass_share p ind) l).
Proof.
  revert g. induction l as [| c l IH]; intros g; simpl; [ring |].
  rewrite IH. unfold rasterize_cell at 1. cbn [fst].
  unfold store, mass_share. destruct (Index_eqb ind c) eqn:E.
  - apply Index_eqb_eq in E. subst c. ring.
  - ring.
Qed.

Lemma rasterize_cells_momentum (p : Particle) (l : list Index) (g : Grids)
  (ind : Index) :
  snd (fold_left (rasterize_cell p) l g) ind
  = vadd (snd g ind) (vsum (map (momentum_share p ind) l)).
Proof.
  revert g. induction l as [| c l IH]; intros g; simpl.
  - now rewrite vadd_0_r.
  - rewrite IH. unfold rasterize_cell at 1. cbn [snd].
    unfold store, momentum_share. destruct (Index_eqb ind c) eqn:E.
    + apply Index_eqb_eq in E. subst c. now rewrite vadd_assoc.
    + now rewrite vadd_0_l.
Qed.

Lemma rasterize_particles_mass (rs : Index) (ps : list Particle) (g : Grids)
  (ind : Index) :
  fst (fold_left (rasterize_particle rs) ps g) ind
  = fst g ind + gathered_mass rs ps ind.
Proof.
  unfold gathered_mass.
  revert g. induction ps as [| p ps IH]; intros g; simpl; [ring |].
  rewrite IH. unfold rasterize_particle at 1.
  rewrite rasterize_cells_mass. ring.
Qed.

Lemma rasterize_particles_momentum (rs : Index) (ps : list Particle)
  (g : Grids) (ind : Index) :
  snd (fold_left (rasterize_particle rs) ps g) ind
  = vadd (snd g ind) (gathered_momentum rs ps ind).
Proof.
  unfold gathered_momentum.
  revert g. induction ps as [| p ps IH]; intros g; simpl.
  - now rewrite vadd_0_r.
  - rewrite IH. unfold rasterize_particle at 1.
    rewrite rasterize_cells_momentum. now rewrite vadd_assoc.
Qed.

(** The second loop of [rasterize]: each cell of the list is visited once. *)
Lemma normalize_cells (quot : R -> R -> R) (gm : Array3D R) (l : list Index)
  (gv : Array3D Vector3) (ind : Index) :
  NoDup l ->
  fold_left (normalize_cell quot gm) l gv ind
  = if existsb (Index_eqb ind) l && Rltb 0 (gm ind)
    then vmuls (gv ind) (quot 1 (gm ind))
    else gv ind.
Proof.
  intros Hnd. revert gv.
  induction Hnd as [| c l Hc _ IH]; intros gv; [reflexivity |].
  cbn [fold_left existsb]. rewrite IH.
  destruct (Index_eqb ind c) eqn:E.
  - apply Index_eqb_eq in E. subst c.
    assert (Hn : existsb (Index_eqb ind) l = false).
    { destruct (existsb (Index_eqb ind) l) eqn:Ex; [| reflexivity].
      apply existsb_exists in Ex. destruct Ex as [y [Hy Ey]].
      apply Index_eqb_eq in Ey. subst y. contradiction. }
    rewrite Hn. cbn [orb andb]. unfold normalize_cell.
    destruct (Rltb 0 (gm ind)); [apply store_same | reflexivity].
  - cbn [orb].
    assert (Hs : normalize_cell quot gm gv c ind = gv ind).
    { unfold normalize_cell. destruct (Rltb 0 (gm c)); [| reflexivity].
      apply store_other. now apply Index_eqb_neq. }
    rewrite Hs. reflexivity.
Qed.

Lemma rasterize_with_mass (quot : R -> R -> R) (s : MPM3D) (ind : Index) :
  grid_mass (rasterize_with quot s) ind
  = gathered_mass (res s) (particles s) ind.
Proof.
  unfold rasterize_with. cbn [grid_mass set_grid_velocity set_grid_mass].
  rewrite rasterize_particles_mass. cbn [fst]. ring.
Qed.

Lemma rasterize_with_velocity (quot : R -> R -> R) (s : MPM3D) (ind : Index) :
  grid_velocity (rasterize_with quot s) ind
  = if existsb (Index_eqb ind) (get_region (res s))
       && Rltb 0 (gathered_mass (res s) (particles s) ind)
    then vmuls (gathered_momentum (res s) (particles s) ind)
               (quot 1 (gathered_mass (res s) (particles s) ind))
    else gathered_momentum (res s) (particles s) ind.
Proof.
  unfold rasterize_with. cbn [grid_velocity set_grid_velocity set_grid_mass].
  rewrite normalize_cells by apply NoDup_get_region.
  rewrite rasterize_particles_mass, rasterize_particles_momentum.
  cbn [fst snd]. rewrite vadd_0_l, Rplus_0_l. reflexivity.
Qed.

(** ** Cells of zero mass *)

Lemma bounded_axis_near (n : Z) (x : R) (i : Z) :
  In i (bounded_axis n x) -> Rabs (IZR i - x) <= 2.
Proof.
  intros H. apply in_bounded_axis in H. destruct H as [[H1 H2] _].
  pose proof (Zfloor_bound x) as [Hlo Hhi].
  apply IZR_le in H1, H2. rewrite minus_IZR in H1. rewrite plus_IZR in H2.
  apply Rabs_le. lra.
Qed.

Lemma w3_region_nonneg (rs : Index) (x : Vector3) (c : Index) :
  In c (get_bounded_rasterization_region rs x) ->
  0 <= w3 (vsub (index_pos c) x).
Proof.
  destruct rs as [[r0 r1] r2], c as [[i j] k].
  unfold get_bounded_rasterization_region. rewrite in_cells.
  intros (Hi & Hj & Hk).
  apply bounded_axis_near in Hi, Hj, Hk.
  unfold w3. simpl.
  pose proof (w_nonneg _ Hi). pose proof (w_nonneg _ Hj).
  pose proof (w_nonneg _ Hk).
  repeat apply Rmult_le_pos; assumption.
Qed.

Lemma Rsum_nonneg (l : list R) : Forall (fun x => 0 <= x) l -> 0 <= Rsum l.
Proof. induction 1; simpl; lra. Qed.

Lemma Rsum_zero_all (l : list R) :
  Forall (fun x => 0 <= x) l -> Rsum l = 0 -> Forall (fun x => x = 0) l.
Proof.
  induction 1 as [| x l Hx Hl IH]; intros Hs; [constructor |].
  simpl in Hs. pose proof (Rsum_nonneg l Hl).
  constructor; [lra | apply IH; lra].
Qed.

Lemma vsum_all_zero {A : Type} (f : A -> Vector3) (l : list A) :
  (forall a, In a l -> f a = vsplat 0) -> vsum (map f l) = vsplat 0.
Proof.
  induction l as [| a l IH]; intros H; simpl; [reflexivity |].
  rewrite (H a) by (left; reflexivity). rewrite vadd_0_l.
  apply IH. intros b Hb. apply H. right. exact Hb.
Qed.

Lemma mass_share_nonneg (rs : Index) (p : Particle) (ind c : Index) :
  0 <= mass p ->
  In c (get_bounded_rasterization_region rs (pos p)) ->
  0 <= mass_share p ind c.
Proof.
  intros Hm Hc. unfold mass_share. destruct (Index_eqb ind c); [| lra].
  apply Rmult_le_pos; [| exact Hm]. apply (w3_region_nonneg rs). exact Hc.
Qed.

Lemma momentum_share_zero (p : Particle) (ind c : Index) :
  mass_share p ind c = 0 -> momentum_share p ind c = vsplat 0.
Proof.
  unfold mass_share, momentum_share. destruct (Index_eqb ind c); [| reflexivity].
  cbv zeta. intros ->. apply vscale_0.
Qed.

Lemma region_mass_nonneg (rs : Index) (p : Particle) (ind : Index) :
  0 <= mass p ->
  Forall (fun x => 0 <= x)
         (map (mass_share p ind) (get_bounded_rasterization_region rs (pos p))).
Proof.
  intros Hm. apply Forall_forall. intros x Hx.
  apply in_map_iff in Hx. destruct Hx as [c [<- Hc]].
  apply (mass_share_nonneg rs); assumption.
Qed.

Lemma gathered_mass_terms_nonneg (rs : Index) (ps : list Particle)
  (ind : Index) :
  Forall (fun p => 0 <= mass p) ps ->
  Forall (fun x => 0 <= x)
    (map (fun p => Rsum (map (mass_share p ind)
                             (get_bounded_rasterization_region rs (pos p))))
         ps).
Proof.
  intros H. apply Forall_forall. intros x Hx.
  apply in_map_iff in Hx. destruct Hx as [p [<- Hp]].
  apply Rsum_nonneg. apply region_mass_nonneg.
  rewrite Forall_forall in H. apply H. exact Hp.
Qed.

Lemma gathered_mass_nonneg (rs : Index) (ps : list Particle) (ind : Index) :
  Forall (fun p => 0 <= mass p) ps -> 0 <= gathered_mass rs ps ind.
Proof.
  intros H. unfold gathered_mass. apply Rsum_nonneg.
  apply gathered_mass_terms_nonneg. exact H.
Qed.

(** A cell that gathers no mass gathers no momentum. *)
Lemma gathered_momentum_zero (rs : Index) (ps : list Particle) (ind : Index) :
  Forall (fun p => 0 <= mass p) ps ->
  gathered_mass rs ps ind = 0 ->
  gathered_momentum rs ps ind = vsplat 0.
Proof.
  intros Hm Hz. unfold gathered_momentum.
  pose proof (Rsum_zero_all _ (gathered_mass_terms_nonneg rs ps ind Hm) Hz)
    as Hall.
  rewrite Forall_forall in Hall, Hm.
  apply vsum_all_zero. intros p Hp.
  assert (Hp0 : Rsum (map (mass_share p ind)
                        (get_bounded_rasterization_region rs (pos p))) = 0).
  { apply Hall. apply in_map_iff. exists p. auto. }
  pose proof (Rsum_zero_all _ (region_mass_nonneg rs p ind (Hm p Hp)) Hp0)
    as Hcells.
  rewrite Forall_forall in Hcells.
  apply vsum_all_zero. intros c Hc. apply momentum_share_zero.
  apply Hcells. apply in_map_iff. exists c. auto.
Qed.

Lemma force_cell_share (quot : R -> R -> R) (delta_t : R) (gm : Array3D R)
  (p : Particle) (gv : Array3D Vector3) (ind c : Index) :
  (forall a b, b <> 0 -> quot a b = a / b) ->
  (forall j, 0 <= gm j) ->
  force_cell quot delta_t gm p gv c ind
  = vadd (gv ind) (force_share delta_t gm p ind c).
Proof.
  intros Hq Hgm. unfold force_cell, force_share.
  destruct (Reqb (gm c) 0) eqn:E.
  - apply Reqb_true in E.
    assert (Hl : Rltb 0 (gm c) = false) by (apply Rltb_false; lra).
    rewrite Hl, andb_false_r. now rewrite vadd_0_r.
  - apply Reqb_false in E.
    assert (Hl : Rltb 0 (gm c) = true).
    { apply Rltb_true. specialize (Hgm c). lra. }
    rewrite Hl, andb_true_r. rewrite (Hq _ _ E).
    unfold store. destruct (Index_eqb ind c) eqn:Ei.
    + apply Index_eqb_eq in Ei. subst c. reflexivity.
    + now rewrite vadd_0_r.
Qed.

Lemma force_cells (quot : R -> R -> R) (delta_t : R) (gm : Array3D R)
  (p : Particle) (l : list Index) (gv : Array3D Vector3) (ind : Index) :
  (forall a b, b <> 0 -> quot a b = a / b) ->
  (forall j, 0 <= gm j) ->
  fold_left (force_cell quot delta_t gm p) l gv ind
  = vadd (gv ind) (vsum (map (force_share delta_t gm p ind) l)).
Proof.
  intros Hq Hgm. revert gv.
  induction l as [| c l IH]; intros gv; simpl.
  - now rewrite vadd_0_r.
  - rewrite IH, force_cell_share by assumption. now rewrite vadd_assoc.
Qed.

Lemma accumulate_force_gathered (quot : R -> R -> R) (delta_t : R)
  (s : MPM3D) (ind : Index) :
  (forall a b, b <> 0 -> quot a b = a / b) ->
  (forall j, 0 <= grid_mass s j) ->
  grid_velocity (accumulate_force_with quot delta_t s) ind
  = vadd (grid_velocity s ind) (gathered_force delta_t s ind).
Proof.
  intros Hq Hgm. unfold accumulate_force_with, gathered_force.
  cbn [grid_velocity set_grid_velocity].
  generalize (grid_velocity s) as gv.
  induction (particles s) as [| p ps IH]; intros gv; simpl.
  - now rewrite vadd_0_r.
  - rewrite IH, force_cells by assumption. now rewrite vadd_assoc.
Qed.

Lemma gathered_force_zero (delta_t : R) (s : MPM3D) (ind : Index) :
  grid_mass s ind = 0 -> gathered_force delta_t s ind = vsplat 0.
Proof.
  intros Hz. unfold gathered_force.
  apply vsum_all_zero. intros p _. apply vsum_all_zero. intros c _.
  unfold force_share. destruct (Index_eqb ind c) eqn:E; [| reflexivity].
  apply Index_eqb_eq in E. subst c.
  assert (Hl : Rltb 0 (grid_mass s ind) = false) by (apply Rltb_false; lra).
  rewrite Hl. reflexivity.
Qed.

Lemma foldM_pure {A B : Type} (f : A -> B -> Result A) (g : A -> B -> A)
  (l : list B) (a : A) :
  (forall a b, f a b = Ok (g a b)) -> foldM f l a = Ok (fold_left g l a).
Proof.
  intros H. revert a. induction l as [| b l IH]; intros a; simpl.
  - reflexivity.
  - rewrite H. cbn [bind]. apply IH.
Qed.

Lemma checked_div_nonzero (a b : R) : b <> 0 -> checked_div a b = Ok (a / b).
Proof.
  intros Hb. unfold checked_div. apply Reqb_false in Hb. now rewrite Hb.
Qed.

Lemma normalize_cell_checked_ok (gm : Array3D R) (gv : Array3D Vector3)
  (ind : Index) :
  normalize_cell_checked gm gv ind = Ok (normalize_cell Rdiv gm gv ind).
Proof.
  unfold normalize_cell_checked, normalize_cell.
  destruct (Rltb 0 (gm ind)) eqn:E; [| reflexivity].
  apply Rltb_true in E. rewrite checked_div_nonzero by lra. reflexivity.
Qed.

Lemma force_cell_checked_ok (delta_t : R) (gm : Array3D R) (p : Particle)
  (gv : Array3D Vector3) (ind : Index) :
  force_cell_checked delta_t gm p gv ind
  = Ok (force_cell Rdiv delta_t gm p gv ind).
Proof.
  unfold force_cell_checked, force_cell.
  destruct (Reqb (gm ind) 0) eqn:E; [reflexivity |].
  apply Reqb_false in E. rewrite checked_div_nonzero by exact E. reflexivity.
Qed.

Lemma force_cell_share_nonzero (delta_t : R) (gm : Array3D R) (p : Particle)
  (gv : Array3D Vector3) (ind c : Index) :
  force_cell Rdiv delta_t gm p gv c ind
  = vadd (gv ind) (force_share_nonzero delta_t gm p ind c).
Proof.
  unfold force_cell, force_share_nonzero.
  destruct (Reqb (gm c) 0) eqn:E; cbn [negb].
  - rewrite andb_false_r. now rewrite vadd_0_r.
  - rewrite andb_true_r. unfold store.
    destruct (Index_eqb ind c) eqn:Ei.
    + apply Index_eqb_eq in Ei. subst c. reflexivity.
    + now rewrite vadd_0_r.
Qed.

Lemma force_cells_nonzero (delta_t : R) (gm : Array3D R) (p : Particle)
  (l : list Index) (gv : Array3D Vector3) (ind : Index) :
  fold_left (force_cell Rdiv delta_t gm p) l gv ind
  = vadd (gv ind) (vsum (map (force_share_nonzero delta_t gm p ind) l)).
Proof.
  revert gv. induction l as [| c l IH]; intros gv; simpl.
  - now rewrite vadd_0_r.
  - rewrite IH, force_cell_share_nonzero. now rewrite vadd_assoc.
Qed.

Lemma accumulate_force_nonzero (delta_t : R) (s : MPM3D) (ind : Index) :
  grid_velocity (accumulate_force_with Rdiv delta_t s) ind
  = vadd (grid_velocity s ind) (gathered_force_nonzero delta_t s ind).
Proof.
  unfold accumulate_force_with, gathered_force_nonzero.
  cbn [grid_velocity set_grid_velocity].
  generalize (grid_velocity s) as gv.
  induction (particles s) as [| p ps IH]; intros gv; simpl.
  - now rewrite vadd_0_r.
  - rewrite IH, force_cells_nonzero. now rewrite vadd_assoc.
Qed.

Lemma gathered_force_nonzero_skip (delta_t : R) (s : MPM3D) (ind : Index) :
  grid_mass s ind = 0 -> gathered_force_nonzero delta_t s ind = vsplat 0.
Proof.
  intros Hz. unfold gathered_force_nonzero.
  apply vsum_all_zero. intros p _. apply vsum_all_zero. intros c _.
  unfold force_share_nonzero. destruct (Index_eqb ind c) eqn:E; [| reflexivity].
  apply Index_eqb_eq in E. subst c.
  assert (Hl : Reqb (grid_mass s ind) 0 = true) by (apply Reqb_true; exact Hz).
  rewrite Hl. reflexivity.
Qed.

Lemma Rsum_map_all_zero {A : Type} (f : A -> R) (l : list A) :
  (forall a, In a l -> f a = 0) -> Rsum (map f l) = 0.
Proof.
  induction l as [| a l IH]; intros H; simpl; [reflexivity |].
  rewrite (H a) by (left; reflexivity).
  rewrite IH by (intros b Hb; apply H; right; exact Hb). ring.
Qed.

(** A cell that the region of no particle contains gathers nothing. *)
Lemma unreached_cell (rs : Index) (ps : list Particle) (ind : Index) :
  (forall p, In p ps ->
             ~ In ind (get_bounded_rasterization_region rs (pos p))) ->
  gathered_mass rs ps ind = 0 /\ gathered_momentum rs ps ind = vsplat 0.
Proof.
  intros H.
  assert (Hne : forall p c, In p ps ->
            In c (get_bounded_rasterization_region rs (pos p)) ->
            Index_eqb ind c = false).
  { intros p c Hp Hc. apply Index_eqb_neq. intros ->. exact (H p Hp Hc). }
  split.
  - unfold gathered_mass. apply Rsum_map_all_zero. intros p Hp.
    apply Rsum_map_all_zero. intros c Hc. unfold mass_share.
    now rewrite (Hne p c Hp Hc).
  - unfold gathered_momentum. apply vsum_all_zero. intros p Hp.
    apply vsum_all_zero. intros c Hc. unfold momentum_share.
    now rewrite (Hne p c Hp Hc).
Qed.

(** C7, as stated, fails in its last part: the force is not added to cells
    of positive mass only.  In binary32, as the first loop of [rasterize]
    computes it, the cell [(5, 3, 3)] receives a negative mass from a
    single particle of mass 1 at [(3.01, 3.5, 3.5)]; the test [mass == 0]
    of [apply_deformation_force] does not skip it, and the test [mass > 0]
    of [rasterize] leaves its velocity without normalization. *)
Lemma F32_negative_cell_mass :
  SFltb far_cell_mass (F32.of_Z 0) = true
  /\ SFeqb far_cell_mass (F32.of_Z 0) = false
  /\ SFltb (F32.of_Z 0) far_cell_mass = false.
Proof. repeat split; vm_compute; reflexivity. Qed.

(** C7, amended. No division of the two passes has a zero divisor: with a
    division that fails on zero, [rasterize] and the second pass of
    [apply_deformation_force] complete on every state, with the grids of
    the passes themselves.  After [rasterize] the velocity of a cell of the
    grid is the momentum it gathered times [1 / mass] when its mass is
    positive and the gathered momentum as it is otherwise; a cell that the
    region of no particle contains has mass 0 and velocity 0.  The second
    pass adds [(delta_t / cell_mass) * (tmp_force * gradient)] for every
    cell of a region whose mass is not zero, and leaves the velocity of a
    cell of zero mass as it was.  *)
Theorem zero_mass_cells_are_safe (delta_t : R) (s : MPM3D) :
  rasterize_checked s = Ok (rasterize s)
  /\ accumulate_force_checked delta_t s
     = Ok (accumulate_force_with Rdiv delta_t s)
  /\ (forall ind,
         grid_velocity (rasterize s) ind
         = if existsb (Index_eqb ind) (get_region (res s))
              && Rltb 0 (grid_mass (rasterize s) ind)
           then vmuls (gathered_momentum (res s) (particles s) ind)
                      (1 / grid_mass (rasterize s) ind)
           else gathered_momentum (res s) (particles s) ind)
  /\ (forall ind,
         (forall p, In p (particles s) -> ~ In ind (region_of s p)) ->
         grid_mass (rasterize s) ind = 0
         /\ grid_velocity (rasterize s) ind = vsplat 0)
  /\ (forall ind,
         grid_velocity (accumulate_force_with Rdiv delta_t s) ind
         = vadd (grid_velocity s ind) (gathered_force_nonzero delta_t s ind))
  /\ (forall ind,
         grid_mass s ind = 0 ->
         grid_velocity (accumulate_force_with Rdiv delta_t s) ind
         = grid_velocity s ind).
Proof.
  assert (Hv : forall ind,
             grid_velocity (rasterize s) ind
             = if existsb (Index_eqb ind) (get_region (res s))
                  && Rltb 0 (grid_mass (rasterize s) ind)
               then vmuls (gathered_momentum (res s) (particles s) ind)
                          (1 / grid_mass (rasterize s) ind)
               else gathered_momentum (res s) (particles s) ind).
  { intros ind. unfold rasterize.
    rewrite rasterize_with_velocity, rasterize_with_mass. reflexivity. }
  split; [| split; [| split; [exact Hv | split; [| split]]]].
  - unfold rasterize_checked, rasterize, rasterize_with.
    rewrite (foldM_pure _ (normalize_cell Rdiv _))
      by (intros a b; apply normalize_cell_checked_ok).
    reflexivity.
  - unfold accumulate_force_checked, accumulate_force_with.
    rewrite (foldM_pure _
               (fun gv p => fold_left (force_cell Rdiv delta_t (grid_mass s) p)
                                      (region_of s p) gv)).
    + reflexivity.
    + intros gv p. apply foldM_pure. intros a b.
      apply force_cell_checked_ok.
  - intros ind Hun.
    destruct (unreached_cell (res s) (particles s) ind Hun) as [Hm Hp].
    assert (Hm1 : grid_mass (rasterize s) ind = 0).
    { unfold rasterize. rewrite rasterize_with_mass. exact Hm. }
    split; [exact Hm1 |].
    rewrite Hv, Hp. destruct (_ && _); [| reflexivity].
    unfold vmuls, vsplat. simpl. f_equal; ring.
  - intros ind. apply accumulate_force_nonzero.
  - intros ind Hz. rewrite accumulate_force_nonzero.
    rewrite gathered_force_nonzero_skip by exact Hz. apply vadd_0_r.
Qed.

(** ** Sums over cells *)

Lemma Rsum_map_ext {A : Type} (f g : A -> R) (l : list A) :
  (forall a, In a l -> f a = g a) -> Rsum (map f l) = Rsum (map g l).
Proof.
  induction l as [| a l IH]; intros H; simpl; [reflexivity |].
  rewrite (H a) by (left; reflexivity). f_equal.
  apply IH. intros b Hb. apply H. right. exact Hb.
Qed.

Lemma Rsum_map_zero {A : Type} (l : list A) :
  Rsum (map (fun _ => 0) l) = 0.
Proof. induction l; simpl; lra. Qed.

Lemma Rsum_map_plus {A : Type} (f g : A -> R) (l : list A) :
  Rsum (map (fun a => f a + g a) l) = Rsum (map f l) + Rsum (map g l).
Proof. induction l; simpl; lra. Qed.

Lemma Rsum_map_scale_l {A : Type} (k : R) (f : A -> R) (l : list A) :
  Rsum (map (fun a => k * f a) l) = k * Rsum (map f l).
Proof. induction l as [| a l IH]; simpl; [ring | rewrite IH; ring]. Qed.

Lemma Rsum_map_scale_r {A : Type} (k : R) (f : A -> R) (l : list A) :
  Rsum (map (fun a => f a * k) l) = Rsum (map f l) * k.
Proof. induction l as [| a l IH]; simpl; [ring | rewrite IH; ring]. Qed.

(** Exchange of two finite sums. *)
Lemma Rsum_swap {A B : Type} (F : A -> B -> R) (la : list A) (lb : list B) :
  Rsum (map (fun a => Rsum (map (F a) lb)) la)
  = Rsum (map (fun b => Rsum (map (fun a => F a b) la)) lb).
Proof.
  induction la as [| a la IH]; simpl.
  - now rewrite Rsum_map_zero.
  - rewrite IH, <- Rsum_map_plus. reflexivity.
Qed.

Lemma Rsum_flat_map {A B : Type} (f : B -> R) (g : A -> list B) (l : list A) :
  Rsum (map f (flat_map g l)) = Rsum (map (fun a => Rsum (map f (g a))) l).
Proof.
  induction l as [| a l IH]; simpl; [reflexivity |].
  now rewrite map_app, Rsum_app, IH.
Qed.

(** Summing an indicator of [c] over a list without repetition. *)
Lemma Rsum_indicator (l : list Index) (c : Index) (a : R) :
  NoDup l -> In c l ->
  Rsum (map (fun ind => if Index_eqb ind c then a else 0) l) = a.
Proof.
  induction 1 as [| x l Hx Hnd IH]; intros Hin; [contradiction |].
  simpl. destruct Hin as [-> | Hin].
  - rewrite Index_eqb_refl.
    rewrite (Rsum_map_ext _ (fun _ => 0)).
    + rewrite Rsum_map_zero. ring.
    + intros y Hy. destruct (Index_eqb y c) eqn:E; [| reflexivity].
      apply Index_eqb_eq in E. subst y. contradiction.
  - assert (E : Index_eqb x c = false).
    { apply Index_eqb_neq. intros ->. contradiction. }
    rewrite E, IH by exact Hin. ring.
Qed.

(** The mass a particle spreads over the grid is its mass times the sum of
    the kernel weights over its region. *)
Lemma spread_mass (rs : Index) (p : Particle) :
  Rsum (map (fun ind =>
               Rsum (map (mass_share p ind)
                         (get_bounded_rasterization_region rs (pos p))))
            (get_region rs))
  = mass p
    * Rsum (map (fun c => w3 (vsub (index_pos c) (pos p)))
                (get_bounded_rasterization_region rs (pos p))).
Proof.
  rewrite Rsum_swap.
  rewrite (Rsum_map_ext _ (fun c => mass p * w3 (vsub (index_pos c) (pos p)))).
  - apply Rsum_map_scale_l.
  - intros c Hc. unfold mass_share.
    rewrite Rsum_indicator.
    + ring.
    + apply NoDup_get_region.
    + apply (region_in_grid rs (pos p)). exact Hc.
Qed.

Lemma rasterize_total (s : MPM3D) :
  total_grid_mass (rasterize s)
  = Rsum (map (fun p => mass p * kernel_sum s p) (particles s)).
Proof.
  unfold total_grid_mass, rasterize.
  rewrite (Rsum_map_ext _ (gathered_mass (res s) (particles s)))
    by (intros ind _; apply rasterize_with_mass).
  cbn [res rasterize_with set_grid_velocity set_grid_mass].
  unfold gathered_mass. rewrite Rsum_swap.
  apply Rsum_map_ext. intros p _. apply spread_mass.
Qed.

(** ** The kernel is a partition of unity *)

Lemma w_piece1 (y : R) :
  0 <= y < 1 -> w y = 0.5 * y * y * y - y * y + 2 / 3.
Proof.
  intros [H0 H1]. rewrite w_nonneg_arg by exact H0.
  destruct (Rlt_dec y 1); [reflexivity | lra].
Qed.

Lemma w_piece2 (y : R) :
  1 <= y -> w y = -1 / 6 * y * y * y + y * y - 2 * y + 4 / 3.
Proof.
  intros H1. rewrite w_nonneg_arg by lra.
  destruct (Rlt_dec y 1); [lra | reflexivity].
Qed.

(** The four weights around [x] add up to one. *)
Lemma four_weights (x : R) :
  let b := Zfloor x in
  w (IZR (b - 1) - x) + w (IZR b - x) + w (IZR (b + 1) - x)
  + w (IZR (b + 2) - x) = 1.
Proof.
  intros b. pose proof (Zfloor_bound x) as [Hlo Hhi]. fold b in Hlo, Hhi.
  rewrite minus_IZR, !plus_IZR.
  set (f := x - IZR b).
  replace (IZR b - 1 - x) with (- (1 + f)) by (unfold f; ring).
  replace (IZR b - x) with (- f) by (unfold f; ring).
  replace (IZR b + 1 - x) with (1 - f) by (unfold f; ring).
  replace (IZR b + 2 - x) with (2 - f) by (unfold f; ring).
  assert (Hf : 0 <= f < 1) by (unfold f; lra).
  rewrite !w_even.
  rewrite (w_piece2 (1 + f)), (w_piece1 f), (w_piece2 (2 - f)) by lra.
  destruct (Req_dec f 0) as [Hz | Hnz].
  - rewrite (w_piece2 (1 - f)) by lra. rewrite Hz. lra.
  - rewrite (w_piece1 (1 - f)) by lra. lra.
Qed.

Lemma axis_weight_nonneg (x : R) (i : Z) :
  (Zfloor x - 1 <= i <= Zfloor x + 2)%Z -> 0 <= w (IZR i - x).
Proof.
  intros [H1 H2]. apply w_nonneg.
  pose proof (Zfloor_bound x) as [Hlo Hhi].
  apply IZR_le in H1, H2. rewrite minus_IZR in H1. rewrite plus_IZR in H2.
  apply Rabs_le. lra.
Qed.

Lemma axis_sum_bounds (n : Z) (x : R) : 0 <= axis_sum n x <= 1.
Proof.
  unfold axis_sum, bounded_axis.
  pose proof (four_weights x) as H4. cbv zeta in H4.
  pose proof (axis_weight_nonneg x (Zfloor x - 1) ltac:(lia)).
  pose proof (axis_weight_nonneg x (Zfloor x) ltac:(lia)).
  pose proof (axis_weight_nonneg x (Zfloor x + 1) ltac:(lia)).
  pose proof (axis_weight_nonneg x (Zfloor x + 2) ltac:(lia)).
  cbn [filter].
  repeat match goal with
         | |- context [if ?c then _ else _] => destruct c
         end; cbn [map Rsum fold_right]; lra.
Qed.

Lemma axis_sum_full (n : Z) (x : R) :
  List.length (bounded_axis n x) = 4%nat -> axis_sum n x = 1.
Proof.
  unfold axis_sum, bounded_axis.
  pose proof (four_weights x) as H4. cbv zeta in H4.
  cbn [filter].
  repeat match goal with
         | |- context [if ?c then _ else _] => destruct c
         end; cbn [map Rsum fold_right List.length]; intros Hl;
    try discriminate Hl; lra.
Qed.

(** The sum of the kernel weights over a box of cells is the product of the
    sums along the axes. *)
Lemma kernel_sum_cells (I J K : list Z) (x : Vector3) :
  Rsum (map (fun c => w3 (vsub (index_pos c) x)) (cells I J K))
  = Rsum (map (fun i => w (IZR i - vx x)) I)
    * Rsum (map (fun j => w (IZR j - vy x)) J)
    * Rsum (map (fun k => w (IZR k - vz x)) K).
Proof.
  unfold cells. rewrite Rsum_flat_map.
  rewrite (Rsum_map_ext _
             (fun i => w (IZR i - vx x)
                       * (Rsum (map (fun j => w (IZR j - vy x)) J)
                          * Rsum (map (fun k => w (IZR k - vz x)) K)))).
  - rewrite Rsum_map_scale_r. ring.
  - intros i _. rewrite Rsum_flat_map.
    rewrite (Rsum_map_ext _
               (fun j => (w (IZR i - vx x)
                          * Rsum (map (fun k => w (IZR k - vz x)) K))
                         * w (IZR j - vy x))).
    + rewrite Rsum_map_scale_l. ring.
    + intros j _. rewrite map_map.
      rewrite (Rsum_map_ext _
                 (fun k => (w (IZR i - vx x) * w (IZR j - vy x))
                           * w (IZR k - vz x))).
      * rewrite Rsum_map_scale_l. ring.
      * intros k _. unfold w3. simpl. reflexivity.
Qed.

Lemma kernel_sum_axes (s : MPM3D) (p : Particle) :
  kernel_sum s p
  = axis_sum (fst (fst (res s))) (vx (pos p))
    * axis_sum (snd (fst (res s))) (vy (pos p))
    * axis_sum (snd (res s)) (vz (pos p)).
Proof.
  unfold kernel_sum, region_of, get_bounded_rasterization_region.
  destruct (res s) as [[r0 r1] r2]. cbn [fst snd].
  apply kernel_sum_cells.
Qed.

Lemma kernel_sum_bounds (s : MPM3D) (p : Particle) :
  0 <= kernel_sum s p <= 1.
Proof.
  rewrite kernel_sum_axes.
  pose proof (axis_sum_bounds (fst (fst (res s))) (vx (pos p))).
  pose proof (axis_sum_bounds (snd (fst (res s))) (vy (pos p))).
  pose proof (axis_sum_bounds (snd (res s)) (vz (pos p))).
  set (a := axis_sum _ (vx _)) in *. set (b := axis_sum _ (vy _)) in *.
  set (c := axis_sum _ (vz _)) in *.
  assert (0 <= a * b <= 1) by nra.
  split; nra.
Qed.

Lemma full_region_axes (a b c : nat) :
  (a <= 4 -> b <= 4 -> c <= 4 -> a * (b * c) = 64 ->
   a = 4 /\ b = 4 /\ c = 4)%nat.
Proof.
  intros Ha Hb Hc H.
  assert (Hbc : (b * c <= 16)%nat)
    by (change 16%nat with (4 * 4)%nat; apply Nat.mul_le_mono; assumption).
  assert (a = 4)%nat by nia. subst a.
  assert (b = 4)%nat by nia. subst b.
  assert (c = 4)%nat by nia. auto.
Qed.

Lemma kernel_sum_full (s : MPM3D) (p : Particle) :
  fully_inside s p = true -> kernel_sum s p = 1.
Proof.
  unfold fully_inside. rewrite Nat.eqb_eq.
  rewrite kernel_sum_axes.
  unfold region_of, get_bounded_rasterization_region.
  destruct (res s) as [[r0 r1] r2]. cbn [fst snd].
  rewrite length_cells. intros H.
  destruct (full_region_axes _ _ _ (bounded_axis_length r0 (vx (pos p)))
              (bounded_axis_length r1 (vy (pos p)))
              (bounded_axis_length r2 (vz (pos p))) H) as (Ha & Hb & Hc).
  rewrite !axis_sum_full by assumption. ring.
Qed.

(** ** Mass conservation *)

Lemma Rsum_filter_split {A : Type} (f : A -> R) (keep : A -> bool)
  (l : list A) :
  Rsum (map f l)
  = Rsum (map f (filter keep l))
    + Rsum (map f (filter (fun a => negb (keep a)) l)).
Proof.
  induction l as [| a l IH]; simpl; [ring |].
  destruct (keep a); simpl; rewrite IH; ring.
Qed.

Lemma bounded_axis_at (n : Z) (x : R) (b : Z) :
  IZR b <= x < IZR b + 1 ->
  bounded_axis n x
  = filter (fun i => (0 <=? i) && (i <? n))%Z [b - 1; b; b + 1; b + 2]%Z.
Proof. intros H. unfold bounded_axis. now rewrite (Zfloor_eq b x H). Qed.

Lemma w_at_0 : w 0 = 2 / 3.
Proof. rewrite w_piece1 by lra. lra. Qed.

Lemma w_at_1 : w 1 = 1 / 6.
Proof. rewrite w_piece2 by lra. lra. Qed.

(** Along an axis of 4 cells, a particle at coordinate 2 loses the cell at
    distance 2, whose weight is zero. *)
Lemma axis_sum_clipped : List.length (bounded_axis 4 2) = 3%nat
                         /\ axis_sum 4 2 = 1.
Proof.
  unfold axis_sum. rewrite (bounded_axis_at 4 2 2) by lra.
  split; [reflexivity |].
  cbn [filter Z.leb Z.ltb Z.sub Z.add Z.compare andb Z.opp Z.pos_sub
       Pos.compare Pos.compare_cont Pos.add Pos.succ Pos.pred_double
       Z.double Z.succ_double Z.pred_double map Rsum fold_right].
  replace (1 - 2) with (- (1)) by lra.
  replace (2 - 2) with 0 by lra.
  replace (3 - 2) with 1 by lra.
  rewrite w_even, w_at_0, w_at_1. lra.
Qed.

Lemma axis_sum_centered : List.length (bounded_axis 4 1.5) = 4%nat
                          /\ axis_sum 4 1.5 = 1.
Proof.
  assert (H : List.length (bounded_axis 4 1.5) = 4%nat).
  { rewrite (bounded_axis_at 4 1.5 1) by lra. reflexivity. }
  split; [exact H | apply axis_sum_full; exact H].
Qed.

(** C2, as stated, fails in its last part: a clipped particle does not
    always contribute less than its mass.  In a 4 x 4 x 4 grid the particle
    of mass 1 at [(2.01, 1.5, 1.5)] has a region of 48 cells, the plane
    [i = 4] being clipped; in binary32, as [rasterize] computes them, the
    masses of these 48 cells add up to more than 1. *)
Lemma F32_clipped_particle_gains_mass :
  get_bounded_rasterization_region (4, 4, 4)%Z (vec3 2.01 1.5 1.5)
  = clipped_cells
  /\ List.length clipped_cells = 48%nat
  /\ (F32.scaled (F32.of_Z 1)
      < F32.deposit (F32.frac 201 100) (F32.frac 3 2) (F32.frac 3 2)
                    (F32.of_Z 1) clipped_cells)%Z.
Proof.
  split; [| split].
  - unfold get_bounded_rasterization_region. cbn [vx vy vz].
    rewrite (bounded_axis_at 4 2.01 2), (bounded_axis_at 4 1.5 1)
      by (simpl; lra).
    reflexivity.
  - reflexivity.
  - vm_compute. reflexivity.
Qed.

(** In exact arithmetic the particle at [(2, 1.5, 1.5)], whose region is
    clipped to 48 cells as well, hands the grid exactly its mass: the cells
    it loses lie at distance 2, where the cubic is zero. *)
Lemma clipped_particle_keeps_its_mass :
  fully_inside clipped_simulation clipped_particle = false
  /\ kernel_sum clipped_simulation clipped_particle = 1
  /\ ~ (mass clipped_particle * kernel_sum clipped_simulation clipped_particle
        < mass clipped_particle)
  /\ total_grid_mass (rasterize clipped_simulation) = mass clipped_particle.
Proof.
  destruct axis_sum_clipped as [Lx Sx].
  destruct axis_sum_centered as [Ly Sy].
  assert (Hk : kernel_sum clipped_simulation clipped_particle = 1).
  { rewrite kernel_sum_axes.
    cbn [res clipped_simulation empty_grid_simulation fst snd pos
         clipped_particle set_mass set_pos vx vy vz].
    rewrite Sx, Sy. ring. }
  split; [| split; [exact Hk | split]].
  - unfold fully_inside, region_of, get_bounded_rasterization_region.
    cbn [res clipped_simulation empty_grid_simulation pos clipped_particle
         set_mass set_pos vx vy vz].
    rewrite length_cells, Lx, Ly. reflexivity.
  - rewrite Hk. lra.
  - rewrite rasterize_total.
    cbn [particles clipped_simulation empty_grid_simulation map Rsum
         fold_right].
    rewrite Hk. ring.
Qed.

(** C2, amended. After [rasterize] the total grid mass is the sum of the
    masses of the particles whose region is fully inside the grid, plus, for
    every clipped particle, its mass times the sum of its kernel weights
    over the cells that are in the grid; the sum of the weights is 1 for a
    region of 64 cells.  Nothing makes the share of a clipped particle less
    than its mass. *)
Theorem rasterize_mass_conservation (s : MPM3D) :
  total_grid_mass (rasterize s)
  = Rsum (map mass (filter (fully_inside s) (particles s)))
    + Rsum (map (fun p => mass p * kernel_sum s p)
                (filter (fun p => negb (fully_inside s p)) (particles s)))
  /\ (forall p, fully_inside s p = true -> kernel_sum s p = 1).
Proof.
  split; [| apply kernel_sum_full].
  rewrite rasterize_total.
  rewrite (Rsum_filter_split _ (fully_inside s)). f_equal.
  apply Rsum_map_ext. intros p Hp. apply filter_In in Hp.
  destruct Hp as [_ Hp]. rewrite (kernel_sum_full s p Hp). ring.
Qed.

(** The theorem at one particle in the middle of a 4 x 4 x 4 grid: its
    region has 64 cells and the grid receives its whole mass. *)
Lemma rasterize_mass_conservation_example :
  total_grid_mass (rasterize example_simulation) = 1
  /\ fully_inside example_simulation centered_particle = true.
Proof.
  destruct axis_sum_centered as [Ly Sy].
  assert (Hf : fully_inside example_simulation centered_particle = true).
  { unfold fully_inside, region_of, get_bounded_rasterization_region.
    cbn [res example_simulation empty_grid_simulation pos centered_particle
         set_mass set_pos vx vy vz].
    rewrite length_cells, Ly. reflexivity. }
  split; [| exact Hf].
  destruct (rasterize_mass_conservation example_simulation) as [Ht _].
  rewrite Ht.
  cbn [particles example_simulation empty_grid_simulation filter].
  fold example_simulation. rewrite Hf.
  cbn [negb map Rsum fold_right mass centered_particle set_mass]. ring.
Defined.

(** ** Seeding, on an example *)

Lemma truncate_one : truncate 1 = 1%Z.
Proof.
  unfold truncate. destruct (Rle_dec 0 1); [| lra].
  apply Zfloor_eq. lra.
Qed.

(** With a density of one per cell, a grid of one cell receives exactly one
    particle, of the material the configuration names, with mass 1. *)
Lemma add_particles_unit_grid (config : Config) (tex : Z) :
  cfg_int config "density_tex" = Some tex ->
  exists s',
    add_particles example_externals constant_draws config unit_grid_simulation
    = Ok s'
    /\ particles s'
       = [fst (seed_particle constant_draws config (0, 0, 0)%Z 1)]
    /\ total_particle_mass s' = 1.
Proof.
  intros Htex. unfold add_particles. rewrite Htex.
  eexists. split; [reflexivity |].
  cbn [particles set_particles res unit_grid_simulation get_region].
  assert (Hcells : cells (interval 0 1) (interval 0 1) (interval 0 1)
                   = [(0, 0, 0)%Z]) by reflexivity.
  rewrite Hcells. cbn [fold_left].
  unfold seed_cell. cbn [fst snd texture_sample_x example_externals].
  rewrite truncate_one.
  assert (Hdraw : Rltb (constant_draws 0%nat) (1 - 1) = false)
    by (apply Rltb_false; unfold constant_draws; lra).
  rewrite Hdraw. change (Z.to_nat (1 + 0)) with 1%nat.
  cbn [seed_cell_loop fst snd].
  destruct (seed_particle constant_draws config (0, 0, 0)%Z 1) as [p n] eqn:E.
  cbn [seed_cell_loop fst snd app].
  split; [reflexivity |].
  unfold total_particle_mass. cbn [particles set_particles map Rsum fold_right].
  pose proof (seed_particle_mass constant_draws config (0, 0, 0)%Z 1) as Hm.
  rewrite E in Hm. unfold unit_mass in Hm. simpl in Hm. rewrite Hm. ring.
Qed.

Lemma add_particles_examples :
  (exists s' p,
      add_particles example_externals constant_draws example_config
                    unit_grid_simulation = Ok s'
      /\ particles s' = [p] /\ mass p = 1
      /\ material p = EP EPFields.init)
  /\ (exists s' p d,
         add_particles example_externals constant_draws
                       negative_compression_config unit_grid_simulation = Ok s'
         /\ particles s' = [p] /\ mass p = 1 /\ material p = DP d).
Proof.
  split.
  - destruct (add_particles_unit_grid example_config 0 eq_refl)
      as [s' [Hrun [Hps _]]].
    exists s'. eexists. split; [exact Hrun |]. split; [exact Hps |].
    split; reflexivity.
  - destruct (add_particles_unit_grid negative_compression_config 0 eq_refl)
      as [s' [Hrun [Hps _]]].
    exists s'. eexists. eexists. split; [exact Hrun |].
    split; [exact Hps |]. split; reflexivity.
Qed.

(** ** The kernel in binary32 *)

(** In binary32, in the order of the source, [w(2.0f)] is [-2^-23]: the
    rounded constants [1/6] and [4/3] do not cancel; [w(0.0f)] is the
    rounded [2/3]. *)
Lemma F32_w_at_two :
  F32.w (F32.of_Z 2) = S754_finite true 8388608 (-46)
  /\ F32.w (SFopp (F32.of_Z 2)) = S754_finite true 8388608 (-46)
  /\ SFeqb (F32.w (F32.of_Z 2)) (F32.of_Z 0) = false
  /\ F32.w (F32.of_Z 0) = F32.div (F32.of_Z 2) (F32.of_Z 3).
Proof. repeat split; vm_compute; reflexivity. Qed.

(** In binary32 the kernel is even on every float: [abs] removes the sign
    before anything is computed. *)
Lemma F32_w_even (x : spec_float) : F32.w (SFopp x) = F32.w x.
Proof. destruct x; reflexivity. Qed.

(* ================================================================== *)
(** * Further properties of the code *)

(** ** Moments of the kernel *)

Lemma dw_piece1 (y : R) : 0 <= y < 1 -> dw y = 1.5 * (y * y) - 2 * y.
Proof.
  intros [H0 H1]. rewrite dw_nonneg_arg by exact H0.
  destruct (Rlt_dec y 1); [reflexivity | lra].
Qed.

Lemma dw_piece2 (y : R) : 1 <= y -> dw y = -0.5 * (y * y) + 2 * y - 2.
Proof.
  intros H1. rewrite dw_nonneg_arg by lra.
  destruct (Rlt_dec y 1); [lra | reflexivity].
Qed.

(** The four weights around [x], seen from the particle. *)
Lemma four_weights_rev (x : R) :
  let b := Zfloor x in
  w (x - IZR (b - 1)) + w (x - IZR b) + w (x - IZR (b + 1))
  + w (x - IZR (b + 2)) = 1.
Proof.
  intros b. pose proof (four_weights x) as H. cbv zeta in H. fold b in H.
  rewrite <- H.
  rewrite <- (w_even (x - IZR (b - 1))), <- (w_even (x - IZR b)),
    <- (w_even (x - IZR (b + 1))), <- (w_even (x - IZR (b + 2))).
  repeat f_equal; ring.
Qed.

(** The first moment of the four weights vanishes. *)
Lemma four_moments (x : R) :
  let b := Zfloor x in
  w (IZR (b - 1) - x) * (IZR (b - 1) - x) + w (IZR b - x) * (IZR b - x)
  + w (IZR (b + 1) - x) * (IZR (b + 1) - x)
  + w (IZR (b + 2) - x) * (IZR (b + 2) - x) = 0.
Proof.
  intros b. pose proof (Zfloor_bound x) as [Hlo Hhi]. fold b in Hlo, Hhi.
  rewrite minus_IZR, !plus_IZR.
  set (f := x - IZR b).
  replace (IZR b - 1 - x) with (- (1 + f)) by (unfold f; ring).
  replace (IZR b - x) with (- f) by (unfold f; ring).
  replace (IZR b + 1 - x) with (1 - f) by (unfold f; ring).
  replace (IZR b + 2 - x) with (2 - f) by (unfold f; ring).
  assert (Hf : 0 <= f < 1) by (unfold f; lra).
  rewrite !w_even.
  rewrite (w_piece2 (1 + f)), (w_piece1 f), (w_piece2 (2 - f)) by lra.
  destruct (Req_dec f 0) as [Hz | Hnz].
  - rewrite (w_piece2 (1 - f)) by lra. rewrite Hz. lra.
  - rewrite (w_piece1 (1 - f)) by lra. lra.
Qed.

(** The four kernel derivatives around [x] add up to zero. *)
Lemma four_gradients (x : R) :
  let b := Zfloor x in
  dw (x - IZR (b - 1)) + dw (x - IZR b) + dw (x - IZR (b + 1))
  + dw (x - IZR (b + 2)) = 0.
Proof.
  intros b. pose proof (Zfloor_bound x) as [Hlo Hhi]. fold b in Hlo, Hhi.
  rewrite minus_IZR, !plus_IZR.
  set (f := x - IZR b).
  replace (x - (IZR b - 1)) with (1 + f) by (unfold f; ring).
  replace (x - IZR b) with f by (unfold f; ring).
  replace (x - (IZR b + 1)) with (- (1 - f)) by (unfold f; ring).
  replace (x - (IZR b + 2)) with (- (2 - f)) by (unfold f; ring).
  assert (Hf : 0 <= f < 1) by (unfold f; lra).
  rewrite !dw_odd.
  rewrite (dw_piece2 (1 + f)), (dw_piece1 f), (dw_piece2 (2 - f)) by lra.
  destruct (Req_dec f 0) as [Hz | Hnz].
  - rewrite (dw_piece2 (1 - f)) by lra. rewrite Hz. lra.
  - rewrite (dw_piece1 (1 - f)) by lra. lra.
Qed.

(** An axis with all four cells. *)
Lemma bounded_axis_full (n : Z) (x : R) :
  List.length (bounded_axis n x) = 4%nat ->
  bounded_axis n x
  = [Zfloor x - 1; Zfloor x; Zfloor x + 1; Zfloor x + 2]%Z.
Proof.
  unfold bounded_axis. cbn [filter].
  repeat match goal with
         | |- context [if ?c then _ else _] => destruct c
         end; cbn [List.length]; intros Hl; try discriminate Hl; reflexivity.
Qed.

Lemma full_region_cells (s : MPM3D) (p : Particle) :
  fully_inside s p = true ->
  List.length (bounded_axis (fst (fst (res s))) (vx (pos p))) = 4%nat
  /\ List.length (bounded_axis (snd (fst (res s))) (vy (pos p))) = 4%nat
  /\ List.length (bounded_axis (snd (res s)) (vz (pos p))) = 4%nat.
Proof.
  unfold fully_inside. rewrite Nat.eqb_eq.
  unfold region_of, get_bounded_rasterization_region.
  destruct (res s) as [[r0 r1] r2]. cbn [fst snd].
  rewrite length_cells. intros H.
  apply (full_region_axes _ _ _ (bounded_axis_length r0 (vx (pos p)))
           (bounded_axis_length r1 (vy (pos p)))
           (bounded_axis_length r2 (vz (pos p))) H).
Qed.

(** A sum over a box of cells of a product of three factors, one per axis. *)
Lemma Rsum_cells_product (f g h : Z -> R) (I J K : list Z) :
  Rsum (map (fun c : Index => f (fst (fst c)) * g (snd (fst c)) * h (snd c))
            (cells I J K))
  = Rsum (map f I) * Rsum (map g J) * Rsum (map h K).
Proof.
  unfold cells. rewrite Rsum_flat_map.
  rewrite (Rsum_map_ext _ (fun i => f i * (Rsum (map g J) * Rsum (map h K)))).
  - rewrite Rsum_map_scale_r. ring.
  - intros i _. rewrite Rsum_flat_map.
    rewrite (Rsum_map_ext _ (fun j => (f i * Rsum (map h K)) * g j)).
    + rewrite Rsum_map_scale_l. ring.
    + intros j _. rewrite map_map. cbn [fst snd].
      rewrite Rsum_map_scale_l. ring.
Qed.

Lemma Rsum_cells_product_ext (F : Index -> R) (f g h : Z -> R)
  (I J K : list Z) :
  (forall i j k, F (i, j, k) = f i * g j * h k) ->
  Rsum (map F (cells I J K))
  = Rsum (map f I) * Rsum (map g J) * Rsum (map h K).
Proof.
  intros H. rewrite <- Rsum_cells_product.
  apply Rsum_map_ext. intros [[i j] k] _. apply H.
Qed.

(** ** Sums of vectors *)

Lemma vec_ext (a b : Vector3) :
  vx a = vx b -> vy a = vy b -> vz a = vz b -> a = b.
Proof. destruct a, b. simpl. intros -> -> ->. reflexivity. Qed.

Lemma vsum_vx (l : list Vector3) : vx (vsum l) = Rsum (map vx l).
Proof. induction l as [| a l IH]; simpl; [reflexivity | now rewrite IH]. Qed.

Lemma vsum_vy (l : list Vector3) : vy (vsum l) = Rsum (map vy l).
Proof. induction l as [| a l IH]; simpl; [reflexivity | now rewrite IH]. Qed.

Lemma vsum_vz (l : list Vector3) : vz (vsum l) = Rsum (map vz l).
Proof. induction l as [| a l IH]; simpl; [reflexivity | now rewrite IH]. Qed.

Lemma vsum_map_ext {A : Type} (f g : A -> Vector3) (l : list A) :
  (forall a, In a l -> f a = g a) -> vsum (map f l) = vsum (map g l).
Proof.
  induction l as [| a l IH]; intros H; simpl; [reflexivity |].
  rewrite (H a) by (left; reflexivity). f_equal.
  apply IH. intros b Hb. apply H. right. exact Hb.
Qed.

Lemma vsum_map_plus {A : Type} (f g : A -> Vector3) (l : list A) :
  vsum (map (fun a => vadd (f a) (g a)) l)
  = vadd (vsum (map f l)) (vsum (map g l)).
Proof.
  induction l as [| a l IH]; simpl.
  - now rewrite vadd_0_l.
  - rewrite IH.
    generalize (f a) (g a) (vsum (map f l)) (vsum (map g l)).
    intros a1 a2 a3 a4. vec_eq.
Qed.

Lemma vsum_swap {A B : Type} (F : A -> B -> Vector3) (la : list A)
  (lb : list B) :
  vsum (map (fun a => vsum (map (F a) lb)) la)
  = vsum (map (fun b => vsum (map (fun a => F a b) la)) lb).
Proof.
  induction la as [| a la IH]; simpl.
  - symmetry. apply vsum_all_zero. reflexivity.
  - rewrite IH, <- vsum_map_plus. reflexivity.
Qed.

Lemma vsum_indicator (l : list Index) (c : Index) (a : Vector3) :
  NoDup l -> In c l ->
  vsum (map (fun ind => if Index_eqb ind c then a else vsplat 0) l) = a.
Proof.
  induction 1 as [| x l Hx Hnd IH]; intros Hin; [contradiction |].
  simpl. destruct Hin as [-> | Hin].
  - rewrite Index_eqb_refl. rewrite vsum_all_zero; [apply vadd_0_r |].
    intros y Hy. destruct (Index_eqb y c) eqn:E; [| reflexivity].
    apply Index_eqb_eq in E. subst y. contradiction.
  - assert (E : Index_eqb x c = false).
    { apply Index_eqb_neq. intros ->. contradiction. }
    rewrite E, IH by exact Hin. apply vadd_0_l.
Qed.

(** ** Linear momentum through [rasterize] *)

Lemma momentum_share_value (p : Particle) (ind c : Index) :
  momentum_share p ind c
  = if Index_eqb ind c then momentum_value p c else vsplat 0.
Proof. reflexivity. Qed.

(** Summed over the grid, the momentum gathered by the cells is what the
    particles handed out over their regions. *)
Lemma gathered_momentum_total (rs : Index) (ps : list Particle) :
  vsum (map (gathered_momentum rs ps) (get_region rs))
  = vsum (map (fun p => vsum (map (momentum_value p)
                                  (get_bounded_rasterization_region rs (pos p))))
              ps).
Proof.
  unfold gathered_momentum. rewrite vsum_swap.
  apply vsum_map_ext. intros p _. rewrite vsum_swap.
  apply vsum_map_ext. intros c Hc.
  rewrite (vsum_map_ext _ (fun ind => if Index_eqb ind c
                                      then momentum_value p c else vsplat 0))
    by (intros ind _; apply momentum_share_value).
  apply vsum_indicator.
  - apply NoDup_get_region.
  - apply (region_in_grid rs (pos p)). exact Hc.
Qed.

(** After [rasterize], cell mass times cell velocity is the momentum the
    cell gathered: the normalisation divides by the mass it is multiplied
    with, and a cell without mass gathered no momentum. *)
Lemma rasterize_cell_momentum (s : MPM3D) (ind : Index) :
  Forall (fun p => 0 <= mass p) (particles s) ->
  In ind (get_region (res s)) ->
  vscale (grid_mass (rasterize s) ind) (grid_velocity (rasterize s) ind)
  = gathered_momentum (res s) (particles s) ind.
Proof.
  intros Hm Hin. unfold rasterize.
  rewrite rasterize_with_mass, rasterize_with_velocity.
  assert (Hex : existsb (Index_eqb ind) (get_region (res s)) = true).
  { apply existsb_exists. exists ind. split; [exact Hin |].
    apply Index_eqb_refl. }
  rewrite Hex. cbn [andb].
  pose proof (gathered_mass_nonneg (res s) (particles s) ind Hm) as Hnn.
  destruct (Rltb 0 (gathered_mass (res s) (particles s) ind)) eqn:E.
  - apply Rltb_true in E.
    generalize dependent (gathered_mass (res s) (particles s) ind).
    intros m _ Hpos.
    destruct (gathered_momentum (res s) (particles s) ind) as [a b c].
    unfold vscale, vmuls. simpl. f_equal; field; lra.
  - apply Rltb_false in E.
    assert (Hz : gathered_mass (res s) (particles s) ind = 0) by lra.
    rewrite Hz, vscale_0. symmetry.
    apply gathered_momentum_zero; assumption.
Qed.

(** The first moment of the weights over a full region vanishes. *)
Lemma first_moment_full (s : MPM3D) (p : Particle) :
  fully_inside s p = true ->
  vsum (map (fun c => vscale (w3 (vsub (index_pos c) (pos p)))
                             (vsub (index_pos c) (pos p)))
            (region_of s p))
  = vsplat 0.
Proof.
  intros Hf. destruct (full_region_cells s p Hf) as (Lx & Ly & Lz).
  pose proof (axis_sum_full _ _ Lx) as Sx.
  pose proof (axis_sum_full _ _ Ly) as Sy.
  pose proof (axis_sum_full _ _ Lz) as Sz.
  unfold axis_sum in Sx, Sy, Sz.
  assert (Mx : Rsum (map (fun i => w (IZR i - vx (pos p)) * (IZR i - vx (pos p)))
                         (bounded_axis (fst (fst (res s))) (vx (pos p)))) = 0).
  { rewrite (bounded_axis_full _ _ Lx). cbn [map Rsum fold_right].
    pose proof (four_moments (vx (pos p))) as H. cbv zeta in H. lra. }
  assert (My : Rsum (map (fun i => w (IZR i - vy (pos p)) * (IZR i - vy (pos p)))
                         (bounded_axis (snd (fst (res s))) (vy (pos p)))) = 0).
  { rewrite (bounded_axis_full _ _ Ly). cbn [map Rsum fold_right].
    pose proof (four_moments (vy (pos p))) as H. cbv zeta in H. lra. }
  assert (Mz : Rsum (map (fun i => w (IZR i - vz (pos p)) * (IZR i - vz (pos p)))
                         (bounded_axis (snd (res s)) (vz (pos p)))) = 0).
  { rewrite (bounded_axis_full _ _ Lz). cbn [map Rsum fold_right].
    pose proof (four_moments (vz (pos p))) as H. cbv zeta in H. lra. }
  unfold region_of, get_bounded_rasterization_region.
  destruct (res s) as [[r0 r1] r2]. cbn [fst snd] in *.
  destruct (pos p) as [x y z]. cbn [vx vy vz] in *.
  apply vec_ext; cbn [vx vy vz vsplat].
  - rewrite vsum_vx, map_map.
    rewrite (Rsum_cells_product_ext _
               (fun i => w (IZR i - x) * (IZR i - x))
               (fun j => w (IZR j - y)) (fun k => w (IZR k - z))).
    + rewrite Mx. ring.
    + intros i j k. unfold w3. simpl. ring.
  - rewrite vsum_vy, map_map.
    rewrite (Rsum_cells_product_ext _
               (fun i => w (IZR i - x))
               (fun j => w (IZR j - y) * (IZR j - y))
               (fun k => w (IZR k - z))).
    + rewrite My. ring.
    + intros i j k. unfold w3. simpl. ring.
  - rewrite vsum_vz, map_map.
    rewrite (Rsum_cells_product_ext _
               (fun i => w (IZR i - x)) (fun j => w (IZR j - y))
               (fun k => w (IZR k - z) * (IZR k - z))).
    + rewrite Mz. ring.
    + intros i j k. unfold w3. simpl. ring.
Qed.

(** What a particle hands out over a list of cells: its velocity weighted
    by the mass it spreads, plus the affine term applied to the first
    moment. *)
Lemma momentum_value_sum (p : Particle) (l : list Index) :
  vsum (map (momentum_value p) l)
  = vadd (vscale (mass p
                  * Rsum (map (fun c => w3 (vsub (index_pos c) (pos p))) l))
                 (v p))
         (mvmul (mscale 3 (apic_b p))
                (vscale (mass p)
                   (vsum (map (fun c => vscale (w3 (vsub (index_pos c) (pos p)))
                                               (vsub (index_pos c) (pos p)))
                              l)))).
Proof.
  induction l as [| c l IH].
  - simpl. destruct (v p), (apic_b p). unfold vadd, vscale, mvmul, mscale, vsplat.
    simpl. f_equal; ring.
  - cbn [map vsum fold_right Rsum]. fold (vsum (map (momentum_value p) l)).
    fold (Rsum (map (fun c => w3 (vsub (index_pos c) (pos p))) l)).
    fold (vsum (map (fun c => vscale (w3 (vsub (index_pos c) (pos p)))
                                     (vsub (index_pos c) (pos p))) l)).
    rewrite IH. unfold momentum_value.
    generalize (vsum (map (fun c => vscale (w3 (vsub (index_pos c) (pos p)))
                                           (vsub (index_pos c) (pos p))) l)).
    generalize (Rsum (map (fun c => w3 (vsub (index_pos c) (pos p))) l)).
    generalize (w3 (vsub (index_pos c) (pos p))).
    generalize (vsub (index_pos c) (pos p)).
    generalize (v p) (apic_b p) (mass p).
    intros u B m d wc S M.
    destruct u, B, d, M. unfold vadd, vscale, mvmul, mscale. simpl.
    f_equal; ring.
Qed.

Lemma mvmul_zero (m : Matrix3) : mvmul m (vsplat 0) = vsplat 0.
Proof. unfold mvmul, vsplat. simpl. f_equal; ring. Qed.

(** [rasterize] conserves linear momentum: when every particle has its
    whole region inside the grid and no mass is negative, the grid holds,
    as the sum of cell mass times cell velocity, exactly the sum of particle
    mass times particle velocity; the affine term [apic_b] adds nothing to
    the total. *)
Theorem rasterize_conserves_momentum (s : MPM3D) :
  Forall (fun p => 0 <= mass p) (particles s) ->
  all_fully_inside s ->
  total_grid_momentum (rasterize s) = total_particle_momentum s.
Proof.
  intros Hm Hfull. unfold total_grid_momentum, total_particle_momentum.
  assert (Hres : res (rasterize s) = res s) by reflexivity.
  rewrite Hres.
  rewrite (vsum_map_ext _ (gathered_momentum (res s) (particles s)))
    by (intros ind Hin; apply rasterize_cell_momentum; assumption).
  rewrite gathered_momentum_total.
  apply vsum_map_ext. intros p Hp.
  unfold all_fully_inside in Hfull. rewrite Forall_forall in Hfull.
  specialize (Hfull p Hp).
  fold (region_of s p). rewrite momentum_value_sum.
  fold (kernel_sum s p).
  rewrite (kernel_sum_full s p Hfull), (first_moment_full s p Hfull).
  rewrite vscale_0_r, mvmul_zero, vadd_0_r, Rmult_1_r. reflexivity.
Qed.

Lemma centered_fully_inside (p : Particle) :
  pos p = vec3 1.5 1.5 1.5 ->
  fully_inside (empty_grid_simulation [p]) p = true.
Proof.
  intros Hp. destruct axis_sum_centered as [Ly _].
  unfold fully_inside, region_of, get_bounded_rasterization_region.
  cbn [res empty_grid_simulation]. rewrite Hp. cbn [vx vy vz].
  rewrite length_cells, Ly. reflexivity.
Qed.

(** The theorem at one moving particle with an affine term. *)
Lemma rasterize_conserves_momentum_example :
  total_grid_momentum (rasterize moving_simulation) = vec3 1 2 3.
Proof.
  rewrite (rasterize_conserves_momentum moving_simulation).
  - unfold total_particle_momentum.
    cbn [particles moving_simulation empty_grid_simulation map vsum fold_right].
    unfold vadd, vscale, vsplat. simpl. f_equal; lra.
  - cbn [particles moving_simulation empty_grid_simulation].
    constructor; [| constructor]. simpl. lra.
  - unfold all_fully_inside.
    cbn [particles moving_simulation empty_grid_simulation].
    constructor; [| constructor].
    apply (centered_fully_inside moving_particle). reflexivity.
Defined.

(** ** [resample] under a uniform grid velocity *)

Lemma w3_even (d : Vector3) : w3 (vneg d) = w3 d.
Proof. unfold w3, vneg. simpl. now rewrite !w_even. Qed.

Lemma vsub_swap (a b : Vector3) : vsub a b = vneg (vsub b a).
Proof. vec_eq. Qed.

Lemma vsum_map_scale {A : Type} (k : R) (f : A -> Vector3) (l : list A) :
  vsum (map (fun a => vscale k (f a)) l) = vscale k (vsum (map f l)).
Proof.
  induction l as [| a l IH]; simpl.
  - now rewrite vscale_0_r.
  - rewrite IH. generalize (f a) (vsum (map f l)). intros a1 a2.
    destruct a1, a2. unfold vadd, vscale. simpl. f_equal; ring.
Qed.

Lemma vsum_map_scale_vec {A : Type} (f : A -> R) (u : Vector3) (l : list A) :
  vsum (map (fun a => vscale (f a) u) l) = vscale (Rsum (map f l)) u.
Proof.
  induction l as [| a l IH]; simpl.
  - now rewrite vscale_0.
  - rewrite IH. destruct u. unfold vadd, vscale. simpl. f_equal; ring.
Qed.

Lemma kernel_sum_rev (s : MPM3D) (p : Particle) :
  Rsum (map (fun c => w3 (vsub (pos p) (index_pos c))) (region_of s p))
  = kernel_sum s p.
Proof.
  unfold kernel_sum. apply Rsum_map_ext. intros c _.
  rewrite (vsub_swap (pos p)). apply w3_even.
Qed.

Lemma first_moment_rev_full (s : MPM3D) (p : Particle) :
  fully_inside s p = true ->
  vsum (map (fun c => vscale (w3 (vsub (pos p) (index_pos c)))
                             (vsub (pos p) (index_pos c)))
            (region_of s p))
  = vsplat 0.
Proof.
  intros Hf.
  rewrite (vsum_map_ext _
             (fun c => vscale (-1)
                         (vscale (w3 (vsub (index_pos c) (pos p)))
                                 (vsub (index_pos c) (pos p))))).
  - rewrite vsum_map_scale, (first_moment_full s p Hf). apply vscale_0_r.
  - intros c _. rewrite (vsub_swap (pos p)), w3_even.
    generalize (w3 (vsub (index_pos c) (pos p))) (vsub (index_pos c) (pos p)).
    intros k d. destruct d. unfold vscale, vneg. simpl. f_equal; ring.
Qed.

(** The kernel gradients over a full region add up to zero. *)
Lemma gradient_sum_full (s : MPM3D) (p : Particle) :
  fully_inside s p = true ->
  vsum (map (fun c => dw3 (vsub (pos p) (index_pos c))) (region_of s p))
  = vsplat 0.
Proof.
  intros Hf. destruct (full_region_cells s p Hf) as (Lx & Ly & Lz).
  unfold region_of, get_bounded_rasterization_region.
  destruct (res s) as [[r0 r1] r2]. cbn [fst snd] in *.
  destruct (pos p) as [x y z]. cbn [vx vy vz] in *.
  assert (W : forall n t, List.length (bounded_axis n t) = 4%nat ->
                Rsum (map (fun i => w (t - IZR i)) (bounded_axis n t)) = 1).
  { intros n t L. rewrite (bounded_axis_full _ _ L). cbn [map Rsum fold_right].
    pose proof (four_weights_rev t) as H. cbv zeta in H. lra. }
  assert (G : forall n t, List.length (bounded_axis n t) = 4%nat ->
                Rsum (map (fun i => dw (t - IZR i)) (bounded_axis n t)) = 0).
  { intros n t L. rewrite (bounded_axis_full _ _ L). cbn [map Rsum fold_right].
    pose proof (four_gradients t) as H. cbv zeta in H. lra. }
  apply vec_ext; cbn [vx vy vz vsplat].
  - rewrite vsum_vx, map_map.
    rewrite (Rsum_cells_product_ext _
               (fun i => dw (x - IZR i)) (fun j => w (y - IZR j))
               (fun k => w (z - IZR k))).
    + rewrite (G _ _ Lx). ring.
    + intros i j k. reflexivity.
  - rewrite vsum_vy, map_map.
    rewrite (Rsum_cells_product_ext _
               (fun i => w (x - IZR i)) (fun j => dw (y - IZR j))
               (fun k => w (z - IZR k))).
    + rewrite (G _ _ Ly). ring.
    + intros i j k. reflexivity.
  - rewrite vsum_vz, map_map.
    rewrite (Rsum_cells_product_ext _
               (fun i => w (x - IZR i)) (fun j => w (y - IZR j))
               (fun k => dw (z - IZR k))).
    + rewrite (G _ _ Lz). ring.
    + intros i j k. reflexivity.
Qed.

Section UniformField.
Variables (s : MPM3D) (p : Particle) (u : Vector3).

Lemma resample_fold_cdg_uniform (l : list Index) (a : ResampleAcc) :
  (forall c, In c l -> grid_velocity s c = u) ->
  acc_cdg (fold_left (resample_cell s p) l a)
  = madd (acc_cdg a)
      (outerProduct u
         (vsum (map (fun c => dw3 (vsub (pos p) (index_pos c))) l))).
Proof.
  revert a. induction l as [| c l IH]; intros a Hu.
  - simpl. destruct (acc_cdg a), u.
    unfold madd, outerProduct, vsplat. simpl. f_equal; ring.
  - cbn [fold_left map vsum fold_right].
    rewrite IH by (intros c' Hc'; apply Hu; right; exact Hc').
    cbn [resample_cell acc_cdg]. rewrite (Hu c) by (left; reflexivity).
    fold (vsum (map (fun c => dw3 (vsub (pos p) (index_pos c))) l)).
    generalize (vsum (map (fun c => dw3 (vsub (pos p) (index_pos c))) l)).
    generalize (dw3 (vsub (pos p) (index_pos c))) (acc_cdg a).
    intros g m S. destruct g, m, S, u.
    unfold madd, outerProduct, vadd. simpl. f_equal; ring.
Qed.

Lemma resample_fold_b_uniform (l : list Index) (a : ResampleAcc) :
  (forall c, In c l -> grid_velocity s c = u) ->
  acc_b (fold_left (resample_cell s p) l a)
  = madd (acc_b a)
      (outerProduct u
         (vneg (vsum (map (fun c => vscale (w3 (vsub (pos p) (index_pos c)))
                                           (vsub (pos p) (index_pos c)))
                          l)))).
Proof.
  revert a. induction l as [| c l IH]; intros a Hu.
  - simpl. destruct (acc_b a), u.
    unfold madd, outerProduct, vneg, vsplat. simpl. f_equal; ring.
  - cbn [fold_left map vsum fold_right].
    rewrite IH by (intros c' Hc'; apply Hu; right; exact Hc').
    cbn [resample_cell acc_b]. rewrite (Hu c) by (left; reflexivity).
    fold (vsum (map (fun c => vscale (w3 (vsub (pos p) (index_pos c)))
                                     (vsub (pos p) (index_pos c))) l)).
    generalize (vsum (map (fun c => vscale (w3 (vsub (pos p) (index_pos c)))
                                           (vsub (pos p) (index_pos c))) l)).
    generalize (w3 (vsub (pos p) (index_pos c))) (vsub (pos p) (index_pos c))
               (acc_b a).
    intros k d m S. destruct d, m, S, u.
    unfold madd, mscale, outerProduct, vadd, vscale, vneg. simpl.
    f_equal; ring.
Qed.

Lemma interpolate_uniform (field : Array3D Vector3) (u0 : Vector3) :
  fully_inside s p = true ->
  uniform_on_region s field p u0 ->
  interpolate s field p = u0.
Proof.
  intros Hf Hu. unfold interpolate.
  rewrite (vsum_map_ext _
             (fun c => vscale (w3 (vsub (pos p) (index_pos c))) u0))
    by (intros c Hc; now rewrite (Hu c Hc)).
  rewrite vsum_map_scale_vec, kernel_sum_rev, (kernel_sum_full s p Hf).
  destruct u0. unfold vscale. simpl. f_equal; ring.
Qed.

End UniformField.

(** A grid that moves as a whole moves the particle with it and does not
    deform it: for a particle whose region is fully inside the grid and
    whose region cells all carry the velocity [u], [resample] leaves [dg_e]
    unchanged, stores [dg_e * dg_p] in [dg_cache], sets [apic_b] to zero,
    and gives the particle the velocity [u] (APIC), or its old velocity plus
    [u - u0] when APIC is off and the backed-up velocity is [u0] on the
    region. *)
Theorem resample_uniform_field (delta_t : R) (s : MPM3D) (p : Particle)
  (u : Vector3) :
  fully_inside s p = true ->
  uniform_on_region s (grid_velocity s) p u ->
  let p' := resample_particle delta_t s p in
  apic_b p' = mdiag 0
  /\ dg_e p' = dg_e p
  /\ dg_cache p' = mmul (dg_e p) (dg_p p)
  /\ (apic s = true -> v p' = u)
  /\ (forall u0, apic s = false ->
                 uniform_on_region s (grid_velocity_backup s) p u0 ->
                 v p' = vadd (v p) (vsub u u0)).
Proof.
  intros Hf Hu p'.
  assert (Hcdg : acc_cdg (resample_loop s p) = mdiag 0).
  { unfold resample_loop. rewrite (resample_fold_cdg_uniform s p u) by exact Hu.
    rewrite (gradient_sum_full s p Hf). cbn [acc_cdg]. destruct u.
    unfold madd, outerProduct, mdiag, vsplat. simpl. f_equal; ring. }
  assert (Hb : acc_b (resample_loop s p) = mdiag 0).
  { unfold resample_loop. rewrite (resample_fold_b_uniform s p u) by exact Hu.
    rewrite (first_moment_rev_full s p Hf). cbn [acc_b]. destruct u.
    unfold madd, outerProduct, mdiag, vneg, vsplat. simpl. f_equal; ring. }
  assert (Hone : madd (mdiag 1) (mscale delta_t (mdiag 0)) = mdiag 1).
  { unfold madd, mscale, mdiag. simpl. f_equal; ring. }
  destruct (resample_particle_resampled delta_t s p) as (_ & Hon & Hoff).
  fold p' in Hon, Hoff.
  split; [| split; [| split; [| split]]].
  - unfold p', resample_particle. cbn [apic_b set_dg_cache set_dg_e set_v
                                       set_apic_b].
    rewrite Hb. destruct (_ || _); reflexivity.
  - unfold p', resample_particle. cbn [dg_e set_dg_cache set_dg_e].
    rewrite Hcdg, Hone. apply mmul_1_l.
  - unfold p', resample_particle. cbn [dg_cache set_dg_cache].
    rewrite Hcdg, Hone, mmul_1_l. reflexivity.
  - intros Ha. rewrite (Hon Ha). apply interpolate_uniform; assumption.
  - intros u0 Ha Hu0. rewrite (Hoff Ha).
    rewrite (interpolate_uniform s p (grid_velocity s) u Hf Hu).
    rewrite (interpolate_uniform s p (grid_velocity_backup s) u0 Hf Hu0).
    reflexivity.
Qed.

(** The theorem at the moving particle under a drifting grid. *)
Lemma resample_uniform_field_example :
  let p' := resample_particle 0.001 drifting_simulation moving_particle in
  apic_b p' = mdiag 0
  /\ dg_e p' = dg_e moving_particle
  /\ v p' = vec3 1 2 3.
Proof.
  destruct (resample_uniform_field 0.001 drifting_simulation moving_particle
              (vec3 1 2 3)) as (H1 & H2 & _ & H4 & _).
  - destruct axis_sum_centered as [Ly _].
    unfold fully_inside, region_of, get_bounded_rasterization_region.
    cbn [res drifting_simulation pos moving_particle centered_particle
         set_apic_b set_v set_mass set_pos vx vy vz].
    rewrite length_cells, Ly. reflexivity.
  - intros c _. reflexivity.
  - cbv zeta. split; [exact H1 |]. split; [exact H2 |]. apply H4. reflexivity.
Defined.

(** ** Grid boundary conditions *)

Lemma boundary_cell_other (X : Externals) (t : R) (gv : Array3D Vector3)
  (c ind : Index) :
  ind <> c -> boundary_cell X t gv c ind = gv ind.
Proof.
  intros Hne. unfold boundary_cell.
  destruct (Rltb 1 _); [reflexivity |]. apply store_other. exact Hne.
Qed.

Lemma boundary_cell_local (X : Externals) (t : R) (gv gv' : Array3D Vector3)
  (c : Index) :
  gv c = gv' c -> boundary_cell X t gv c c = boundary_cell X t gv' c c.
Proof.
  intros H. unfold boundary_cell. rewrite H.
  destruct (Rltb 1 _); [exact H |]. now rewrite !store_same.
Qed.

(** Each cell of the list is rewritten once, from its own old velocity. *)
Lemma boundary_cells (X : Externals) (t : R) (l : list Index)
  (gv : Array3D Vector3) (ind : Index) :
  NoDup l ->
  fold_left (boundary_cell X t) l gv ind
  = if existsb (Index_eqb ind) l then boundary_cell X t gv ind ind
    else gv ind.
Proof.
  intros Hnd. revert gv.
  induction Hnd as [| c l Hc _ IH]; intros gv; [reflexivity |].
  cbn [fold_left existsb]. rewrite IH.
  destruct (Index_eqb ind c) eqn:E.
  - apply Index_eqb_eq in E. subst c.
    assert (Hn : existsb (Index_eqb ind) l = false).
    { destruct (existsb (Index_eqb ind) l) eqn:Ex; [| reflexivity].
      apply existsb_exists in Ex. destruct Ex as [y [Hy Ey]].
      apply Index_eqb_eq in Ey. subst y. contradiction. }
    rewrite Hn. reflexivity.
  - apply Index_eqb_neq in E. cbn [orb].
    destruct (existsb (Index_eqb ind) l).
    + apply boundary_cell_local. apply boundary_cell_other. exact E.
    + apply boundary_cell_other. exact E.
Qed.

Lemma in_region_existsb (rs : Index) (ind : Index) :
  In ind (get_region rs) -> existsb (Index_eqb ind) (get_region rs) = true.
Proof.
  intros H. apply existsb_exists. exists ind. split; [exact H |].
  apply Index_eqb_refl.
Qed.

Lemma not_in_region_existsb (rs : Index) (ind : Index) :
  ~ In ind (get_region rs) -> existsb (Index_eqb ind) (get_region rs) = false.
Proof.
  intros H. destruct (existsb _ _) eqn:E; [| reflexivity].
  apply existsb_exists in E. destruct E as [y [Hy Ey]].
  apply Index_eqb_eq in Ey. subst y. contradiction.
Qed.

Lemma boundary_conditions_at (X : Externals) (t : R) (s : MPM3D)
  (ind : Index) :
  In ind (get_region (res s)) ->
  grid_velocity (grid_apply_boundary_conditions X t s) ind
  = boundary_cell X t (grid_velocity s) ind ind.
Proof.
  intros Hin. unfold grid_apply_boundary_conditions.
  cbn [grid_velocity set_grid_velocity].
  rewrite boundary_cells by apply NoDup_get_region.
  now rewrite in_region_existsb.
Qed.

(** The simple cases of the grid boundary conditions.  A cell farther than
    1 from the boundary, and every index outside the grid, keeps its
    velocity; a cell at or inside the boundary ([phi <= 0]), and a cell in
    the band [0 < phi <= 1] of a sticky boundary (negative friction), gets
    the velocity of the boundary.  Mass, particles and clock are not
    touched. *)
Theorem boundary_conditions_cases (X : Externals) (t : R) (s : MPM3D) :
  let s' := grid_apply_boundary_conditions X t s in
  (forall ind, In ind (get_region (res s)) ->
     let phi := levelset_sample X (index_pos ind) t in
     (1 < phi -> grid_velocity s' ind = grid_velocity s ind)
     /\ (phi <= 0 -> grid_velocity s' ind = boundary_velocity_at X t ind)
     /\ (0 < phi <= 1 -> levelset_friction X < 0 ->
         grid_velocity s' ind = boundary_velocity_at X t ind))
  /\ (forall ind, ~ In ind (get_region (res s)) ->
        grid_velocity s' ind = grid_velocity s ind)
  /\ grid_mass s' = grid_mass s /\ particles s' = particles s
  /\ current_t s' = current_t s.
Proof.
  intros s'. split; [| split; [| repeat split]].
  - intros ind Hin phi. unfold s'. rewrite (boundary_conditions_at X t s ind Hin).
    unfold boundary_cell. fold phi. unfold boundary_velocity_at.
    split; [| split].
    + intros H. apply Rltb_true in H. now rewrite H.
    + intros H.
      assert (H1 : Rltb 1 phi = false) by (apply Rltb_false; lra).
      assert (H2 : Rltb 0 phi = false) by (apply Rltb_false; lra).
      assert (H3 : Rleb phi 0 = true) by (apply Rleb_true; lra).
      rewrite H1, H2, H3, store_same. apply vadd_0_l.
    + intros [Ha Hb] Hmu.
      assert (H1 : Rltb 1 phi = false) by (apply Rltb_false; lra).
      assert (H2 : Rltb 0 phi = true) by (apply Rltb_true; lra).
      assert (H3 : Rltb (levelset_friction X) 0 = true)
        by (apply Rltb_true; lra).
      rewrite H1, H2, H3, store_same. apply vadd_0_l.
  - intros ind Hout. unfold s', grid_apply_boundary_conditions.
    cbn [grid_velocity set_grid_velocity].
    rewrite boundary_cells by apply NoDup_get_region.
    now rewrite not_in_region_existsb.
Qed.

Lemma vdot_contact (v0 n t1 : Vector3) (p f : R) :
  vdot (vadd (vadd v0 (vmuls n p)) (vmuls t1 f)) n
  = vdot v0 n + p * vdot n n + f * vdot t1 n.
Proof. destruct v0, n, t1. unfold vdot, vadd, vmuls. simpl. ring. Qed.

Lemma vdot_contact_tangent (v0 n t1 : Vector3) (p f : R) :
  vdot (vadd (vadd v0 (vmuls n p)) (vmuls t1 f)) t1
  = vdot t1 v0 + p * vdot t1 n + f * vdot t1 t1.
Proof. destruct v0, n, t1. unfold vdot, vadd, vmuls. simpl. ring. Qed.

Lemma tangential_orthogonal (v0 n : Vector3) :
  vdot n n = 1 -> vdot (vsub v0 (vmuls n (vdot v0 n))) n = 0.
Proof.
  intros Hn.
  transitivity (vdot v0 n - vdot v0 n * vdot n n).
  - destruct v0, n. unfold vdot, vsub, vmuls. simpl. ring.
  - rewrite Hn. ring.
Qed.

Lemma tangential_dot_self (v0 n : Vector3) :
  vdot n n = 1 ->
  let t0 := vsub v0 (vmuls n (vdot v0 n)) in
  vdot t0 v0 = vdot t0 t0.
Proof.
  intros Hn t0.
  assert (Ho : vdot t0 n = 0) by (apply tangential_orthogonal; exact Hn).
  transitivity (vdot t0 t0 + vdot v0 n * vdot t0 n).
  - unfold t0. destruct v0, n. unfold vdot, vsub, vmuls. simpl. ring.
  - rewrite Ho. ring.
Qed.

Lemma vdot_vscale_l (k : R) (a b : Vector3) :
  vdot (vscale k a) b = k * vdot a b.
Proof. destruct a, b. unfold vdot, vscale. simpl. ring. Qed.

Lemma vdot_vscale_both (k : R) (a : Vector3) :
  vdot (vscale k a) (vscale k a) = k * k * vdot a a.
Proof. destruct a. unfold vdot, vscale. simpl. ring. Qed.

Lemma vdot_self_nonneg (a : Vector3) : 0 <= vdot a a.
Proof. destruct a. unfold vdot. simpl. nra. Qed.

Lemma vlength_square (a : Vector3) : vlength a * vlength a = vdot a a.
Proof. unfold vlength. apply sqrt_sqrt. apply vdot_self_nonneg. Qed.

Lemma Rmax_shift (a : R) : a + Rmax (- a) 0 = Rmax a 0.
Proof. unfold Rmax. destruct (Rle_dec (- a) 0), (Rle_dec a 0); lra. Qed.

Lemma relative_after (a b : Vector3) : vsub (vadd a b) b = a.
Proof. vec_eq. Qed.

(** Contact with friction.  For a cell in the band [0 < phi <= 1] of a
    boundary with friction [mu >= 0] and a unit normal [n]: after the grid
    boundary conditions the velocity relative to the boundary has normal
    component [max (v . n, 0)] (an approaching cell stops approaching, a
    separating one keeps separating), and, when the tangential part is
    longer than 1e-6, tangential speed [max (|t| - mu * pressure, 0)] along
    it: friction slows the sliding by at most [mu * pressure] and never
    reverses it. *)
Theorem boundary_conditions_friction (X : Externals) (t : R) (s : MPM3D)
  (ind : Index) :
  In ind (get_region (res s)) ->
  0 < levelset_sample X (index_pos ind) t <= 1 ->
  0 <= levelset_friction X ->
  vdot (levelset_get_spatial_gradient X (index_pos ind) t)
       (levelset_get_spatial_gradient X (index_pos ind) t) = 1 ->
  let n := levelset_get_spatial_gradient X (index_pos ind) t in
  let v0 := relative_velocity X t s ind in
  let v1 := relative_velocity X t (grid_apply_boundary_conditions X t s) ind in
  let pressure := Rmax (- vdot v0 n) 0 in
  vdot v1 n = Rmax (vdot v0 n) 0
  /\ (0.000001 < vlength (tangential_part X t s ind) ->
      vdot v1 (tangent_direction X t s ind)
      = Rmax (vlength (tangential_part X t s ind)
              - levelset_friction X * pressure) 0).
Proof.
  intros Hin [Hphi0 Hphi1] Hmu Hn n v0 v1 pressure.
  change (vdot n n = 1) in Hn.
  assert (Hv1 : v1 = vadd (vadd v0 (vmuls n pressure))
                          (vmuls (tangent_direction X t s ind)
                                 (- clamp (vdot (tangent_direction X t s ind) v0)
                                          (- levelset_friction X * pressure)
                                          (levelset_friction X * pressure)))).
  { unfold v1, relative_velocity at 1.
    rewrite (boundary_conditions_at X t s ind Hin). unfold boundary_cell.
    assert (H1 : Rltb 1 (levelset_sample X (index_pos ind) t) = false)
      by (apply Rltb_false; lra).
    assert (H2 : Rltb 0 (levelset_sample X (index_pos ind) t) = true)
      by (apply Rltb_true; lra).
    assert (H3 : Rltb (levelset_friction X) 0 = false)
      by (apply Rltb_false; lra).
    rewrite H1, H2, H3, store_same.
    unfold boundary_velocity_at. rewrite relative_after. reflexivity. }
  set (t0 := tangential_part X t s ind).
  set (tdir := tangent_direction X t s ind) in *.
  assert (Ht0n : vdot t0 n = 0)
    by (unfold t0, tangential_part; apply tangential_orthogonal; exact Hn).
  assert (Htdir : tdir = if Rltb 0.000001 (vlength t0)
                         then vnormalize t0 else t0) by reflexivity.
  assert (Htn : vdot tdir n = 0).
  { rewrite Htdir. destruct (Rltb 0.000001 (vlength t0)); [| exact Ht0n].
    unfold vnormalize. rewrite vdot_vscale_l, Ht0n. ring. }
  split.
  - rewrite Hv1, vdot_contact, Hn, Htn.
    unfold pressure. rewrite <- (Rmax_shift (vdot v0 n)). ring.
  - intros Hlen.
    assert (Hl : Rltb 0.000001 (vlength t0) = true) by (apply Rltb_true; lra).
    rewrite Hl in Htdir.
    pose proof (vlength_square t0) as Hsq.
    assert (Hpos : 0 < vlength t0) by lra.
    assert (Hunit : vdot tdir tdir = 1).
    { rewrite Htdir. unfold vnormalize. rewrite vdot_vscale_both, <- Hsq.
      field. lra. }
    assert (Hdot : vdot tdir v0 = vlength t0).
    { rewrite Htdir. unfold vnormalize. rewrite vdot_vscale_l.
      unfold t0, tangential_part. fold n v0.
      rewrite (tangential_dot_self v0 n Hn).
      change (vsub v0 (vmuls n (vdot v0 n))) with t0.
      rewrite <- Hsq. field. lra. }
    rewrite Hv1, vdot_contact_tangent, Htn, Hunit, Hdot.
    assert (Hp : 0 <= pressure) by (unfold pressure; apply Rmax_r).
    assert (Hmp : 0 <= levelset_friction X * pressure)
      by (apply Rmult_le_pos; assumption).
    unfold clamp, Rmax.
    destruct (Rlt_dec (vlength t0) (- levelset_friction X * pressure)),
      (Rlt_dec (levelset_friction X * pressure) (vlength t0)),
      (Rle_dec (vlength t0 - levelset_friction X * pressure) 0); lra.
Qed.

(** The theorem at a cell sliding towards a floor. *)
Lemma boundary_conditions_friction_example :
  let v1 := relative_velocity floor_externals 0
              (grid_apply_boundary_conditions floor_externals 0
                 sliding_simulation) (1, 1, 1)%Z in
  vdot v1 (vec3 0 1 0) = 0.
Proof.
  destruct (boundary_conditions_friction floor_externals 0 sliding_simulation
              (1, 1, 1)%Z) as [Hn _].
  - unfold sliding_simulation, get_region. cbn [res].
    apply in_cells. rewrite !in_interval. lia.
  - simpl. lra.
  - simpl. lra.
  - unfold vdot. simpl. lra.
  - cbv zeta in Hn. cbv zeta. 
    cbn [levelset_get_spatial_gradient floor_externals] in Hn.
    rewrite Hn. unfold relative_velocity, boundary_velocity_at, Rmax.
    cbn [grid_velocity sliding_simulation levelset_get_temporal_derivative
         levelset_get_spatial_gradient floor_externals].
    destruct (Rle_dec _ _) as [H | H]; [reflexivity |].
    exfalso. apply H. unfold vdot, vsub, vscale. simpl. lra.
Defined.

(** ** Advection *)


Lemma in_domain_cell_of (rs : Index) (x : Vector3) :
  in_domain rs x -> In (cell_of x) (get_region rs).
Proof.
  destruct rs as [[r0 r1] r2]. unfold in_domain, cell_of, get_region.
  intros ([Hx0 Hx1] & [Hy0 Hy1] & [Hz0 Hz1]).
  assert (F : forall (t : R) (r : Z), 0 <= t < IZR r -> (0 <= Zfloor t < r)%Z).
  { intros t r [H0 H1]. pose proof (Zfloor_bound t) as [Hlo Hhi]. split.
    - apply Zfloor_lub. simpl. exact H0.
    - apply lt_IZR. lra. }
  apply in_cells. rewrite !in_interval. auto.
Qed.



(** ** What a step keeps *)





(** ** Where and how many particles are seeded *)

Lemma seed_particle_pos (rnd : RandomSource) (config : Config) (i j k : Z)
  (n : nat) :
  pos (fst (seed_particle rnd config (i, j, k) n))
  = vec3 (IZR i + rnd n) (IZR j + rnd (S n)) (IZR k + rnd (S (S n))).
Proof. reflexivity. Qed.

Lemma seed_particle_in_cell (rnd : RandomSource) (config : Config)
  (ind : Index) (n : nat) :
  (forall m, 0 <= rnd m < 1) ->
  in_cell ind (pos (fst (seed_particle rnd config ind n))).
Proof.
  intros Hr. destruct ind as [[i j] k]. rewrite seed_particle_pos.
  unfold in_cell. cbn [vx vy vz].
  pose proof (Hr n). pose proof (Hr (S n)). pose proof (Hr (S (S n))).
  repeat split; lra.
Qed.

Lemma seed_cell_loop_spec (rnd : RandomSource) (config : Config)
  (ind : Index) (t : nat) (acc : list Particle * nat) :
  exists created,
    fst (seed_cell_loop rnd config ind t acc) = fst acc ++ created
    /\ List.length created = t
    /\ ((forall m, 0 <= rnd m < 1) ->
        Forall (fun p => in_cell ind (pos p)) created).
Proof.
  revert acc. induction t as [| t IH]; intros acc; simpl.
  - exists []. split; [now rewrite app_nil_r |]. split; [reflexivity |].
    constructor.
  - pose proof (seed_particle_in_cell rnd config ind (snd acc)) as Hc.
    destruct (seed_particle rnd config ind (snd acc)) as [p n].
    destruct (IH (fst acc ++ [p], n)) as [created (E & L & F)].
    exists (p :: created). split; [| split].
    + rewrite E. simpl. now rewrite <- app_assoc.
    + simpl. now rewrite L.
    + intros Hr. constructor; [apply Hc; exact Hr | apply F; exact Hr].
Qed.

Lemma in_cell_in_domain (rs ind : Index) (x : Vector3) :
  In ind (get_region rs) -> in_cell ind x -> in_domain rs x.
Proof.
  destruct rs as [[r0 r1] r2], ind as [[i j] k].
  unfold get_region, in_cell, in_domain.
  rewrite in_cells, !in_interval.
  intros ([Hi0 Hi1] & [Hj0 Hj1] & [Hk0 Hk1]) (Hx & Hy & Hz).
  assert (F : forall a r : Z, (0 <= a < r)%Z -> 0 <= IZR a /\ IZR a + 1 <= IZR r).
  { intros a r [H0 H1]. split.
    - apply (IZR_le 0). exact H0.
    - rewrite <- (plus_IZR a 1). apply IZR_le. lia. }
  destruct (F i r0 (conj Hi0 Hi1)), (F j r1 (conj Hj0 Hj1)),
    (F k r2 (conj Hk0 Hk1)).
  repeat split; lra.
Qed.

Lemma truncate_IZR (d : Z) : (0 <= d)%Z -> truncate (IZR d) = d.
Proof.
  intros Hd. unfold truncate.
  destruct (Rle_dec 0 (IZR d)) as [_ | Hn].
  - apply Zfloor_eq. lra.
  - exfalso. apply Hn. apply (IZR_le 0). exact Hd.
Qed.

Lemma seed_cell_spec (X : Externals) (rnd : RandomSource) (config : Config)
  (rs : Index) (tex : Z) (acc : list Particle * nat) (ind : Index) :
  In ind (get_region rs) ->
  exists created,
    fst (seed_cell X rnd config rs tex acc ind) = fst acc ++ created
    /\ ((forall m, 0 <= rnd m < 1) ->
        Forall (fun p => in_domain rs (pos p)) created)
    /\ (forall d, (0 <= d)%Z ->
                  (forall coord, texture_sample_x X tex coord = IZR d) ->
                  (forall m, 0 <= rnd m) ->
                  List.length created = Z.to_nat d).
Proof.
  intros Hin. unfold seed_cell.
  destruct ind as [[i j] k] eqn:Ei. destruct rs as [[r0 r1] r2] eqn:Er.
  match goal with
  | |- context [seed_cell_loop rnd config (i, j, k) ?t ?a] =>
      destruct (seed_cell_loop_spec rnd config (i, j, k) t a)
        as [created (E & L & F)]
  end.
  exists created. split; [exact E |]. split.
  - intros Hr. specialize (F Hr). rewrite Forall_forall in *.
    intros p Hp. apply (in_cell_in_domain (r0, r1, r2) (i, j, k)).
    + exact Hin.
    + apply F. exact Hp.
  - intros d Hd Htex Hr. rewrite L, Htex, (truncate_IZR d Hd).
    assert (Hf : Rltb (rnd (snd acc)) (IZR d - IZR d) = false).
    { apply Rltb_false. specialize (Hr (snd acc)). lra. }
    rewrite Hf. f_equal. lia.
Qed.

Lemma seed_cells_spec (X : Externals) (rnd : RandomSource) (config : Config)
  (rs : Index) (tex : Z) (l : list Index) (acc : list Particle * nat) :
  (forall c, In c l -> In c (get_region rs)) ->
  exists created,
    fst (fold_left (seed_cell X rnd config rs tex) l acc) = fst acc ++ created
    /\ ((forall m, 0 <= rnd m < 1) ->
        Forall (fun p => in_domain rs (pos p)) created)
    /\ (forall d, (0 <= d)%Z ->
                  (forall coord, texture_sample_x X tex coord = IZR d) ->
                  (forall m, 0 <= rnd m) ->
                  List.length created = (Z.to_nat d * List.length l)%nat).
Proof.
  revert acc. induction l as [| c l IH]; intros acc Hl; simpl.
  - exists []. split; [now rewrite app_nil_r |]. split; [constructor |].
    intros. simpl. lia.
  - destruct (seed_cell_spec X rnd config rs tex acc c)
      as [c1 (E1 & F1 & N1)]; [apply Hl; left; reflexivity |].
    destruct (IH (seed_cell X rnd config rs tex acc c))
      as [c2 (E2 & F2 & N2)]; [intros c' Hc'; apply Hl; right; exact Hc' |].
    exists (c1 ++ c2). split; [| split].
    + rewrite E2, E1. now rewrite <- app_assoc.
    + intros Hr. apply Forall_app. split; [apply F1 | apply F2]; exact Hr.
    + intros d Hd Htex Hr. rewrite length_app.
      rewrite (N1 d Hd Htex Hr), (N2 d Hd Htex Hr). lia.
Qed.

Lemma length_interval (r : Z) : List.length (interval 0 r) = Z.to_nat r.
Proof.
  unfold interval. rewrite length_map, length_seq. f_equal. lia.
Qed.

Lemma length_get_region (rs : Index) :
  List.length (get_region rs)
  = (Z.to_nat (fst (fst rs)) * (Z.to_nat (snd (fst rs)) * Z.to_nat (snd rs)))%nat.
Proof.
  destruct rs as [[r0 r1] r2]. unfold get_region. cbn [fst snd].
  now rewrite length_cells, !length_interval.
Qed.

(** Seeded particles lie in the box of the grid.  When [rand()] returns
    values in [[0, 1)], every particle [add_particles] creates has its
    position in the closed box [[0, res]]; the particles that were there
    before are kept, in front. *)
Theorem seeded_particles_in_domain (X : Externals) (rnd : RandomSource)
  (config : Config) (s s' : MPM3D) :
  (forall m, 0 <= rnd m < 1) ->
  add_particles X rnd config s = Ok s' ->
  exists created,
    particles s' = particles s ++ created
    /\ Forall (fun p => in_closed_domain (res s) (pos p)) created
    /\ res s' = res s.
Proof.
  intros Hr. unfold add_particles.
  destruct (cfg_int config "density_tex") as [tex |]; [| discriminate].
  intros H. injection H as <-.
  destruct (seed_cells_spec X rnd config (res s) tex (get_region (res s))
              (particles s, O)) as [created (E & F & _)]; [auto |].
  exists created. cbn [particles set_particles res]. simpl in E.
  split; [exact E |]. split; [| reflexivity].
  specialize (F Hr). rewrite Forall_forall in *. intros p Hp.
  specialize (F p Hp). destruct (res s) as [[r0 r1] r2].
  unfold in_domain in F. unfold in_closed_domain.
  destruct F as (Hx & Hy & Hz). repeat split; lra.
Qed.

(** The theorem on a grid of one cell. *)
Lemma seeded_particles_in_domain_example :
  exists s',
    add_particles example_externals constant_draws example_config
                  unit_grid_simulation = Ok s'
    /\ Forall (fun p => in_closed_domain (1, 1, 1)%Z (pos p)) (particles s').
Proof.
  destruct (add_particles_unit_grid example_config 0 eq_refl)
    as [s' [Hrun _]].
  exists s'. split; [exact Hrun |].
  destruct (seeded_particles_in_domain example_externals constant_draws
              example_config unit_grid_simulation s')
    as [created (E & F & _)].
  - intros m. unfold constant_draws. lra.
  - exact Hrun.
  - rewrite E. simpl. rewrite Forall_forall in *. intros p Hp.
    apply (F p Hp).
Defined.

(** An integer density is seeded exactly.  When the density texture is the
    integer [d >= 0] everywhere and [rand()] is never negative, every cell
    receives exactly [d] particles: [add_particles] completes and adds
    [d * res0 * res1 * res2] particles. *)
Theorem integer_density_count (X : Externals) (rnd : RandomSource)
  (config : Config) (s : MPM3D) (tex d : Z) :
  cfg_int config "density_tex" = Some tex ->
  (0 <= d)%Z ->
  (forall coord, texture_sample_x X tex coord = IZR d) ->
  (forall m, 0 <= rnd m) ->
  exists s',
    add_particles X rnd config s = Ok s'
    /\ List.length (particles s')
       = (List.length (particles s)
          + Z.to_nat d * (Z.to_nat (fst (fst (res s)))
                          * (Z.to_nat (snd (fst (res s)))
                             * Z.to_nat (snd (res s)))))%nat.
Proof.
  intros Htex Hd Hden Hr. unfold add_particles. rewrite Htex.
  eexists. split; [reflexivity |].
  destruct (seed_cells_spec X rnd config (res s) tex (get_region (res s))
              (particles s, O)) as [created (E & _ & N)]; [auto |].
  cbn [particles set_particles]. simpl in E. rewrite E, length_app.
  rewrite (N d Hd Hden Hr), length_get_region. reflexivity.
Qed.

(** The theorem on an empty 4 x 4 x 4 grid with density one: 64
    particles. *)
Lemma integer_density_count_example :
  exists s',
    add_particles example_externals constant_draws example_config
                  (empty_grid_simulation []) = Ok s'
    /\ List.length (particles s') = 64%nat.
Proof.
  destruct (integer_density_count example_externals constant_draws
              example_config (empty_grid_simulation []) 0 1)
    as [s' [Hrun Hlen]].
  - reflexivity.
  - lia.
  - intros coord. reflexivity.
  - intros m. unfold constant_draws. lra.
  - exists s'. split; [exact Hrun |]. rewrite Hlen. reflexivity.
Defined.

(** ** More matrix algebra *)

Lemma mmul_assoc (a b c : Matrix3) : mmul a (mmul b c) = mmul (mmul a b) c.
Proof. destruct a, b, c. unfold mmul. simpl. f_equal; ring. Qed.

Lemma mmul_inverse_r (a : Matrix3) :
  det a <> 0 -> mmul a (inverse a) = mdiag 1.
Proof.
  intros H. destruct a. unfold inverse, mmul, mdiag, det in *. simpl in *.
  f_equal; field; exact H.
Qed.

Lemma mmul_inverse_l (a : Matrix3) :
  det a <> 0 -> mmul (inverse a) a = mdiag 1.
Proof.
  intros H. destruct a. unfold inverse, mmul, mdiag, det in *. simpl in *.
  f_equal; field; exact H.
Qed.

Lemma mmul_0_l (a : Matrix3) : mmul (mdiag 0) a = mdiag 0.
Proof. destruct a. unfold mmul, mdiag. simpl. f_equal; ring. Qed.

Lemma mmul_0_r (a : Matrix3) : mmul a (mdiag 0) = mdiag 0.
Proof. destruct a. unfold mmul, mdiag. simpl. f_equal; ring. Qed.

Lemma mscale_0_r (k : R) : mscale k (mdiag 0) = mdiag 0.
Proof. unfold mscale, mdiag. simpl. f_equal; ring. Qed.

Lemma mvmul_0_l (x : Vector3) : mvmul (mdiag 0) x = vsplat 0.
Proof. destruct x. unfold mvmul, mdiag, vsplat. simpl. f_equal; ring. Qed.

Lemma mscale_0_l (a : Matrix3) : mscale 0 a = mdiag 0.
Proof. destruct a. unfold mscale, mdiag. simpl. f_equal; ring. Qed.

Lemma madd_0_l (a : Matrix3) : madd (mdiag 0) a = a.
Proof. destruct a. unfold madd, mdiag. simpl. f_equal; ring. Qed.

Lemma madd_0_r (a : Matrix3) : madd a (mdiag 0) = a.
Proof. destruct a. unfold madd, mdiag. simpl. f_equal; ring. Qed.

Lemma msub_diag (a : Matrix3) : msub a a = mdiag 0.
Proof. destruct a. unfold msub, mdiag. simpl. f_equal; ring. Qed.

(** ** Plasticity keeps the total deformation *)




Lemma ep_plasticity_dg_p_exact (X : Externals) (e : EPFields.t)
  (p : Particle) :
  dg_p (EPParticle3.plasticity X e p)
  = let '(u, sig, sv) :=
        svd X (mmul (inverse (dg_e (EPParticle3.plasticity X e p)))
                    (dg_cache p)) in
    mmul (mmul u (clamp_diagonal sig 0.1 10)) (transpose sv).
Proof.
  rewrite ep_plasticity_dg_e. unfold EPParticle3.plasticity.
  destruct (svd X (dg_e p)) as [[u sig] sv].
  destruct (svd X _) as [[u' sig'] sv']. reflexivity.
Qed.

(** The elastoplastic [plasticity] splits the cached total deformation:
    when the new [dg_e] is invertible and the plastic part it leaves has
    singular values in [[0.1, 10]] (the second clamp is idle) under a
    decomposition that reconstructs it, the new [dg_e * dg_p] equals
    [dg_cache]; and [resample] caches exactly the new elastic part times
    the old plastic part. *)
Theorem ep_plasticity_splits_cache (X : Externals) (e : EPFields.t)
  (p : Particle) :
  let p' := EPParticle3.plasticity X e p in
  let m := mmul (inverse (dg_e p')) (dg_cache p) in
  det (dg_e p') <> 0 ->
  reconstructs m (svd X m) ->
  singular_values_within 0.1 10 (svd X m) ->
  mmul (dg_e p') (dg_p p') = dg_cache p
  /\ (forall delta_t s p0,
         dg_cache (resample_particle delta_t s p0)
         = mmul (dg_e (resample_particle delta_t s p0)) (dg_p p0)).
Proof.
  intros p' m Hdet Hrec Hin. split; [| reflexivity].
  unfold p' at 2. rewrite ep_plasticity_dg_p_exact. fold p' m.
  unfold reconstructs, singular_values_within in *.
  destruct (svd X m) as [[u sig] sv]. destruct Hin as (H0 & H1 & H2).
  rewrite clamp_diagonal_inside by assumption. rewrite Hrec.
  unfold m. rewrite mmul_assoc, mmul_inverse_r by exact Hdet.
  apply mmul_1_l.
Qed.

(** The theorem at a fresh particle with the identity cached. *)
Lemma ep_plasticity_splits_cache_example :
  mmul (dg_e (EPParticle3.plasticity example_externals EPFields.init
                cached_ep_particle))
       (dg_p (EPParticle3.plasticity example_externals EPFields.init
                cached_ep_particle))
  = mdiag 1.
Proof.
  assert (He : dg_e (EPParticle3.plasticity example_externals EPFields.init
                       cached_ep_particle) = mdiag 1).
  { rewrite ep_plasticity_dg_e.
    cbn [svd example_externals dg_e cached_ep_particle example_ep_particle
         set_dg_cache EPParticle3.initialize new_Particle set_dg_p
         set_material m00 m11 m22 mdiag].
    rewrite clamp_diagonal_inside by (simpl; lra).
    change (mat3 1 0 0 0 1 0 0 0 1) with (mdiag 1).
    rewrite mmul_1_l, transpose_1, mmul_1_l. reflexivity. }
  assert (Hm : mmul (inverse (mdiag 1)) (mdiag 1) = mdiag 1)
    by (rewrite inverse_identity; apply mmul_1_l).
  destruct (ep_plasticity_splits_cache example_externals EPFields.init
              cached_ep_particle) as [H _].
  - rewrite He, det_mdiag. lra.
  - rewrite He. change (dg_cache cached_ep_particle) with (mdiag 1).
    rewrite Hm. unfold reconstructs. simpl. unfold mmul, transpose, mdiag.
    simpl. f_equal; ring.
  - rewrite He. change (dg_cache cached_ep_particle) with (mdiag 1).
    rewrite Hm. unfold singular_values_within. simpl. lra.
  - exact H.
Defined.

(** ** The Drucker-Prager return mapping *)















(** ** No strain, no force *)

Lemma force_cell_no_force (delta_t : R) (gm : Array3D R) (p : Particle)
  (gv : Array3D Vector3) (c ind : Index) :
  tmp_force p = mdiag 0 ->
  force_cell Rdiv delta_t gm p gv c ind = gv ind.
Proof.
  intros Hf. unfold force_cell. destruct (Reqb (gm c) 0); [reflexivity |].
  rewrite Hf, mvmul_0_l, vscale_0_r, vadd_0_r.
  destruct (Index_eqb c ind) eqn:E.
  - apply Index_eqb_eq in E. subst c. apply store_same.
  - apply store_other. apply Index_eqb_neq in E. congruence.
Qed.

Lemma force_cells_no_force (delta_t : R) (gm : Array3D R) (p : Particle)
  (l : list Index) (gv : Array3D Vector3) (ind : Index) :
  tmp_force p = mdiag 0 ->
  fold_left (force_cell Rdiv delta_t gm p) l gv ind = gv ind.
Proof.
  intros Hf. revert gv. induction l as [| c l IH]; intros gv; simpl.
  - reflexivity.
  - rewrite IH. apply force_cell_no_force. exact Hf.
Qed.

(** A particle without strain exerts no force.  The elastoplastic
    [calculate_force] stores the zero matrix when the rotation of the polar
    decomposition is [dg_e] itself and [det dg_e = 1]; the Drucker-Prager one
    when the three singular values are 1; and the second pass of
    [apply_deformation_force] leaves every grid velocity as it was when all
    stored forces are zero. *)
Theorem no_strain_no_force (X : Externals) (delta_t : R) (s : MPM3D) :
  (forall e p,
      fst (polar_decomp X (dg_e p)) = dg_e p -> det (dg_e p) = 1 ->
      tmp_force (EPParticle3.calculate_force X e p) = mdiag 0)
  /\ (forall d p,
         m00 (snd (fst (svd X (dg_e p)))) = 1 ->
         m11 (snd (fst (svd X (dg_e p)))) = 1 ->
         m22 (snd (fst (svd X (dg_e p)))) = 1 ->
         DPParticle3.calculate_force X d p
         = Ok (set_tmp_force p (mdiag 0)))
  /\ ((forall p, In p (particles s) -> tmp_force p = mdiag 0) ->
      forall ind,
        grid_velocity (accumulate_force_with Rdiv delta_t s) ind
        = grid_velocity s ind).
Proof.
  split; [| split].
  - intros e p Hr Hj.
    unfold EPParticle3.calculate_force, EPParticle3.get_energy_gradient.
    destruct (polar_decomp X (dg_e p)) as [r sm]. cbn [fst] in Hr. subst r.
    cbn [tmp_force set_tmp_force]. rewrite Hj, msub_diag, mscale_0_r.
    replace (EPFields.lambda_0 e
             * exp (Rmin (EPFields.hardening e * (1 - det (dg_p p))) 10)
             * (1 - 1) * 1) with 0 by ring.
    rewrite mscale_0_l, madd_0_l, mscale_0_r. apply mmul_0_l.
  - intros d p H0 H1 H2. unfold DPParticle3.calculate_force.
    destruct (svd X (dg_e p)) as [[u sig] sv]. cbn [fst snd] in *.
    rewrite H0, H1, H2.
    assert (E : Rltb 0 1 = true) by (apply Rltb_true; lra).
    rewrite E. cbn [assert_info bind]. rewrite ln_1. do 2 f_equal.
    cbn [m00 m11 m22].
    change (mat3 0 0 0 0 0 0 0 0 0) with (mdiag 0).
    replace (DPFields.lambda_0 d * (0 + 0 + 0)) with 0 by ring.
    rewrite mmul_0_r, mscale_0_l, madd_0_l, mmul_0_r, mmul_0_l, mscale_0_r.
    apply mmul_0_l.
  - intros Hf ind. unfold accumulate_force_with.
    cbn [grid_velocity set_grid_velocity].
    generalize (grid_velocity s) as gv.
    induction (particles s) as [| p ps IH]; intros gv; simpl.
    + reflexivity.
    + rewrite IH by (intros p0 Hp; apply Hf; right; exact Hp).
      apply force_cells_no_force. apply Hf. left. reflexivity.
Qed.

(** The theorem at a fresh particle of each kind. *)
Lemma no_strain_no_force_example :
  tmp_force (EPParticle3.calculate_force example_externals EPFields.init
               example_ep_particle) = mdiag 0
  /\ DPParticle3.calculate_force example_externals DPFields.init
       example_dp_particle
     = Ok (set_tmp_force example_dp_particle (mdiag 0)).
Proof.
  destruct (no_strain_no_force example_externals 0 example_simulation)
    as (He & Hd & _).
  split.
  - apply He; [reflexivity |]. simpl. rewrite det_mdiag. ring.
  - apply Hd; reflexivity.
Defined.

(** ** Internal forces and linear momentum *)

Lemma w_zero_dw_nonneg (y : R) : 0 <= y -> w y = 0 -> dw y = 0.
Proof.
  intros Hy Hw. destruct (Rlt_dec y 1) as [H1 | H1].
  - exfalso. rewrite w_piece1 in Hw by lra.
    assert (Hyy : y * y <= y) by nra.
    assert (Hp : 0 <= (1 - y) * (1 + y - y * y))
      by (apply Rmult_le_pos; lra).
    lra.
  - rewrite w_piece2 in Hw by lra.
    assert (Hc : (2 - y) * ((2 - y) * (2 - y)) = 0) by lra.
    assert (H2 : 2 - y = 0).
    { apply Rmult_integral in Hc. destruct Hc as [Hc | Hc]; [exact Hc |].
      apply Rmult_integral in Hc. destruct Hc; assumption. }
    rewrite dw_piece2 by lra.
    replace y with 2 by lra. lra.
Qed.

Lemma w_zero_dw (x : R) : w x = 0 -> dw x = 0.
Proof.
  intros Hw. destruct (Rle_dec 0 x) as [Hx | Hx].
  - apply w_zero_dw_nonneg; assumption.
  - replace x with (- - x) by ring. rewrite dw_odd.
    rewrite (w_zero_dw_nonneg (- x)); [ring | lra |].
    rewrite w_even. exact Hw.
Qed.

Lemma w3_zero_dw3 (d : Vector3) : w3 d = 0 -> dw3 d = vsplat 0.
Proof.
  unfold w3, dw3, vsplat. intros H.
  apply Rmult_integral in H. destruct H as [H | H].
  - apply Rmult_integral in H. destruct H as [H | H];
      rewrite H, (w_zero_dw _ H); f_equal; ring.
  - rewrite H, (w_zero_dw _ H). f_equal; ring.
Qed.

Lemma mass_shares_nonneg (rs : Index) (p : Particle) (ind : Index) :
  0 <= mass p ->
  Forall (fun x => 0 <= x)
    (map (mass_share p ind) (get_bounded_rasterization_region rs (pos p))).
Proof.
  intros Hm. apply Forall_forall. intros x Hx.
  apply in_map_iff in Hx. destruct Hx as [c [<- Hc]].
  unfold mass_share. destruct (Index_eqb ind c); [| lra].
  apply Rmult_le_pos; [| exact Hm].
  apply (w3_region_nonneg rs). exact Hc.
Qed.

(** A cell of the region of a particle with mass that gathered no mass has
    kernel weight 0 for that particle. *)
Lemma gathered_mass_zero_weight (rs : Index) (ps : list Particle)
  (p : Particle) (c : Index) :
  Forall (fun p => 0 < mass p) ps -> In p ps ->
  In c (get_bounded_rasterization_region rs (pos p)) ->
  gathered_mass rs ps c = 0 ->
  w3 (vsub (index_pos c) (pos p)) = 0.
Proof.
  intros Hm Hp Hc Hz.
  assert (Hm' : Forall (fun p => 0 <= mass p) ps).
  { eapply Forall_impl; [| exact Hm]. intros a Ha. simpl in Ha. lra. }
  unfold gathered_mass in Hz.
  apply Rsum_zero_all in Hz;
    [| apply gathered_mass_terms_nonneg; exact Hm'].
  rewrite Forall_forall in Hz.
  assert (Hz1 : Rsum (map (mass_share p c)
                          (get_bounded_rasterization_region rs (pos p))) = 0).
  { apply Hz.
    apply (in_map (fun p => Rsum (map (mass_share p c)
                     (get_bounded_rasterization_region rs (pos p))))).
    exact Hp. }
  rewrite Forall_forall in Hm, Hm'.
  apply Rsum_zero_all in Hz1; [| apply mass_shares_nonneg; auto].
  rewrite Forall_forall in Hz1.
  assert (Hz2 : mass_share p c c = 0)
    by (apply Hz1; apply in_map; exact Hc).
  unfold mass_share in Hz2. rewrite Index_eqb_refl in Hz2.
  apply Rmult_integral in Hz2. destruct Hz2 as [Hz2 | Hz2]; [exact Hz2 |].
  specialize (Hm p Hp). simpl in Hm. lra.
Qed.

Lemma vsum_map_mvmul {A : Type} (m : Matrix3) (f : A -> Vector3)
  (l : list A) :
  vsum (map (fun a => mvmul m (f a)) l) = mvmul m (vsum (map f l)).
Proof.
  induction l as [| a l IH]; simpl.
  - now rewrite mvmul_zero.
  - rewrite IH. generalize (f a) (vsum (map f l)). intros a1 a2.
    destruct a1, a2, m. unfold vadd, mvmul. simpl. f_equal; ring.
Qed.

Lemma vscale_vadd (k : R) (a b : Vector3) :
  vscale k (vadd a b) = vadd (vscale k a) (vscale k b).
Proof. destruct a, b. unfold vscale, vadd. simpl. f_equal; ring. Qed.

(** Cell mass times the force share a cell receives from a particle is the
    impulse [delta_t * tmp_force * grad w]: where the mass is positive the
    division cancels, and where it is 0 the gradient is 0 as well. *)
Lemma weighted_force_share (delta_t : R) (s : MPM3D) (p : Particle)
  (c : Index) :
  Forall (fun p => 0 < mass p) (particles s) ->
  mass_rasterized s ->
  In p (particles s) -> In c (region_of s p) ->
  vscale (grid_mass s c)
    (if Rltb 0 (grid_mass s c)
     then vscale (delta_t / grid_mass s c)
                 (mvmul (tmp_force p) (dw3 (vsub (pos p) (index_pos c))))
     else vsplat 0)
  = vscale delta_t (mvmul (tmp_force p) (dw3 (vsub (pos p) (index_pos c)))).
Proof.
  intros Hm Hg Hp Hc.
  destruct (Rltb 0 (grid_mass s c)) eqn:E.
  - apply Rltb_true in E.
    generalize (mvmul (tmp_force p) (dw3 (vsub (pos p) (index_pos c)))).
    intros y. destruct y. unfold vscale. simpl. f_equal; field; lra.
  - apply Rltb_false in E.
    assert (Hn : 0 <= grid_mass s c).
    { rewrite Hg. apply gathered_mass_nonneg.
      eapply Forall_impl; [| exact Hm]. intros a Ha. simpl in Ha. lra. }
    assert (Hz : gathered_mass (res s) (particles s) c = 0)
      by (rewrite <- Hg; lra).
    pose proof (gathered_mass_zero_weight _ _ p c Hm Hp Hc Hz) as Hw.
    rewrite vsub_swap, w3_even in Hw.
    rewrite (w3_zero_dw3 _ Hw), mvmul_zero, !vscale_0_r. reflexivity.
Qed.

Lemma gathered_force_weighted (delta_t : R) (s : MPM3D) :
  Forall (fun p => 0 < mass p) (particles s) ->
  all_fully_inside s -> mass_rasterized s ->
  vsum (map (fun c => vscale (grid_mass s c) (gathered_force delta_t s c))
            (get_region (res s)))
  = vsplat 0.
Proof.
  intros Hm Hfull Hg. unfold gathered_force.
  rewrite (vsum_map_ext _
    (fun c => vsum (map (fun p =>
       vsum (map (fun c' => vscale (grid_mass s c)
                              (force_share delta_t (grid_mass s) p c c'))
                 (region_of s p))) (particles s)))).
  2:{ intros c _. rewrite <- vsum_map_scale. apply vsum_map_ext.
      intros p _. rewrite <- vsum_map_scale. reflexivity. }
  rewrite vsum_swap. apply vsum_all_zero. intros p Hp.
  rewrite vsum_swap.
  rewrite (vsum_map_ext _
    (fun c' => vscale delta_t
       (mvmul (tmp_force p) (dw3 (vsub (pos p) (index_pos c')))))).
  - rewrite vsum_map_scale, vsum_map_mvmul, gradient_sum_full.
    + now rewrite mvmul_zero, vscale_0_r.
    + unfold all_fully_inside in Hfull. rewrite Forall_forall in Hfull.
      apply Hfull. exact Hp.
  - intros c' Hc'.
    rewrite (vsum_map_ext _
      (fun c => if Index_eqb c c'
                then vscale (grid_mass s c')
                       (if Rltb 0 (grid_mass s c')
                        then vscale (delta_t / grid_mass s c')
                               (mvmul (tmp_force p)
                                  (dw3 (vsub (pos p) (index_pos c'))))
                        else vsplat 0)
                else vsplat 0)).
    + rewrite vsum_indicator.
      * apply weighted_force_share; assumption.
      * apply NoDup_get_region.
      * apply (region_in_grid (res s) (pos p)). exact Hc'.
    + intros c _. unfold force_share.
      destruct (Index_eqb c c') eqn:E.
      * apply Index_eqb_eq in E. subst c. reflexivity.
      * simpl. apply vscale_0_r.
Qed.

Lemma calculate_force_keeps (X : Externals) (p p' : Particle) :
  calculate_force X p = Ok p' -> pos p' = pos p /\ mass p' = mass p.
Proof.
  unfold calculate_force. destruct (material p) as [e | d].
  - intros H. injection H as <-. split; reflexivity.
  - unfold DPParticle3.calculate_force.
    destruct (svd X (dg_e p)) as [[u sig] sv]. unfold assert_info.
    destruct (Rltb 0 (m00 sig)); cbn [bind]; [| discriminate].
    destruct (Rltb 0 (m11 sig)); cbn [bind]; [| discriminate].
    destruct (Rltb 0 (m22 sig)); cbn [bind]; [| discriminate].
    intros H. injection H as <-. split; reflexivity.
Qed.

Lemma mapM_Forall2 {A B : Type} (f : A -> Result B) (Q : A -> B -> Prop)
  (l : list A) (l' : list B) :
  (forall a b, f a = Ok b -> Q a b) ->
  mapM f l = Ok l' -> Forall2 Q l l'.
Proof.
  intros Hf. revert l'. induction l as [| a l IH]; intros l'; simpl.
  - intros H. injection H as <-. constructor.
  - destruct (f a) as [b |] eqn:E; simpl; [| discriminate].
    destruct (mapM f l) as [bs |]; simpl; [| discriminate].
    intros H. injection H as <-. constructor; [apply Hf; exact E |].
    apply IH. reflexivity.
Qed.

Lemma gathered_mass_same (rs : Index) (ps ps' : list Particle) (c : Index) :
  Forall2 (fun p p' => pos p' = pos p /\ mass p' = mass p) ps ps' ->
  gathered_mass rs ps' c = gathered_mass rs ps c.
Proof.
  unfold gathered_mass. induction 1 as [| p p' ps ps' [Hx Hm] _ IH]; simpl.
  - reflexivity.
  - rewrite IH, Hx. f_equal. apply Rsum_map_ext. intros c' _.
    unfold mass_share. rewrite Hx, Hm. reflexivity.
Qed.

(** [apply_deformation_force] conserves the linear momentum of the grid:
    with particles of positive mass whose regions lie inside the grid, and
    grid masses as [rasterize] leaves them, a call that returns changes no
    cell mass and leaves the sum of cell mass times cell velocity as it
    was, whatever the forces of the particles are. *)
Theorem internal_forces_conserve_momentum (X : Externals) (delta_t : R)
  (s s' : MPM3D) :
  Forall (fun p => 0 < mass p) (particles s) ->
  all_fully_inside s -> mass_rasterized s ->
  apply_deformation_force X delta_t s = Ok s' ->
  total_grid_momentum s' = total_grid_momentum s
  /\ (forall c, grid_mass s' c = grid_mass s c).
Proof.
  intros Hm Hfull Hg.
  unfold apply_deformation_force, apply_deformation_force_with.
  destruct (mapM (calculate_force X) (particles s)) as [ps |] eqn:E;
    cbn [bind]; [| discriminate].
  intros H. injection H as <-.
  pose proof (mapM_Forall2 _ _ _ _ (calculate_force_keeps X) E) as Hk.
  set (s1 := set_particles s ps).
  assert (Hm1 : Forall (fun p => 0 < mass p) (particles s1)).
  { cbn [s1 particles set_particles]. clear - Hm Hk.
    induction Hk as [| p p' l l' [_ Hpm] _ IH]; [constructor |].
    inversion Hm; subst. constructor; [rewrite Hpm; assumption |].
    apply IH. assumption. }
  assert (Hfull1 : all_fully_inside s1).
  { unfold all_fully_inside in *. cbn [s1 particles set_particles].
    clear - Hfull Hk.
    induction Hk as [| p p' l l' [Hpx _] _ IH]; [constructor |].
    inversion Hfull; subst. constructor; [| apply IH; assumption].
    unfold fully_inside, region_of in *.
    cbn [res set_particles]. rewrite Hpx. assumption. }
  assert (Hg1 : mass_rasterized s1).
  { intros c. cbn [s1 grid_mass res particles set_particles].
    rewrite (gathered_mass_same _ _ _ _ Hk). apply Hg. }
  split; [| reflexivity].
  unfold total_grid_momentum.
  change (res (accumulate_force_with Rdiv delta_t s1)) with (res s1).
  rewrite (vsum_map_ext _
    (fun c => vadd (vscale (grid_mass s1 c) (grid_velocity s1 c))
                   (vscale (grid_mass s1 c) (gathered_force delta_t s1 c)))).
  - rewrite vsum_map_plus, gathered_force_weighted by assumption.
    rewrite vadd_0_r. reflexivity.
  - intros c _.
    change (grid_mass (accumulate_force_with Rdiv delta_t s1) c)
      with (grid_mass s1 c).
    rewrite accumulate_force_gathered.
    + apply vscale_vadd.
    + reflexivity.
    + intros j. rewrite Hg1. apply gathered_mass_nonneg.
      eapply Forall_impl; [| exact Hm1]. intros a Ha. simpl in Ha. lra.
Qed.

(** The theorem at the moving particle, after [rasterize]. *)
Lemma internal_forces_conserve_momentum_example :
  exists s',
    apply_deformation_force example_externals 1 (rasterize moving_simulation)
    = Ok s'
    /\ total_grid_momentum s' = total_grid_momentum (rasterize moving_simulation).
Proof.
  eexists. split; [reflexivity |].
  apply (internal_forces_conserve_momentum example_externals 1
           (rasterize moving_simulation)).
  - cbn [particles rasterize rasterize_with set_grid_velocity set_grid_mass
         moving_simulation empty_grid_simulation].
    constructor; [| constructor]. simpl. lra.
  - unfold all_fully_inside.
    cbn [particles rasterize rasterize_with set_grid_velocity set_grid_mass
         moving_simulation empty_grid_simulation].
    constructor; [| constructor].
    apply (centered_fully_inside moving_particle). reflexivity.
  - intros c. exact (rasterize_with_mass Rdiv moving_simulation c).
  - reflexivity.
Defined.

(** ** From the particles to the grid and back *)

Lemma gathered_momentum_common (rs : Index) (ps : list Particle)
  (u : Vector3) (c : Index) :
  Forall (fun p => v p = u /\ apic_b p = mdiag 0) ps ->
  gathered_momentum rs ps c = vscale (gathered_mass rs ps c) u.
Proof.
  intros Hc. unfold gathered_momentum, gathered_mass.
  rewrite Forall_forall in Hc.
  rewrite (vsum_map_ext _
    (fun p => vscale (Rsum (map (mass_share p c)
                (get_bounded_rasterization_region rs (pos p)))) u)).
  - apply vsum_map_scale_vec.
  - intros p Hp. destruct (Hc p Hp) as [Hv Hb].
    rewrite <- vsum_map_scale_vec. apply vsum_map_ext. intros c' _.
    unfold momentum_share, mass_share.
    destruct (Index_eqb c c'); [| now rewrite vscale_0].
    cbv zeta. rewrite Hv, Hb, mscale_0_r, mvmul_0_l, vadd_0_r. reflexivity.
Qed.

(** Where [rasterize] gathered mass, a cloud with a common velocity leaves
    that velocity on the grid. *)
Lemma rasterize_common_velocity (s : MPM3D) (u : Vector3) (c : Index) :
  Forall (fun p => 0 <= mass p) (particles s) ->
  common_velocity s u ->
  In c (get_region (res s)) ->
  grid_mass (rasterize s) c <> 0 ->
  grid_velocity (rasterize s) c = u.
Proof.
  intros Hm Hc Hin Hg.
  pose proof (rasterize_cell_momentum s c Hm Hin) as H.
  rewrite (gathered_momentum_common _ _ u c Hc) in H.
  change (gathered_mass (res s) (particles s) c)
    with (gathered_mass (res s) (particles s) c) in H.
  rewrite <- (rasterize_with_mass Rdiv s c) in H.
  fold (rasterize s) in H.
  revert H Hg. generalize (grid_mass (rasterize s) c).
  generalize (grid_velocity (rasterize s) c). intros g m H Hg.
  destruct g, u. unfold vscale in H. simpl in H.
  injection H as Hx Hy Hz.
  f_equal; eapply Rmult_eq_reg_l; eauto.
Qed.

Lemma outerProduct_0_r (a : Vector3) : outerProduct a (vsplat 0) = mdiag 0.
Proof. destruct a. unfold outerProduct, vsplat, mdiag. simpl. f_equal; ring. Qed.

(** [resample] reads the grid only where the kernel weight is not 0. *)
Lemma resample_cell_agree (s s' : MPM3D) (p : Particle) (a : ResampleAcc)
  (c : Index) :
  (w3 (vsub (pos p) (index_pos c)) <> 0 ->
   grid_velocity s c = grid_velocity s' c
   /\ grid_velocity_backup s c = grid_velocity_backup s' c) ->
  resample_cell s p a c = resample_cell s' p a c.
Proof.
  intros H. unfold resample_cell. cbv zeta.
  destruct (Req_dec (w3 (vsub (pos p) (index_pos c))) 0) as [Hz | Hz].
  - rewrite (w3_zero_dw3 _ Hz), Hz, !vscale_0, !mscale_0_l,
      !outerProduct_0_r. reflexivity.
  - destruct (H Hz) as [-> ->]. reflexivity.
Qed.

Lemma resample_particle_agree (delta_t : R) (s s' : MPM3D) (p : Particle) :
  res s = res s' -> apic s = apic s' ->
  (forall c, In c (region_of s p) ->
             w3 (vsub (pos p) (index_pos c)) <> 0 ->
             grid_velocity s c = grid_velocity s' c
             /\ grid_velocity_backup s c = grid_velocity_backup s' c) ->
  resample_particle delta_t s p = resample_particle delta_t s' p.
Proof.
  intros Hres Hapic H.
  assert (Hloop : resample_loop s p = resample_loop s' p).
  { unfold resample_loop.
    assert (Hreg : region_of s' p = region_of s p)
      by (unfold region_of; now rewrite Hres).
    rewrite Hreg. clear Hreg.
    generalize (mkAcc (vsplat 0) (vsplat 0) (mdiag 0) (mdiag 0) 0).
    revert H. induction (region_of s p) as [| c l IH]; intros H a.
    - reflexivity.
    - simpl. rewrite (resample_cell_agree s s' p a c)
        by (apply H; left; reflexivity).
      apply IH. intros c' Hc'. apply H. right. exact Hc'. }
  unfold resample_particle. rewrite Hloop, Hapic. reflexivity.
Qed.

(** [resample] under a grid velocity and a backup that are both [u] on the
    region of a particle that already moves with [u]. *)
Lemma resample_moving_as_a_whole (delta_t : R) (s : MPM3D) (p : Particle)
  (u : Vector3) :
  fully_inside s p = true -> v p = u ->
  let p' := resample_particle delta_t (moving_as_a_whole s u) p in
  v p' = u /\ apic_b p' = mdiag 0 /\ dg_e p' = dg_e p.
Proof.
  intros Hf Hv p'. set (su := moving_as_a_whole s u) in *.
  assert (Hfu : fully_inside su p = true) by exact Hf.
  assert (Hu : forall c, In c (region_of su p) -> grid_velocity su c = u)
    by reflexivity.
  assert (Hcdg : acc_cdg (resample_loop su p) = mdiag 0).
  { unfold resample_loop.
    rewrite (resample_fold_cdg_uniform su p u) by exact Hu.
    rewrite (gradient_sum_full su p Hfu). cbn [acc_cdg].
    rewrite outerProduct_0_r. apply madd_0_l. }
  assert (Hb : acc_b (resample_loop su p) = mdiag 0).
  { unfold resample_loop.
    rewrite (resample_fold_b_uniform su p u) by exact Hu.
    rewrite (first_moment_rev_full su p Hfu). cbn [acc_b].
    replace (vneg (vsplat 0)) with (vsplat 0)
      by (unfold vneg, vsplat; simpl; f_equal; ring).
    rewrite outerProduct_0_r. apply madd_0_l. }
  assert (Hint : forall field,
             (forall c, field c = u) -> interpolate su field p = u).
  { intros field Hfield. apply interpolate_uniform; [exact Hfu |].
    intros c _. apply Hfield. }
  destruct (resample_particle_resampled delta_t su p) as (_ & Hon & Hoff).
  fold p' in Hon, Hoff.
  split; [| split].
  - destruct (apic su) eqn:Ea.
    + rewrite (Hon eq_refl). apply Hint. reflexivity.
    + rewrite (Hoff eq_refl), !Hint by reflexivity. rewrite Hv.
      destruct u. unfold vadd, vsub. simpl. f_equal; ring.
  - unfold p', resample_particle.
    cbn [apic_b set_dg_cache set_dg_e set_v set_apic_b].
    rewrite Hb. destruct (_ || _); reflexivity.
  - unfold p', resample_particle. cbn [dg_e set_dg_cache set_dg_e].
    rewrite Hcdg, mscale_0_r, madd_0_r. apply mmul_1_l.
Qed.

(** From the particles to the grid and back.  When all particles have
    positive mass, the same velocity [u] and no affine term, [rasterize]
    followed by the velocity backup and [resample] gives every particle
    whose region is inside the grid its velocity [u] back, with no affine
    term, with APIC on or off. *)
Theorem rasterize_resample_round_trip (delta_t : R) (s : MPM3D)
  (u : Vector3) (p : Particle) :
  Forall (fun p => 0 < mass p) (particles s) ->
  common_velocity s u ->
  In p (particles s) -> fully_inside s p = true ->
  let p' := resample_particle delta_t (grid_backup_velocity (rasterize s)) p in
  v p' = u /\ apic_b p' = mdiag 0.
Proof.
  intros Hm Hc Hp Hf p'.
  assert (Hm' : Forall (fun p => 0 <= mass p) (particles s)).
  { eapply Forall_impl; [| exact Hm]. intros a Ha. simpl in Ha. lra. }
  assert (Hv : v p = u).
  { unfold common_velocity in Hc. rewrite Forall_forall in Hc.
    apply (Hc p Hp). }
  set (s2 := grid_backup_velocity (rasterize s)) in *.
  assert (Heq : resample_particle delta_t s2 p
                = resample_particle delta_t (moving_as_a_whole s2 u) p).
  { apply resample_particle_agree; [reflexivity | reflexivity |].
    intros c Hin Hw.
    assert (Hgv : grid_velocity (rasterize s) c = u).
    { apply rasterize_common_velocity; [exact Hm' | exact Hc | |].
      - apply (region_in_grid (res s) (pos p)). exact Hin.
      - unfold rasterize. rewrite rasterize_with_mass. intros Hz.
        apply Hw. rewrite vsub_swap, w3_even.
        apply (gathered_mass_zero_weight (res s) (particles s)); assumption. }
    split; exact Hgv. }
  unfold p'. rewrite Heq.
  destruct (resample_moving_as_a_whole delta_t s2 p u Hf Hv) as (H1 & H2 & _).
  split; assumption.
Qed.

(** The theorem for two particles flying side by side, one of them with a
    region clipped by the boundary. *)
Lemma rasterize_resample_round_trip_example :
  v (resample_particle 0.001 (grid_backup_velocity (rasterize flying_pair))
       (set_v centered_particle (vec3 1 2 3)))
  = vec3 1 2 3.
Proof.
  destruct (rasterize_resample_round_trip 0.001 flying_pair (vec3 1 2 3)
              (set_v centered_particle (vec3 1 2 3))) as (H & _).
  - cbn [particles flying_pair empty_grid_simulation].
    repeat constructor; simpl; lra.
  - unfold common_velocity.
    cbn [particles flying_pair empty_grid_simulation].
    repeat constructor.
  - left. reflexivity.
  - change (fully_inside
              (empty_grid_simulation [set_v centered_particle (vec3 1 2 3)])
              (set_v centered_particle (vec3 1 2 3)) = true).
    apply centered_fully_inside. reflexivity.
  - exact H.
Defined.

(** ** The kernel as a partition of unity *)

Lemma w_cubic (y : R) :
  1 <= y -> w y = (2 - y) * ((2 - y) * (2 - y)) / 6.
Proof. intros Hy. rewrite w_piece2 by exact Hy. lra. Qed.

Lemma w_pos_inside (x : R) : Rabs x < 2 -> 0 < w x.
Proof.
  intros Hx. pose proof (Rabs_pos x) as H0.
  assert (Hw : w x = w (Rabs x)).
  { unfold Rabs. destruct (Rcase_abs x); [| reflexivity].
    symmetry. apply w_even. }
  rewrite Hw. set (y := Rabs x) in *.
  destruct (Rlt_dec y 1) as [H1 | H1].
  - rewrite w_piece1 by lra.
    assert (Hyy : y * y <= y) by nra.
    assert (Hp : 0 <= (1 - y) * (1 + y - y * y))
      by (apply Rmult_le_pos; lra).
    lra.
  - rewrite w_cubic by lra.
    assert (Hp : 0 < (2 - y) * ((2 - y) * (2 - y)))
      by (repeat apply Rmult_lt_0_compat; lra).
    lra.
Qed.


(** The kernel is a partition of unity that reproduces linear functions:
    around every [x], with [b] its floor, the weights of the four nodes
    [b - 1 .. b + 2] add up to 1, their derivatives to 0, and their first
    moment is 0. *)
Theorem kernel_partition_of_unity (x : R) :
  let b := Zfloor x in
  w (x - IZR (b - 1)) + w (x - IZR b) + w (x - IZR (b + 1))
  + w (x - IZR (b + 2)) = 1
  /\ dw (x - IZR (b - 1)) + dw (x - IZR b) + dw (x - IZR (b + 1))
     + dw (x - IZR (b + 2)) = 0
  /\ w (IZR (b - 1) - x) * (IZR (b - 1) - x)
     + w (IZR b - x) * (IZR b - x)
     + w (IZR (b + 1) - x) * (IZR (b + 1) - x)
     + w (IZR (b + 2) - x) * (IZR (b + 2) - x) = 0.
Proof.
  intros b. split; [| split].
  - apply four_weights_rev.
  - apply four_gradients.
  - apply four_moments.
Qed.

(** ** Elastoplastic simulations never fail *)



Lemma resample_particle_material (delta_t : R) (s : MPM3D) (p : Particle) :
  material (resample_particle delta_t s p) = material p.
Proof. reflexivity. Qed.




(** ** The assertions of the kernel *)

Lemma kernel_assert_true (x : R) : Rabs x <= 2 -> kernel_assert x = true.
Proof.
  intros H. unfold kernel_assert.
  destruct (Rle_dec (Rabs x) 2); [reflexivity | contradiction].
Qed.

Lemma w3_checked_ok (a : Vector3) :
  Rabs (vx a) <= 2 -> Rabs (vy a) <= 2 -> Rabs (vz a) <= 2 ->
  w3_checked a = Ok (w3 a) /\ dw3_checked a = Ok (dw3 a).
Proof.
  intros Hx Hy Hz. unfold w3_checked, dw3_checked, w_checked, dw_checked.
  rewrite !kernel_assert_true by assumption. split; reflexivity.
Qed.

(** The assertions of [w] and [dw] never fail in the transfers: for every
    cell of the region of a position, the kernel calls of [rasterize] (on
    the cell minus the position) and of [resample] and
    [apply_deformation_force] (on the position minus the cell) pass their
    [assert(x <= 2)] and return the values of [w] and [dw]. *)
Theorem kernel_assertions_hold (rs : Index) (x : Vector3) (c : Index) :
  In c (get_bounded_rasterization_region rs x) ->
  w3_checked (vsub (index_pos c) x) = Ok (w3 (vsub (index_pos c) x))
  /\ w3_checked (vsub x (index_pos c)) = Ok (w3 (vsub x (index_pos c)))
  /\ dw3_checked (vsub x (index_pos c)) = Ok (dw3 (vsub x (index_pos c))).
Proof.
  destruct rs as [[r0 r1] r2], c as [[i j] k].
  unfold get_bounded_rasterization_region. rewrite in_cells.
  intros (Hi & Hj & Hk).
  apply bounded_axis_near in Hi, Hj, Hk.
  assert (Hr : forall a b, Rabs (a - b) <= 2 -> Rabs (b - a) <= 2).
  { intros a b H. rewrite Rabs_minus_sym. exact H. }
  split; [| split].
  - apply w3_checked_ok; assumption.
  - apply w3_checked_ok; cbn [vsub index_pos vx vy vz]; apply Hr; assumption.
  - apply w3_checked_ok; cbn [vsub index_pos vx vy vz]; apply Hr; assumption.
Qed.

(** The theorem at the corner cell of the particle in the middle of a
    4 x 4 x 4 grid. *)
Lemma kernel_assertions_hold_example :
  w3_checked (vsub (index_pos (0, 0, 0)%Z) (vec3 1.5 1.5 1.5))
  = Ok (w3 (vsub (index_pos (0, 0, 0)%Z) (vec3 1.5 1.5 1.5))).
Proof.
  destruct (kernel_assertions_hold (4, 4, 4)%Z (vec3 1.5 1.5 1.5)
              (0, 0, 0)%Z) as (H & _).
  - unfold get_bounded_rasterization_region. cbn [vx vy vz].
    rewrite (bounded_axis_at 4 1.5 1) by (simpl; lra).
    simpl. left. reflexivity.
  - exact H.
Defined.

(** ** Where binary32 leaves the exact values *)

(** Inside the support the rounded kernel can be negative: [1.99f] is below
    2 and the exact value of [w] at 1.99 is positive, but [w(1.99f)], in
    binary32 and in the order of the source, is [-2^-23]. *)
Theorem F32_w_negative_inside_support :
  SFltb (F32.frac 199 100) (F32.of_Z 2) = true
  /\ F32.w (F32.frac 199 100) = S754_finite true 8388608 (-46)
  /\ SFltb (F32.w (F32.frac 199 100)) (F32.of_Z 0) = true
  /\ 0 < w 1.99.
Proof.
  split; [vm_compute; reflexivity |].
  split; [vm_compute; reflexivity |].
  split; [vm_compute; reflexivity |].
  apply w_pos_inside. rewrite Rabs_pos_eq by lra. lra.
Qed.

(** The upper bound of the clamp in the particle loop of [substep] is the
    resolution itself for grids of 33 to 4096 cells along an axis: in
    binary32, with [eps = 1e-6f], [res - eps] rounds to [res], so a
    coordinate can be clamped to [res], one cell beyond the last. *)
Theorem F32_clamp_bound_is_res :
  forallb (fun r => SFeqb (F32.sub (F32.of_Z r) F32.eps) (F32.of_Z r))
          (interval 33 4097) = true
  /\ SFltb (F32.sub (F32.of_Z 32) F32.eps) (F32.of_Z 32) = true
  /\ SFltb (F32.of_Z 0) F32.eps = true
  /\ F32.eps = F32.frac 1 1000000.
Proof.
  split; [vm_compute; reflexivity |].
  split; [vm_compute; reflexivity |].
  split; vm_compute; reflexivity.
Qed.

(** A seeded coordinate can reach the next cell: in binary32, for every
    cell index [i] from 1 to 4096, [i + rand()] rounds to [i + 1] when
    [rand()] returns [0.99999994f], the largest float below 1; a particle
    of the last cell is then placed at [res]. *)
Theorem F32_seed_reaches_next_cell :
  SFltb F32.below_one (F32.of_Z 1) = true
  /\ forallb (fun i => SFeqb (F32.add (F32.of_Z i) F32.below_one)
                             (F32.of_Z (i + 1)))
             (interval 1 4097) = true.
Proof.
  split; [vm_compute; reflexivity |].
  vm_compute. reflexivity.
Qed.
